(** * Verification of lib/debug.cpp (0 A.D. platform-independent debug support)

    A shallow embedding of the four stateful parts of [debug.cpp] and the
    properties established (or refuted) about them:

    - [TagFilter]      : [debug_filter_add], [debug_filter_remove],
                         [debug_filter_clear], [filter_allows];
    - [ActivityLog]    : [debug_wprintf_mem];
    - [SymbolCache]    : [symbol_string_build], [symbol_string_from_cache],
                         [symbol_string_add_to_cache], [debug_get_symbol_string];
    - [ErrorReporter]  : [should_suppress_error], [build_error_message],
                         [debug_write_crashlog], [call_display_error],
                         [carry_out_ErrorReaction], [debug_display_error],
                         [debug_assert_failed], [debug_warn_err].

    Conventions.  Unsigned 32-bit quantities ([u32], [uint]) are [Z] with the
    wrap-around written out ([mod 2^32]).  C arrays are lists read with
    [!!!] and written with [<[i:=x]>]; every write is preceded by the bounds
    test the C code relies on, and a write outside the array is reported as
    such instead of being silently dropped.  Functions of other translation
    units ([fnv_hash], [path_name_only], [debug_resolve_symbol], the display
    hooks, ...) are section variables.  The printf family of the C library
    the file is built against is a parameter [libc] of the parts that format
    text; what is proved of them is proved for both families, with the
    cases that only one of them allows spelled out. *)

From Stdlib Require Import ZArith Lia Ascii String.
From stdpp Require Import base numbers list strings pretty gmap.

Open Scope Z_scope.

(** [uint] / [u32] arithmetic wraps modulo 2^32. *)
Definition UINT_MOD : Z := 2 ^ 32.
Definition wrap_uint (x : Z) : Z := x mod UINT_MOD.

(** The printf family behind the file's [snprintf] and [vswprintf]: C99's,
    or the Win32 one ([_snprintf], [_vsnwprintf]) of Windows builds, whose
    departure from C99 debug.cpp's comment on [_vsnprintf] mentions. The
    two agree on a text that fits the count together with its terminator.
    Otherwise the Win32 functions store the first [count] characters without
    a terminator, and return the length when the text fills the count
    exactly and a negative result when it is longer. *)
Inductive printf_family : Type := C99 | Win32.

(* ===================================================================== *)
(** * TagFilter: debug.cpp lines 92-161                                    *)
(* ===================================================================== *)

Module TagFilter.

(** [static const uint MAX_TAGS = 20;] *)
Definition MAX_TAGS : nat := 20.

(** [static u32 tags[MAX_TAGS]; static uint num_tags;] *)
Record filter : Type := Filter { tags : list Z; num_tags : Z }.

(** Static storage is zero-initialised. *)
Definition filter_init : filter := Filter (replicate MAX_TAGS 0) 0.

(** [for(uint i = 0; i < MAX_TAGS; i++) if(tags[i] == hash) ...]:
    the index of the first slot holding [hash], scanning [n] slots from [i]. *)
Fixpoint scan_tags (t : list Z) (hash : Z) (i n : nat) : option nat :=
  match n with
  | O => None
  | S n' => if (t !!! i) =? hash then Some i else scan_tags t hash (S i) n'
  end.

(** What a call of [debug_filter_add] did. [AddOutOfBounds] is the store
    [tags[num_tags++]] with [num_tags > MAX_TAGS] (undefined in C; only
    reachable once [num_tags] has wrapped below zero). *)
Inductive add_result : Type :=
  | AddStored
  | AddAlreadyPresent
  | AddWarnIncreaseMaxTags
  | AddOutOfBounds.

Section WithHash.

(** [u32 fnv_hash(const void* buf, size_t len = 0)] from lib.cpp. *)
Variable fnv_hash : string → Z.

Definition debug_filter_add (f : filter) (tag : string) : filter * add_result :=
  let hash := fnv_hash tag in
  (* make sure it isn't already in the list *)
  match scan_tags (tags f) hash 0 MAX_TAGS with
  | Some _ => (f, AddAlreadyPresent)
  | None =>
      (* too many already? *)
      if num_tags f =? Z.of_nat MAX_TAGS then (f, AddWarnIncreaseMaxTags)
      else if num_tags f <? Z.of_nat MAX_TAGS then
        (Filter (<[Z.to_nat (num_tags f) := hash]> (tags f))
                (wrap_uint (num_tags f + 1)), AddStored)
      else (f, AddOutOfBounds)
  end.

Definition debug_filter_remove (f : filter) (tag : string) : filter :=
  let hash := fnv_hash tag in
  match scan_tags (tags f) hash 0 MAX_TAGS with
  | Some i =>
      (* replace with last element (avoid holes): tags[i] = tags[MAX_TAGS-1] *)
      Filter (<[i := tags f !!! (MAX_TAGS - 1)%nat]> (tags f))
             (wrap_uint (num_tags f - 1))
  | None => f
  end.

(** [for(uint i = 0; i < MAX_TAGS; i++) tags[i] = 0;] *)
Definition debug_filter_clear (f : filter) : filter :=
  Filter (foldl (λ t i, <[i := 0]> t) (tags f) (seq 0 MAX_TAGS)) (num_tags f).

(** First loop of [filter_allows]: [None] when a space or the terminator
    is met before a [|] (no tag), otherwise the index of the [|]. *)
Fixpoint tag_end (text : string) (i : nat) : option nat :=
  match text with
  | EmptyString => None
  | String c rest =>
      if (c =? " ")%char || (c =? "000")%char then None
      else if (c =? "|")%char && negb (i =? 0)%nat then Some i
      else tag_end rest (S i)
  end.

Definition filter_allows (f : filter) (text : string) : bool :=
  match tag_end text 0 with
  | None => true
  | Some i =>
      let hash := fnv_hash (substring 0 i text) in
      match scan_tags (tags f) hash 0 MAX_TAGS with
      | Some _ => true
      | None => false
      end
  end.

(** A topic hash is enabled when some slot holds it (second loop of
    [filter_allows]). *)
Definition enabled (f : filter) (hash : Z) : bool :=
  match scan_tags (tags f) hash 0 MAX_TAGS with
  | Some _ => true
  | None => false
  end.

(** A run of [debug_filter_add] calls, with what each one did. *)
Fixpoint add_all (f : filter) (l : list string) : filter * list add_result :=
  match l with
  | [] => (f, [])
  | tag :: l' =>
      let '(f1, r) := debug_filter_add f tag in
      let '(f2, rs) := add_all f1 l' in
      (f2, r :: rs)
  end.

End WithHash.

(** 32-bit FNV-1a, standing in for lib.cpp's [fnv_hash] where a concrete
    hash is needed to run the filter on real topic names. *)
Definition fnv_step (h : Z) (c : ascii) : Z :=
  (Z.lxor h (Z.of_nat (nat_of_ascii c)) * 16777619) mod UINT_MOD.
Definition fnv1a (s : string) : Z :=
  fold_left fnv_step (list_ascii_of_string s) 2166136261.

End TagFilter.

(* ===================================================================== *)
(** * ActivityLog: debug.cpp lines 40-74                                   *)
(* ===================================================================== *)

Module ActivityLog.

(** [static const size_t LOG_CHARS = 16384;] *)
Definition LOG_CHARS : Z := 16384.

(** [size_t] arithmetic wraps; 32 bits is the narrowest [size_t] the code
    was built for. *)
Definition SIZE_MOD : Z := 2 ^ 32.
Definition wrap_size (x : Z) : Z := x mod SIZE_MOD.

(** [wchar_t debug_log[LOG_CHARS]; wchar_t* debug_log_pos = debug_log;]
    The cursor is kept as the offset [debug_log_pos - debug_log]. *)
Record log : Type := Log { debug_log : list Z; debug_log_pos : Z }.

Definition log_init : log := Log (replicate (Z.to_nat LOG_CHARS) 0) 0.

(** The formatted text of one call ([fmt] applied to its arguments, without
    terminator) and whether formatting itself fails (an encoding error),
    in which case [text] is what was produced up to the error. *)
Record line : Type := Line { text : list Z; format_fails : bool }.

(** Store [data] at offset [pos]: [None] when any of it falls outside the
    array. *)
Definition store (buf : list Z) (pos : Z) (data : list Z) : option (list Z) :=
  if (0 <=? pos) && (pos + Z.of_nat (length data) <=? Z.of_nat (length buf))
  then Some (take (Z.to_nat pos) buf ++ data
             ++ drop (Z.to_nat pos + length data) buf)
  else None.

(** The compaction branch: [memcpy2(debug_log, middle, copy_size);
    memset(middle, 0, copy_size); debug_log_pos -= LOG_CHARS/2;] *)
Definition compact (l : log) : log :=
  let half := Z.to_nat (LOG_CHARS / 2) in
  let middle := take half (drop half (debug_log l)) in
  let copied := middle ++ drop half (debug_log l) in
  let cleared := take half copied ++ replicate half 0 ++ drop (half + half) copied in
  Log cleared (debug_log_pos l - LOG_CHARS / 2).

(** A text that formats without error and fills the count exactly, which
    the Win32 function accepts and C99's does not. *)
Definition exact_fit (libc : printf_family) (n : Z) (ln : line) : bool :=
  match libc with
  | Win32 => negb (format_fails ln) && (Z.of_nat (length (text ln)) =? n)
  | C99 => false
  end.

(** [vswprintf(dst, n, fmt, args)]: the text and its terminator when they
    fit [n] characters, returning the length; otherwise at most [n]
    characters of the text are stored, without terminator, and the result
    is negative, unless the function is the Win32 one and the text fills
    the [n] characters exactly. The first component is [None] when a store
    leaves the array. *)
Definition vswprintf (libc : printf_family) (buf : list Z) (pos n : Z) (ln : line)
    : option (list Z) * Z :=
  if format_fails ln || (n <=? Z.of_nat (length (text ln)))
  then (store buf pos (take (Z.to_nat n) (text ln)),
        if exact_fit libc n ln then Z.of_nat (length (text ln)) else -1)
  else (store buf pos (text ln ++ [0]), Z.of_nat (length (text ln))).

(** How a call of [debug_wprintf_mem] ends. *)
Inductive outcome : Type :=
  | Appended (l : log)      (* text and line terminator stored *)
  | Dropped (l : log)       (* debug_warn("vswprintf failed"); return *)
  | Overrun.                (* a store outside debug_log *)

Definition debug_wprintf_mem (libc : printf_family) (l : log) (ln : line) : outcome :=
  let chars_left := LOG_CHARS - debug_log_pos l in
  (* potentially not enough room for the new string; throw away the
     older half of the log. *)
  let l1 := if chars_left <? 512 then compact l else l in
  (* write into buffer (in-place); the count is converted to size_t *)
  match vswprintf libc (debug_log l1) (debug_log_pos l1) (wrap_size (chars_left - 2)) ln
  with
  | (None, _) => Overrun
  | (Some buf, len) =>
      if len <? 0 then Dropped (Log buf (debug_log_pos l1))
      else
        let pos := debug_log_pos l1 + (len + 2) in
        (* wcscpy(debug_log_pos-2, L"\r\n") *)
        match store buf (pos - 2) [13; 10; 0] with
        | Some buf' => Appended (Log buf' pos)
        | None => Overrun
        end
  end.

(** A run of calls; [None] once a call has overrun the array. *)
Fixpoint append_all (libc : printf_family) (l : log) (lns : list line) : option log :=
  match lns with
  | [] => Some l
  | ln :: lns' =>
      match debug_wprintf_mem libc l ln with
      | Appended l' | Dropped l' => append_all libc l' lns'
      | Overrun => None
      end
  end.

End ActivityLog.

(* ===================================================================== *)
(** * SymbolCache: debug.cpp lines 243-439                                 *)
(* ===================================================================== *)

Module SymbolCache.

Definition KiB : Z := 1024.
(** [static const size_t STRING_BUF_SIZE = 64*KiB;] *)
Definition STRING_BUF_SIZE : Z := 64 * KiB.
(** [const size_t STRING_MAX = 1000;] *)
Definition STRING_MAX : Z := 1000.
(** [static const uint MAX_SYMBOLS = 2048;] *)
Definition MAX_SYMBOLS : nat := 2048.

Definition SIZE_MOD : Z := 2 ^ 32.
Definition wrap_size (x : Z) : Z := x mod SIZE_MOD.

Definition NUL : ascii := "000"%char.

(** [struct Symbol { void* symbol; const char* string; };] valid iff
    [symbol != 0]. A [const char*] into the string buffer is kept as its
    offset from [string_buf]; [None] is the null pointer. *)
Record Symbol : Type := mkSymbol { s_symbol : Z; s_string : option Z }.

Global Instance Symbol_inhabited : Inhabited Symbol := populate (mkSymbol 0 None).

(** The file's static data. [string_buf] and [symbols] are [None] until
    allocated. *)
Record cache : Type := Cache {
  string_buf : option (list ascii);
  string_buf_pos : Z;
  symbols : option (list Symbol);
  total_symbols : Z;
  hash_jumps : Z
}.

Definition cache_init : cache := Cache None 0 None 0 0.

(** What the allocator does during one call: [malloc_string_buf] is [None]
    when [malloc(STRING_BUF_SIZE)] fails and otherwise the (unspecified)
    initial contents of the block; [calloc_ok] tells whether
    [calloc(MAX_SYMBOLS, sizeof(Symbol))] succeeds. *)
Record heap : Type := Heap {
  malloc_string_buf : option (list ascii);
  calloc_ok : bool
}.

Definition heap_ok : heap := Heap (Some []) true.

(** The block [malloc] returns: exactly [STRING_BUF_SIZE] characters. *)
Definition malloc_block (garbage : list ascii) : list ascii :=
  take (Z.to_nat STRING_BUF_SIZE) (garbage ++ replicate (Z.to_nat STRING_BUF_SIZE) NUL).

Inductive warning : Type :=
  | Warn_ERR_NO_MEM            (* WARN_ERR(ERR_NO_MEM) in symbol_string_build *)
  | Warn_ERR_LIMIT_string_buf  (* WARN_ERR(ERR_LIMIT) in symbol_string_build *)
  | Warn_failed_to_allocate_symbols
  | Warn_ERR_LIMIT_symbols.    (* WARN_ERR_RETURN(ERR_LIMIT) in symbol_string_add_to_cache *)

(** How a call ends: it returns, it runs forever ([OutOfFuel] for every
    amount of fuel), or it faults (a store outside the string buffer, the
    read of a string that runs off its end, or the dereference of the null
    [symbols] table). *)
Inductive outcome (A : Type) : Type :=
  | Done (a : A)
  | Fault
  | OutOfFuel.
Arguments Done {A} a.
Arguments Fault {A}.
Arguments OutOfFuel {A}.

(** ** C strings in the buffer *)

(** The characters before the first NUL. *)
Fixpoint until_nul (l : list ascii) : string :=
  match l with
  | [] => EmptyString
  | c :: l' => if (c =? NUL)%char then EmptyString else String c (until_nul l')
  end.

(** A [char*] argument read as a C string. *)
Definition cstring (s : string) : string := until_nul (list_ascii_of_string s).

(** [buf[0]] is not the terminator. *)
Definition nonempty (s : string) : bool :=
  match cstring s with EmptyString => false | String _ _ => true end.

Definition is_some {A} (o : option A) : bool :=
  match o with Some _ => true | None => false end.

(** The C string at offset [p] of the buffer. *)
Definition c_str (buf : list ascii) (p : Z) : string :=
  until_nul (drop (Z.to_nat p) buf).

(** Store [data] at offset [p]; [None] when any of it falls outside. *)
Definition store (buf : list ascii) (p : Z) (data : list ascii) : option (list ascii) :=
  if (0 <=? p) && (p + Z.of_nat (length data) <=? Z.of_nat (length buf))
  then Some (take (Z.to_nat p) buf ++ data
             ++ drop (Z.to_nat p + length data) buf)
  else None.

(** A terminator follows offset [p] inside the buffer, so that reading the
    C string at [p] ([strlen], [debug_stl_simplify_name]) ends inside it. *)
Definition has_c_str (buf : list ascii) (p : Z) : bool :=
  (0 <=? p) && existsb (λ c, (c =? NUL)%char) (drop (Z.to_nat p) buf).

(** [snprintf(buf + p, n, ...)] of the rendered text [s]. C99: nothing is
    stored when [n = 0], otherwise the first [n-1] characters and a
    terminator; the result is the length of the whole text. Win32
    ([_snprintf]): a text shorter than [n] is stored with its terminator;
    otherwise its first [n] characters are stored without one, and the
    result is the length when the text fills the [n] characters exactly
    and [-1] when it is longer. *)
Definition snprintf (libc : printf_family) (buf : list ascii) (p n : Z) (s : string)
    : option (list ascii) * Z :=
  let len := Z.of_nat (String.length s) in
  match libc with
  | C99 =>
      (if n =? 0 then Some buf
       else store buf p (list_ascii_of_string (substring 0 (Z.to_nat (n - 1)) s) ++ [NUL]),
       len)
  | Win32 =>
      if len <? n then (store buf p (list_ascii_of_string s ++ [NUL]), len)
      else
        (if n =? 0 then Some buf
         else store buf p (list_ascii_of_string (substring 0 (Z.to_nat n) s)),
         if len =? n then len else -1)
  end.

(** [%05d]. *)
Definition pad0 (width : nat) (digits : string) : string :=
  string_of_list_ascii (replicate (width - String.length digits) "0"%char) +:+ digits.
Definition format_05d (z : Z) : string :=
  if z <? 0 then "-" +:+ pad0 4 (pretty (- z)) else pad0 5 (pretty z).

(** [hash]: strip off lower 2 bits. *)
Definition hash (symbol : Z) : nat :=
  Z.to_nat (Z.shiftr symbol 2 mod Z.of_nat MAX_SYMBOLS).

(** The loop of [symbol_string_from_cache], one iteration per unit of fuel. *)
Fixpoint probe_lookup (fuel : nat) (tbl : list Symbol) (idx : nat) (symbol : Z)
    : outcome (option Z) :=
  match fuel with
  | O => OutOfFuel
  | S fuel' =>
      let c := tbl !!! idx in
      if s_symbol c =? 0 then Done None                   (* not in table *)
      else if s_symbol c =? symbol then Done (s_string c) (* found *)
      else probe_lookup fuel' tbl ((idx + 1) mod MAX_SYMBOLS)%nat symbol
  end.

(** The loop of [symbol_string_add_to_cache]: the empty slot reached and the
    number of jumps made. *)
Fixpoint probe_empty (fuel : nat) (tbl : list Symbol) (idx : nat) (jumps : Z)
    : outcome (nat * Z) :=
  match fuel with
  | O => OutOfFuel
  | S fuel' =>
      let c := tbl !!! idx in
      if s_symbol c =? 0 then Done (idx, jumps)           (* found an empty slot *)
      else probe_empty fuel' tbl ((idx + 1) mod MAX_SYMBOLS)%nat (jumps + 1)
  end.

Section WithCollaborators.

(** The C library the file is built against. *)
Variable libc : printf_family.
(** [debug_resolve_symbol(symbol, name_buf, file_buf, &line_buf)]: what it
    leaves in the three output parameters. *)
Variable debug_resolve_symbol : Z → string * string * Z.
(** [path_name_only], [debug_stl_simplify_name] and the rendering of [%p]. *)
Variable path_name_only : string → string.
Variable debug_stl_simplify_name : string → string.
Variable format_pointer : Z → string.

(** [debug_stl_simplify_name] rewrites the name in place: the result is a
    C string no longer than the one it replaces. *)
Definition simplify_in_place (s : string) : string :=
  substring 0 (String.length s) (cstring (debug_stl_simplify_name s)).

(** The name, file and line the description is built from: the caller's,
    unless one of them is missing and the resolver knows better. *)
Definition resolve_fields (symbol : Z) (name file : option string) (line : Z)
    : option string * option string * Z :=
  (* if(!name || !file || !line) *)
  if negb (is_some name) || negb (is_some file) || (line =? 0) then
    let '(name_buf, file_buf, line_buf) := debug_resolve_symbol symbol in
    (* only override the original parameters if value is meaningful;
       otherwise, stick with what we got, even if 0. *)
    (if nonempty name_buf then Some name_buf else name,
     if nonempty file_buf then Some file_buf else file,
     if line_buf =? 0 then line else line_buf)
  else (name, file, line).

(** The text before the symbol name. *)
Definition format_location (symbol : Z) (file : option string) (line : Z) : string :=
  match file, (line =? 0)%Z with
  | Some f, false =>
      (* file and line are available: write them *)
      cstring (path_name_only f) +:+ ":" +:+ format_05d line +:+ " "
  | _, _ =>
      (* only address is known *)
      cstring (format_pointer symbol) +:+ " "
  end.

(** [if(!string_buf) { string_buf = malloc(STRING_BUF_SIZE); ... }]: the
    buffer and the write position to go on with; [None] when [malloc]
    fails. *)
Definition ensure_string_buf (c : cache) (h : heap) : option (list ascii * Z) :=
  match string_buf c with
  | Some buf => Some (buf, string_buf_pos c)
  | None =>
      match malloc_string_buf h with
      | Some garbage => Some (malloc_block garbage, 0)
      | None => None
      end
  end.

(** The formatting part of [symbol_string_build]: the two [snprintf] calls
    and [debug_stl_simplify_name] at work on the buffer, [None] when one of
    them stores outside of it, or when [debug_stl_simplify_name] is given
    a string that no terminator ends inside the buffer. *)
Definition write_symbol_string (buf : list ascii) (string : Z) (symbol : Z)
    (name file : option String.string) (line : Z) : option (list ascii) :=
  match snprintf libc buf string (STRING_MAX - 1) (format_location symbol file line) with
  | (None, _) => None
  | (Some buf1, len) =>
      match name with
      | None => Some buf1
      | Some name =>
          (* append symbol name *)
          match snprintf libc buf1 (string + len) (wrap_size (STRING_MAX - 1 - len))
                         (cstring name) with
          | (None, _) => None
          | (Some buf2, _) =>
              if has_c_str buf2 (string + len) then
                store buf2 (string + len)
                      (list_ascii_of_string (simplify_in_place (c_str buf2 (string + len)))
                       ++ [NUL])
              else None
          end
      end
  end.

(** [symbol_string_build]: the pointer returned (null on failure), the
    new static data and the warnings raised. *)
Definition symbol_string_build (c : cache) (h : heap) (symbol : Z)
    (name file : option string) (line : Z)
    : outcome (option Z * cache * list warning) :=
  match ensure_string_buf c h with
  | None => Done (None, c, [Warn_ERR_NO_MEM])
  | Some (buf, pos) =>
      (* make sure there's enough space for a new string *)
      let string := pos in
      if STRING_BUF_SIZE <=? string + STRING_MAX
      then Done (None,
                 Cache (Some buf) pos (symbols c) (total_symbols c) (hash_jumps c),
                 [Warn_ERR_LIMIT_string_buf])
      else
        (* user didn't know name/file/line. attempt to resolve from debug info. *)
        let '(name, file, line) := resolve_fields symbol name file line in
        match write_symbol_string buf string symbol name file line with
        | None => Fault
        | Some buf' =>
            Done (Some string,
                  Cache (Some buf') pos (symbols c) (total_symbols c) (hash_jumps c),
                  [])
        end
  end.

Definition symbol_string_from_cache (fuel : nat) (c : cache) (symbol : Z)
    : outcome (option Z) :=
  match symbols c with
  | None => Done None        (* hash table not initialized yet, nothing to find *)
  | Some tbl => probe_lookup fuel tbl (hash symbol) symbol
  end.

(** [strlen(string)] for a pointer into the string buffer, and whether it
    ends inside the buffer. *)
Definition strlen (c : cache) (string : Z) : Z :=
  match string_buf c with
  | Some buf => Z.of_nat (String.length (c_str buf string))
  | None => 0
  end.

Definition terminated (c : cache) (string : Z) : bool :=
  match string_buf c with
  | Some buf => has_c_str buf string
  | None => false
  end.

Definition symbol_string_add_to_cache (fuel : nat) (c : cache) (h : heap)
    (string : Z) (symbol : Z) : outcome (cache * list warning) :=
  (* if(!symbols) *)
  let '(tbl, w) :=
    match symbols c with
    | Some tbl => (Some tbl, [])
    | None =>
        if calloc_ok h then (Some (replicate MAX_SYMBOLS (mkSymbol 0 None)), [])
        else (None, [Warn_failed_to_allocate_symbols])
    end in
  let c1 := Cache (string_buf c) (string_buf_pos c) tbl (total_symbols c) (hash_jumps c) in
  (* hash table is completely full (guard against infinite loop below). *)
  if Z.of_nat MAX_SYMBOLS <=? total_symbols c then Done (c1, w ++ [Warn_ERR_LIMIT_symbols])
  else
    match tbl with
    | None => Fault
    | Some tbl =>
        (* find Symbol slot in hash table *)
        match probe_empty fuel tbl (hash symbol) (hash_jumps c) with
        | OutOfFuel => OutOfFuel
        | Fault => Fault
        | Done (idx, jumps) =>
            (* commit Symbol information *)
            if terminated c string then
              Done (Cache (string_buf c)
                          (string_buf_pos c + (strlen c string + 1))
                          (Some (<[idx := mkSymbol symbol (Some string)]> tbl))
                          (wrap_uint (total_symbols c + 1))
                          (wrap_uint jumps),
                    w)
            else Fault
        end
    end.

Definition debug_get_symbol_string (fuel : nat) (c : cache) (h : heap) (symbol : Z)
    (name file : option string) (line : Z)
    : outcome (option Z * cache * list warning) :=
  (* return it if already in cache *)
  match symbol_string_from_cache fuel c symbol with
  | OutOfFuel => OutOfFuel
  | Fault => Fault
  | Done (Some string) => Done (Some string, c, [])
  | Done None =>
      (* try to build a new string *)
      match symbol_string_build c h symbol name file line with
      | OutOfFuel => OutOfFuel
      | Fault => Fault
      | Done (None, c1, w) => Done (None, c1, w)
      | Done (Some string, c1, w) =>
          match symbol_string_add_to_cache fuel c1 h string symbol with
          | OutOfFuel => OutOfFuel
          | Fault => Fault
          | Done (c2, w') => Done (Some string, c2, w ++ w')
          end
      end
  end.

(** The text [symbol_string_build] leaves at [string] when the location
    part fits: the location, then as much of the simplified name as the
    [STRING_MAX - 2] characters allow. (C99's [snprintf] does the cutting;
    with the Win32 [_snprintf] this is the text for a name that fits, of
    which nothing is cut.) *)
Definition name_text (len : nat) (name : option string) : string :=
  match name with
  | None => EmptyString
  | Some nm => simplify_in_place (substring 0 (Z.to_nat (STRING_MAX - 2) - len) (cstring nm))
  end.

Definition render (symbol : Z) (name file : option string) (line : Z) : string :=
  let loc := format_location symbol file line in
  cstring (loc +:+ name_text (String.length loc) name).

(** The description a returned pointer designates. *)
Definition description (c : cache) (p : Z) : string :=
  match string_buf c with
  | Some buf => c_str buf p
  | None => EmptyString
  end.

(** One call of [debug_get_symbol_string], with what the allocator does
    during it. *)
Record request : Type := Request {
  rq_heap : heap;
  rq_symbol : Z;
  rq_name : option string;
  rq_file : option string;
  rq_line : Z
}.

(** A run of calls; the static data after the last one. *)
Fixpoint resolve_all (fuel : nat) (c : cache) (rqs : list request) : outcome cache :=
  match rqs with
  | [] => Done c
  | rq :: rqs' =>
      match debug_get_symbol_string fuel c (rq_heap rq) (rq_symbol rq) (rq_name rq)
                                    (rq_file rq) (rq_line rq) with
      | Done (_, c', _) => resolve_all fuel c' rqs'
      | Fault => Fault
      | OutOfFuel => OutOfFuel
      end
  end.

End WithCollaborators.

(** The parts of a result. *)
Definition returned (o : outcome (option Z * cache * list warning)) : outcome (option Z) :=
  match o with
  | Done (p, _, _) => Done p
  | Fault => Fault
  | OutOfFuel => OutOfFuel
  end.

Definition cache_after (c : cache) (o : outcome (option Z * cache * list warning)) : cache :=
  match o with Done (_, c', _) => c' | _ => c end.

Definition warned (o : outcome (option Z * cache * list warning)) : list warning :=
  match o with Done (_, _, w) => w | _ => [] end.

(** The description behind the pointer a call returned. *)
Definition described (o : outcome (option Z * cache * list warning)) : option string :=
  match o with
  | Done (Some p, c, _) => Some (description c p)
  | _ => None
  end.

(** ** Stand-ins for the collaborators, for running the cache *)

(** [%p] as eight hexadecimal digits. *)
Definition hex_digit (d : Z) : ascii :=
  match d with
  | 0 => "0" | 1 => "1" | 2 => "2" | 3 => "3" | 4 => "4" | 5 => "5" | 6 => "6"
  | 7 => "7" | 8 => "8" | 9 => "9" | 10 => "A" | 11 => "B" | 12 => "C"
  | 13 => "D" | 14 => "E" | _ => "F"
  end%char.
Definition hex8 (z : Z) : string :=
  string_of_list_ascii
    (map (λ i, hex_digit (Z.shiftr z (4 * Z.of_nat i) mod 16)) [7; 6; 5; 4; 3; 2; 1; 0]%nat).

(** The part of a path after its last slash. *)
Fixpoint after_last_slash (s acc : string) : string :=
  match s with
  | EmptyString => acc
  | String c rest =>
      if (c =? "/")%char then after_last_slash rest rest else after_last_slash rest acc
  end.
Definition base_name (s : string) : string := after_last_slash s s.

(** Debug information that knows one function, at address 4198416
    (0x00401010), by name only. *)
Definition one_symbol_info (symbol : Z) : string * string * Z :=
  if symbol =? 4198416 then ("CGame::Update", "", 0) else ("", "", 0).

(** Debug information that knows nothing. *)
Definition no_info (symbol : Z) : string * string * Z := ("", "", 0).

End SymbolCache.

(* ===================================================================== *)
(** * ErrorReporter: debug.cpp lines 456-638                               *)
(* ===================================================================== *)

Module ErrorReporter.

(** [enum ErrorReaction] of debug.h, as far as debug.cpp names its values. *)
Inductive ErrorReaction : Type :=
  | ER_CONTINUE
  | ER_BREAK
  | ER_SUPPRESS
  | ER_EXIT
  | ER_NOT_IMPLEMENTED.

Global Instance ErrorReaction_eq_dec : EqDecision ErrorReaction.
Proof. solve_decision. Defined.

(** Process-wide reporting state.  [suppress_cells] is the memory holding
    the call sites' [u8 suppress] cells; a [u8*] argument is [None] (null)
    or [Some l], the address of cell [l]. Cells start out 0. *)
Record state : Type := State {
  exit_requested : bool;          (* static bool exit_requested *)
  already_in_progress : Z;        (* static uintptr_t already_in_progress *)
  suppress_cells : gmap nat Z
}.

Definition state_init : state := State false 0 ∅.

Definition read_cell (st : state) (l : nat) : Z := default 0 (suppress_cells st !! l).

(** Calls into other translation units and the C library that have an
    effect outside this file, in program order. *)
Inductive event : Type :=
  | EvDebugWprintf (text : string)               (* debug_wprintf(L"%hs(%d): %ls\n", ...) entered *)
  | EvDumpStackBegin (skip : Z) (context : Z)    (* debug_dump_stack entered *)
  | EvDumpStackEnd                               (* debug_dump_stack returned *)
  | EvCrashlogBegin                              (* debug_write_crashlog entered *)
  | EvCrashlogWritten (text : string)            (* crashlog.txt written and closed *)
  | EvAhDisplayError (text : string) (flags : Z) (* ah_display_error *)
  | EvSysDisplayError (text : string) (flags : Z)(* sys_display_error *)
  | EvDebugBreak                                 (* debug_break *)
  | EvHeapEnableNone                             (* debug_heap_enable(DEBUG_HEAP_NONE) *)
  | EvExitFailure.                               (* exit(EXIT_FAILURE) *)

Global Instance event_eq_dec : EqDecision event.
Proof. solve_decision. Defined.

(** The arguments of [debug_display_error]. Pointers ([context], [file],
    [func], [suppress]) are null ([0] / [None]) or not. *)
Record args : Type := Args {
  description : string;
  flags : Z;
  skip : Z;
  context : Z;
  file : option string;
  line : Z;
  func : option string;
  suppress : option nat
}.

(** One activation of [debug_display_error] together with what its
    environment does while it runs: which errors are reported from inside
    [debug_wprintf] (its [debug_warn] on an invalid wide character, its
    [debug_assert]), whether [malloc] succeeds, what [debug_dump_stack]
    writes and which errors are reported from inside it (a
    [debug_assert]/[debug_warn]/[CHECK_ERR] firing during the trace),
    whether the crash log can be opened and which errors are reported from
    inside [debug_write_crashlog] (its [WARN_RETURN], [ah_bundle_logs]),
    and the answers of the two display hooks. *)
#[local] Set Warnings "-register-all".
Inductive call : Type :=
  Call (a : args)
       (wprintf_raises : list call)
       (heap_ok : bool)
       (dump_text : string)
       (dump_raises : list call)
       (fopen_ok : bool)
       (crashlog_raises : list call)
       (ah_answer sys_answer : ErrorReaction).

Definition call_args (c : call) : args :=
  match c with Call a _ _ _ _ _ _ _ _ => a end.

(** The components of [call] besides the arguments: what the environment
    does during one activation. *)
Record surroundings : Type := Surroundings {
  sr_wprintf_raises : list call;
  sr_heap_ok : bool;
  sr_dump_text : string;
  sr_dump_raises : list call;
  sr_fopen_ok : bool;
  sr_crashlog_raises : list call;
  sr_ah_answer : ErrorReaction;
  sr_sys_answer : ErrorReaction
}.

Definition activation (a : args) (e : surroundings) : call :=
  Call a (sr_wprintf_raises e) (sr_heap_ok e) (sr_dump_text e) (sr_dump_raises e)
       (sr_fopen_ok e) (sr_crashlog_raises e) (sr_ah_answer e) (sr_sys_answer e).

(** The reaction the display hooks settle on: the app hook's, unless it
    is only a stub. *)
Definition settled (ah_answer sys_answer : ErrorReaction) : ErrorReaction :=
  if decide (ah_answer = ER_NOT_IMPLEMENTED) then sys_answer else ah_answer.

Definition answer (c : call) : ErrorReaction :=
  match c with
  | Call _ _ _ _ _ _ _ ah_answer sys_answer => settled ah_answer sys_answer
  end.

(** How an activation ends: it returns, the process exits inside it, or it
    stores through a null [suppress] pointer. *)
Inductive outcome (A : Type) : Type :=
  | Returned (a : A)
  | ProcessExit
  | NullStore.
Arguments Returned {A} a.
Arguments ProcessExit {A}.
Arguments NullStore {A}.

(** State and event-trace passing, stopping at the first [ProcessExit]. *)
Definition M (A : Type) : Type := state → outcome A * state * list event.

Definition ret {A} (a : A) : M A := λ st, (Returned a, st, []).

Definition bind {A B} (m : M A) (k : A → M B) : M B := λ st,
  match m st with
  | (Returned a, st1, t1) =>
      let '(o, st2, t2) := k a st1 in (o, st2, t1 ++ t2)
  | (ProcessExit, st1, t1) => (ProcessExit, st1, t1)
  | (NullStore, st1, t1) => (NullStore, st1, t1)
  end.

Notation "x <<- m ;; k" := (bind m (λ x, k))
  (at level 100, m at next level, right associativity).
Notation "m >>> k" := (bind m (λ _, k))
  (at level 100, right associativity).

Definition emit (e : event) : M unit := λ st, (Returned tt, st, [e]).
Definition get : M state := λ st, (Returned st, st, []).
Definition put (st : state) : M unit := λ _, (Returned tt, st, []).
Definition stop {A} (o : outcome A) : M A := λ st, (o, st, []).

(** Run the activations of [l] one after the other. *)
Fixpoint run_all {C} (f : C → M ErrorReaction) (l : list C) : M unit :=
  match l with
  | [] => ret tt
  | c :: l' => (f c >>> run_all f l')
  end.

Definition KiB : Z := 1024.

(** Carriage return, line feed. *)
Definition CRLF : string := String "013" (String "010" EmptyString).
Definition LF : string := String "010" EmptyString.

(** The double quote. *)
Definition DQUOTE : string := String "034" EmptyString.

Definition nested_notice : string :=
  "(cannot start a nested stack trace; what probably happened is that "
  +:+ "an debug_assert/debug_warn/CHECK_ERR fired during the current trace.)".

Section WithHooks.

(** Constants of debug.h. *)
Variable DEBUG_SUPPRESS : Z.
Variable DE_ALLOW_SUPPRESS : Z.
Variable DE_MANUAL_BREAK : Z.
(** [ah_translate] (app_hooks) and [path_name_only] (path_util). *)
Variable ah_translate : string → string.
Variable path_name_only : string → string.

Definition should_suppress_error (st : state) (suppress : option nat) : bool :=
  match suppress with
  | None => false                                   (* if(!suppress) return false; *)
  | Some l =>
      if read_cell st l =? DEBUG_SUPPRESS then true (* if( *suppress == DEBUG_SUPPRESS) *)
      else if exit_requested st then true           (* if(exit_requested) *)
      else false
  end.

(** What fits a destination of [n] characters: [n-1] and the terminator. *)
Definition truncate (n : Z) (s : string) : string :=
  substring 0 (Z.to_nat (n - 1)) s.

(** The header written by [swprintf(buf, max_chars, fmt, ...)]; [None]
    is [len < 0]: the text and its terminator do not fit [max_chars]. *)
Definition format_header (max_chars : Z) (description fn_only : string) (line : Z)
    (func : string) : option string :=
  let s := description +:+ CRLF
           +:+ "Location: " +:+ fn_only +:+ ":" +:+ pretty line
           +:+ " (" +:+ func +:+ ")" +:+ CRLF
           +:+ CRLF
           +:+ "Call stack:" +:+ CRLF
           +:+ CRLF in
  if Z.of_nat (String.length s) <? max_chars then Some s else None.

(** [wcscpy_s(pos, chars_left, src)]: copies when [src] and its
    terminator fit, and otherwise leaves an empty string. *)
Definition wcscpy_s (chars_left : Z) (src : string) : string :=
  if Z.of_nat (String.length src) <? chars_left then src else "".

(** [const bool is_nested = !CAS(&already_in_progress, 0, 1);] *)
Definition cas_already_in_progress : M bool := λ st,
  if already_in_progress st =? 0
  then (Returned false,
        State (exit_requested st) 1 (suppress_cells st), [])
  else (Returned true, st, []).

Definition clear_already_in_progress : M unit := λ st,
  (Returned tt, State (exit_requested st) 0 (suppress_cells st), []).

Definition set_exit_requested : M unit := λ st,
  (Returned tt, State true (already_in_progress st) (suppress_cells st), []).

Definition store_cell (l : nat) (v : Z) : M unit := λ st,
  (Returned tt,
   State (exit_requested st) (already_in_progress st) (<[l := v]> (suppress_cells st)),
   []).

(** [report] is [debug_display_error] itself: the errors raised inside
    [debug_dump_stack] re-enter it. *)
Definition build_error_message (report : call → M ErrorReaction)
    (buf_ok : bool) (max_chars : Z)
    (description fn_only : string) (line : Z) (func : string)
    (skip context : Z) (is_nested_error : bool)
    (dump_text : string) (dump_raises : list call) : M string :=
  if negb buf_ok then ret "(insufficient memory to generate error message)"
  else
    match format_header max_chars description fn_only line func with
    | None => ret "(error while formatting error message)"
    | Some header =>
        (* add stack trace to end of message *)
        let chars_left := max_chars - Z.of_nat (String.length header) in
        if negb is_nested_error then
          let skip := if context =? 0 then wrap_uint (skip + 1) else skip in
          (emit (EvDumpStackBegin skip context) >>>
           run_all report dump_raises >>>
           emit EvDumpStackEnd >>>
           ret (header +:+ truncate chars_left dump_text))
        else
          (* .. except when a stack trace is currently already in progress *)
          ret (header +:+ wcscpy_s chars_left nested_notice)
    end.

(** [debug_write_crashlog]; its [LibError] result is not used by the
    caller. *)
Definition debug_write_crashlog (report : call → M ErrorReaction)
    (text : string) (fopen_ok : bool) (crashlog_raises : list call) : M unit :=
  (emit EvCrashlogBegin >>>
   run_all report crashlog_raises >>>
   if fopen_ok then emit (EvCrashlogWritten text) else ret tt).

Definition call_display_error (text : string) (flags : Z)
    (ah_answer sys_answer : ErrorReaction) : M ErrorReaction :=
  (* first try app hook implementation *)
  (emit (EvAhDisplayError text flags) >>>
   (* .. it's only a stub: default to normal implementation *)
   if decide (ah_answer = ER_NOT_IMPLEMENTED)
   then (emit (EvSysDisplayError text flags) >>> ret sys_answer)
   else ret ah_answer).

Definition carry_out_ErrorReaction (er : ErrorReaction) (flags : Z)
    (suppress : option nat) : M ErrorReaction :=
  let manual_break := negb (Z.land flags DE_MANUAL_BREAK =? 0) in
  match er with
  | ER_BREAK =>
      if negb manual_break then (emit EvDebugBreak >>> ret ER_CONTINUE)
      else ret ER_BREAK
  | ER_SUPPRESS =>
      match suppress with
      | Some l => (store_cell l DEBUG_SUPPRESS >>> ret ER_CONTINUE)
      | None => stop NullStore
      end
  | ER_EXIT =>
      (set_exit_requested >>>
       emit EvHeapEnableNone >>>
       emit EvExitFailure >>>
       stop ProcessExit)
  | _ => ret er
  end.

Fixpoint debug_display_error (c : call) : M ErrorReaction :=
  match c with
  | Call a wprintf_raises heap_ok dump_text dump_raises fopen_ok crashlog_raises
         ah_answer sys_answer =>
      st <<- get ;;
      (* "suppressing" this error means doing nothing and returning ER_CONTINUE. *)
      if should_suppress_error st (suppress a) then ret ER_CONTINUE
      else
        (* fix up params *)
        let description := ah_translate (description a) in
        let flags := match suppress a with
                     | Some _ => Z.lor (flags a) DE_ALLOW_SUPPRESS
                     | None => flags a
                     end in
        let file := match file a with
                    | None | Some EmptyString => "unknown"
                    | Some f => f
                    end in
        let line := if line a <=? 0 then 0 else line a in
        let func := match func a with
                    | None | Some EmptyString => "?"
                    | Some f => f
                    end in
        let fn_only := path_name_only file in
        (* display in output window *)
        (emit (EvDebugWprintf
                 (fn_only +:+ "(" +:+ pretty line +:+ "): " +:+ description +:+ LF)) >>>
         (* .. which reports its own errors through debug_display_error *)
         run_all debug_display_error wprintf_raises >>>
         (* heap buffer of 256 KiB, else 128 KiB from the stack *)
         let max_chars := if heap_ok then 256 * KiB else 128 * KiB in
         is_nested <<- cas_already_in_progress ;;
         text <<- build_error_message debug_display_error true max_chars description
                    fn_only line func (skip a) (context a) is_nested
                    dump_text dump_raises ;;
         (if negb is_nested        (* avoids potential infinite loop *)
          then debug_write_crashlog debug_display_error text fopen_ok crashlog_raises
          else ret tt) >>>
         er <<- call_display_error text flags ah_answer sys_answer ;;
         clear_already_in_progress >>>
         carry_out_ErrorReaction er flags (suppress a))
  end.

(** ** The entry points behind [debug_assert] and [WARN_ERR] *)

(** What the C library leaves in a buffer of [n] characters when the text
    does not fit it, and [error_description_r] (lib_errors), the text it
    leaves in [err_buf]. *)
Variable swprintf_overflow : Z → string → string.
Variable error_description_r : Z → string.

(** [swprintf(buf, n, ...)] with the result not looked at. *)
Definition swprintf_unchecked (n : Z) (s : string) : string :=
  if Z.of_nat (String.length s) <? n then s else swprintf_overflow n s.

Definition debug_assert_failed (expr : string) (suppress : option nat)
    (file : option string) (line : Z) (func : option string)
    (e : surroundings) : M ErrorReaction :=
  let skip := 1 in
  let context := 0 in
  let buf := swprintf_unchecked 400
               ("Assertion failed: " +:+ DQUOTE +:+ expr +:+ DQUOTE) in
  debug_display_error
    (activation (Args buf DE_MANUAL_BREAK skip context file line func suppress) e).

Definition debug_warn_err (err : Z) (suppress : option nat)
    (file : option string) (line : Z) (func : option string)
    (e : surroundings) : M ErrorReaction :=
  let skip := 1 in
  let context := 0 in
  let err_buf := error_description_r err in
  let buf := swprintf_unchecked 400
               ("Function call failed: return value was " +:+ pretty err
                +:+ " (" +:+ err_buf +:+ ")") in
  debug_display_error
    (activation (Args buf DE_MANUAL_BREAK skip context file line func suppress) e).

End WithHooks.

(** Depth of [debug_dump_stack] activations reached along a trace: [cur]
    is the number of activations open at its start. *)
Fixpoint max_dump_depth (cur : nat) (t : list event) : nat :=
  match t with
  | [] => cur
  | EvDumpStackBegin _ _ :: t' => max_dump_depth (S cur) t'
  | EvDumpStackEnd :: t' => Nat.max cur (max_dump_depth (Nat.pred cur) t')
  | _ :: t' => max_dump_depth cur t'
  end.

(** Number of full stack traces started along a trace. *)
Definition is_dump_begin (e : event) : bool :=
  match e with EvDumpStackBegin _ _ => true | _ => false end.
Definition full_traces (t : list event) : nat :=
  List.length (List.filter is_dump_begin t).

(** An event without its payload. *)
Inductive event_kind : Type :=
  | KDebugWprintf | KDumpStackBegin | KDumpStackEnd | KCrashlogBegin
  | KCrashlogWritten | KAhDisplayError | KSysDisplayError | KDebugBreak
  | KHeapEnableNone | KExitFailure.

Definition kind (e : event) : event_kind :=
  match e with
  | EvDebugWprintf _ => KDebugWprintf
  | EvDumpStackBegin _ _ => KDumpStackBegin
  | EvDumpStackEnd => KDumpStackEnd
  | EvCrashlogBegin => KCrashlogBegin
  | EvCrashlogWritten _ => KCrashlogWritten
  | EvAhDisplayError _ _ => KAhDisplayError
  | EvSysDisplayError _ _ => KSysDisplayError
  | EvDebugBreak => KDebugBreak
  | EvHeapEnableNone => KHeapEnableNone
  | EvExitFailure => KExitFailure
  end.

(** Values of debug.h's constants, for running the reporter. *)
Definition DEBUG_SUPPRESS_value : Z := 171.       (* 0xAB *)
Definition DE_ALLOW_SUPPRESS_value : Z := 1.
Definition DE_MANUAL_BREAK_value : Z := 4.

End ErrorReporter.

(* ===================================================================== *)
(** * Properties of the tag filter                                         *)
(* ===================================================================== *)

Module TagFilterFacts.
Import TagFilter.

(** Decide the comparisons [x =? y] of the goal from the context. *)
Ltac eqb_cases :=
  repeat match goal with
         | |- context [ (?x =? ?y)%Z ] =>
             destruct (Z.eqb_spec x y); try lia; try congruence
         end.

Ltac step_cases :=
  repeat (progress (cbn -[Z.eqb]; change (Z.of_nat MAX_TAGS) with 20; eqb_cases)).

Lemma scan_tags_None (t : list Z) (hash : Z) (n i : nat) :
  (∀ j, (i ≤ j < i + n)%nat → t !!! j ≠ hash) →
  scan_tags t hash i n = None.
Proof.
  revert i. induction n as [|n IH]; intros i Hall; simpl; [done|].
  destruct (Z.eqb_spec (t !!! i) hash) as [Heq|_].
  - exfalso. apply (Hall i); [lia | done].
  - apply IH. intros j Hj. apply Hall. lia.
Qed.

Lemma scan_tags_Some (t : list Z) (hash : Z) (n i k : nat) :
  scan_tags t hash i n = Some k →
  (i ≤ k < i + n)%nat ∧ t !!! k = hash.
Proof.
  revert i. induction n as [|n IH]; intros i; simpl; [done|].
  destruct (Z.eqb_spec (t !!! i) hash) as [Heq|_].
  - intros [= <-]. split; [lia | done].
  - intros H. apply IH in H. split; [lia | tauto].
Qed.

(** Reading a slot of the array after the clearing loop has run over the
    indices [a .. a+n-1]. *)
Lemma clear_loop_below (n : nat) : ∀ (t : list Z) (a j : nat),
  (j < a)%nat →
  foldl (λ t i, <[i := 0]> t) t (seq a n) !!! j = t !!! j.
Proof.
  induction n as [|n IH]; intros t a j Hj; simpl; [done|].
  rewrite IH by lia.
  apply list_lookup_total_insert_ne. lia.
Qed.

Lemma clear_loop_length (n : nat) : ∀ (t : list Z) (a : nat),
  length (foldl (λ t i, <[i := 0]> t) t (seq a n)) = length t.
Proof.
  induction n as [|n IH]; intros t a; simpl; [done|].
  rewrite IH. apply length_insert.
Qed.

Lemma clear_loop_zero (n : nat) : ∀ (t : list Z) (a j : nat),
  (a ≤ j < a + n)%nat → (j < length t)%nat →
  foldl (λ t i, <[i := 0]> t) t (seq a n) !!! j = 0.
Proof.
  induction n as [|n IH]; intros t a j Hj Hlen; simpl; [lia|].
  destruct (decide (j = a)) as [->|Hne].
  - rewrite clear_loop_below by lia.
    by apply list_lookup_total_insert_eq.
  - apply IH; [lia|]. by rewrite length_insert.
Qed.

(** [debug_filter_clear] leaves an array of zeroes. *)
Lemma clear_tags (f : filter) :
  length (tags f) = MAX_TAGS →
  tags (debug_filter_clear f) = replicate MAX_TAGS 0.
Proof.
  intros Hlen. unfold debug_filter_clear; cbn [tags].
  apply list_eq_same_length with MAX_TAGS.
  - by rewrite length_replicate.
  - by rewrite clear_loop_length.
  - intros i x y Hi Hx Hy.
    apply lookup_replicate in Hy as [-> _].
    apply list_lookup_total_correct in Hx. rewrite <- Hx.
    apply clear_loop_zero; lia.
Qed.

Lemma scan_tags_zeroes (hash : Z) (n i : nat) :
  hash ≠ 0 → (i + n ≤ MAX_TAGS)%nat →
  scan_tags (replicate MAX_TAGS 0) hash i n = None.
Proof.
  intros Hnz Hle. apply scan_tags_None. intros j Hj.
  rewrite list_lookup_total_alt, lookup_replicate_2 by lia. simpl. congruence.
Qed.

(** After [debug_filter_clear] no non-zero hash is enabled. *)
Lemma clear_disables (f : filter) (hash : Z) :
  length (tags f) = MAX_TAGS →
  hash ≠ 0 → enabled (debug_filter_clear f) hash = false.
Proof.
  intros Hlen Hnz. unfold enabled.
  rewrite clear_tags, scan_tags_zeroes; done.
Qed.

(** C10. [debug_filter_clear] zeroes every slot and leaves [num_tags] as it
    was; so once [num_tags] has reached [MAX_TAGS], every later
    [debug_filter_add] of a topic with a non-zero hash ends in the
    "increase MAX_TAGS" warning and leaves the cleared filter as it is. *)
Theorem clear_does_not_reclaim_capacity (fnv_hash : string → Z) (f : filter)
    (new_topics : list string) :
  length (tags f) = MAX_TAGS →
  num_tags f = Z.of_nat MAX_TAGS →
  Forall (λ tag, fnv_hash tag ≠ 0) new_topics →
  tags (debug_filter_clear f) = replicate MAX_TAGS 0
  ∧ num_tags (debug_filter_clear f) = num_tags f
  ∧ add_all fnv_hash (debug_filter_clear f) new_topics
    = (debug_filter_clear f, replicate (length new_topics) AddWarnIncreaseMaxTags).
Proof.
  intros Hlen Hfull Hnz. split; [|split].
  - by apply clear_tags.
  - done.
  - remember (debug_filter_clear f) as g eqn:Hg.
    assert (∀ tag, fnv_hash tag ≠ 0 →
              debug_filter_add fnv_hash g tag = (g, AddWarnIncreaseMaxTags)) as Hadd.
    { intros tag Htag. unfold debug_filter_add.
      rewrite Hg, clear_tags, scan_tags_zeroes by done.
      change (num_tags (debug_filter_clear f)) with (num_tags f).
      rewrite Hfull. by rewrite Z.eqb_refl. }
    clear Hg. induction Hnz as [|tag l Htag _ IH]; [done|].
    cbn [add_all length replicate]. rewrite (Hadd tag Htag), IH. done.
Qed.

(** The filter after twenty distinct topics have been added. *)
Definition twenty_topics : list string :=
  ["t01"; "t02"; "t03"; "t04"; "t05"; "t06"; "t07"; "t08"; "t09"; "t10";
   "t11"; "t12"; "t13"; "t14"; "t15"; "t16"; "t17"; "t18"; "t19"; "t20"].
Definition full_filter : filter := (add_all fnv1a filter_init twenty_topics).1.

Lemma clear_does_not_reclaim_capacity_witness :
  tags (debug_filter_clear full_filter) = replicate MAX_TAGS 0
  ∧ num_tags (debug_filter_clear full_filter) = num_tags full_filter
  ∧ add_all fnv1a (debug_filter_clear full_filter) ["render"; "audio"]
    = (debug_filter_clear full_filter, replicate 2 AddWarnIncreaseMaxTags).
Proof.
  apply (clear_does_not_reclaim_capacity fnv1a full_filter ["render"; "audio"]).
  - vm_compute. reflexivity.
  - vm_compute. reflexivity.
  - repeat constructor; vm_compute; discriminate.
Defined.

(** C3, at the input where the code departs from it. Three topics [a], [b],
    [c] are added to the empty filter and [a] is removed: the vacated slot 0
    receives [tags[MAX_TAGS-1]], which is 0, not the last occupied slot's
    value, and [num_tags] drops to 2 although [c] still sits in slot 2. The
    next [debug_filter_add] stores the new topic [d] into slot 2, over [c],
    which is thereby disabled without ever having been removed. *)
Theorem remove_then_add_overwrites (fnv_hash : string → Z) (a b c d : string) :
  fnv_hash a ≠ 0 → fnv_hash b ≠ 0 → fnv_hash c ≠ 0 → fnv_hash d ≠ 0 →
  fnv_hash a ≠ fnv_hash b → fnv_hash a ≠ fnv_hash c → fnv_hash a ≠ fnv_hash d →
  fnv_hash b ≠ fnv_hash c → fnv_hash b ≠ fnv_hash d → fnv_hash c ≠ fnv_hash d →
  let f3 := (add_all fnv_hash filter_init [a; b; c]).1 in
  let f4 := debug_filter_remove fnv_hash f3 a in
  let f5 := (debug_filter_add fnv_hash f4 d).1 in
  take 3 (tags f3) = [fnv_hash a; fnv_hash b; fnv_hash c]
  ∧ num_tags f3 = 3
  ∧ take 3 (tags f4) = [0; fnv_hash b; fnv_hash c]
  ∧ num_tags f4 = 2
  ∧ enabled f4 (fnv_hash c) = true
  ∧ (debug_filter_add fnv_hash f4 d).2 = AddStored
  ∧ take 3 (tags f5) = [0; fnv_hash b; fnv_hash d]
  ∧ enabled f5 (fnv_hash c) = false.
Proof.
  intros Ha Hb Hc Hd Hab Hac Had Hbc Hbd Hcd.
  remember (fnv_hash a) as ha eqn:Eha. remember (fnv_hash b) as hb eqn:Ehb.
  remember (fnv_hash c) as hc eqn:Ehc. remember (fnv_hash d) as hd eqn:Ehd.
  assert (debug_filter_add fnv_hash filter_init a
          = (Filter (ha :: replicate 19 0) 1, AddStored)) as H1.
  { unfold debug_filter_add. rewrite <- Eha. step_cases. reflexivity. }
  assert (debug_filter_add fnv_hash (Filter (ha :: replicate 19 0) 1) b
          = (Filter (ha :: hb :: replicate 18 0) 2, AddStored)) as H2.
  { unfold debug_filter_add. rewrite <- Ehb. step_cases. reflexivity. }
  assert (debug_filter_add fnv_hash (Filter (ha :: hb :: replicate 18 0) 2) c
          = (Filter (ha :: hb :: hc :: replicate 17 0) 3, AddStored)) as H3.
  { unfold debug_filter_add. rewrite <- Ehc. step_cases. reflexivity. }
  assert (debug_filter_remove fnv_hash (Filter (ha :: hb :: hc :: replicate 17 0) 3) a
          = Filter (0 :: hb :: hc :: replicate 17 0) 2) as H4.
  { unfold debug_filter_remove. rewrite <- Eha. step_cases. reflexivity. }
  assert (debug_filter_add fnv_hash (Filter (0 :: hb :: hc :: replicate 17 0) 2) d
          = (Filter (0 :: hb :: hd :: replicate 17 0) 3, AddStored)) as H5.
  { unfold debug_filter_add. rewrite <- Ehd. step_cases. reflexivity. }
  cbn [add_all]. rewrite H1, H2, H3. cbn [fst snd]. rewrite H4, H5. cbn [fst snd].
  repeat split; try reflexivity; unfold enabled; step_cases; reflexivity.
Qed.

Lemma remove_then_add_overwrites_witness :
  let f3 := (add_all fnv1a filter_init ["render"; "audio"; "net"]).1 in
  let f4 := debug_filter_remove fnv1a f3 "render" in
  let f5 := (debug_filter_add fnv1a f4 "gui").1 in
  take 3 (tags f3) = [fnv1a "render"; fnv1a "audio"; fnv1a "net"]
  ∧ num_tags f3 = 3
  ∧ take 3 (tags f4) = [0; fnv1a "audio"; fnv1a "net"]
  ∧ num_tags f4 = 2
  ∧ enabled f4 (fnv1a "net") = true
  ∧ (debug_filter_add fnv1a f4 "gui").2 = AddStored
  ∧ take 3 (tags f5) = [0; fnv1a "audio"; fnv1a "gui"]
  ∧ enabled f5 (fnv1a "net") = false.
Proof.
  apply (remove_then_add_overwrites fnv1a "render" "audio" "net" "gui");
    vm_compute; discriminate.
Defined.

(** ** What the filter lets through *)

Lemma tag_end_no_bar (text : string) : ∀ i : nat,
  "|"%char ∉ list_ascii_of_string text → tag_end text i = None.
Proof.
  induction text as [|c rest IH]; intros i Hno; cbn [tag_end]; [done|].
  cbn [list_ascii_of_string] in Hno. apply not_elem_of_cons in Hno as [Hc Hrest].
  destruct ((c =? " ")%char || (c =? "000")%char); [done|].
  destruct (Ascii.eqb_spec c "|") as [->|_]; [done|].
  cbn [andb]. by apply IH.
Qed.

(** Text without a [|] carries no tag: [filter_allows] lets it through
    whatever the filter holds. *)
Theorem untagged_text_is_allowed (fnv_hash : string → Z) (f : filter) (text : string) :
  "|"%char ∉ list_ascii_of_string text →
  filter_allows fnv_hash f text = true.
Proof.
  intros Hno. unfold filter_allows.
  rewrite (tag_end_no_bar text 0 Hno). reflexivity.
Qed.

Lemma untagged_text_is_allowed_witness :
  filter_allows fnv1a filter_init "loading map" = true.
Proof.
  apply (untagged_text_is_allowed fnv1a filter_init "loading map").
  apply (bool_decide_unpack _). vm_compute. reflexivity.
Defined.

(** The characters a topic name is made of: no space, no terminator, no
    separator. *)
Definition tag_char (c : ascii) : Prop :=
  c ≠ " "%char ∧ c ≠ "000"%char ∧ c ≠ "|"%char.

Lemma append_cons (c : ascii) (a b : string) : String c a +:+ b = String c (a +:+ b).
Proof. reflexivity. Qed.

Lemma append_nil (b : string) : "" +:+ b = b.
Proof. reflexivity. Qed.

Lemma tag_end_bar (tag rest : string) : ∀ i : nat,
  Forall tag_char (list_ascii_of_string tag) → (i + String.length tag ≠ 0)%nat →
  tag_end (tag +:+ "|" +:+ rest) i = Some (i + String.length tag)%nat.
Proof.
  induction tag as [|c tag IH]; intros i Hall Hpos.
  - rewrite append_nil, append_cons. cbn [tag_end String.length].
    change (("|" =? " ")%char || ("|" =? "000")%char) with false.
    change ("|" =? "|")%char with true. cbn iota. cbn [andb].
    destruct (Nat.eqb_spec i 0) as [->|_]; [cbn in Hpos; lia|].
    cbn [negb]. f_equal. lia.
  - rewrite append_cons. cbn [tag_end String.length].
    cbn [list_ascii_of_string] in Hall. apply Forall_cons in Hall as [(Hs & Hn & Hb) Hall].
    destruct (Ascii.eqb_spec c " "); [done|].
    destruct (Ascii.eqb_spec c "000"); [done|].
    destruct (Ascii.eqb_spec c "|"); [done|].
    cbn [orb andb]. rewrite IH by (done || lia). f_equal. lia.
Qed.

Lemma substring_prefix (a b : string) : substring 0 (String.length a) (a +:+ b) = a.
Proof.
  induction a as [|c a IH].
  - rewrite append_nil. cbn [String.length]. by destruct b.
  - rewrite append_cons. cbn [String.length substring]. by rewrite IH.
Qed.

Lemma scan_tags_finds (t : list Z) (hash : Z) (n : nat) : ∀ i j : nat,
  (i ≤ j < i + n)%nat → t !!! j = hash → ∃ k, scan_tags t hash i n = Some k.
Proof.
  induction n as [|n IH]; intros i j Hj Hhash; [lia|].
  cbn [scan_tags]. destruct (Z.eqb_spec (t !!! i) hash) as [_|Hne]; [by exists i|].
  apply (IH (S i) j); [|done].
  destruct (decide (j = i)) as [->|]; [done|lia].
Qed.

(** A hash is enabled exactly when some slot of the array holds it. *)
Lemma enabled_iff (f : filter) (h : Z) :
  enabled f h = true ↔ ∃ j, (j < MAX_TAGS)%nat ∧ tags f !!! j = h.
Proof.
  unfold enabled. split.
  - destruct (scan_tags (tags f) h 0 MAX_TAGS) as [k|] eqn:Hk; [|done].
    intros _. apply scan_tags_Some in Hk as [Hk Hh]. exists k. split; [lia|done].
  - intros (j & Hj & Hh).
    destruct (scan_tags_finds (tags f) h MAX_TAGS 0 j) as [k ->]; [lia|done|done].
Qed.

Lemma filter_allows_tagged (fnv_hash : string → Z) (f : filter) (tag rest : string) :
  tag ≠ "" → Forall tag_char (list_ascii_of_string tag) →
  filter_allows fnv_hash f (tag +:+ "|" +:+ rest) = enabled f (fnv_hash tag).
Proof.
  intros Hne Hall. unfold filter_allows, enabled.
  rewrite (tag_end_bar tag rest 0 Hall).
  - cbn [Nat.add]. by rewrite substring_prefix.
  - destruct tag; [done|]. cbn [String.length]. lia.
Qed.

(** Add, then display: once [debug_filter_add] has been called for a topic
    while the filter has room, every text tagged with that topic is let
    through. *)
Theorem added_topic_is_allowed (fnv_hash : string → Z) (f : filter) (tag rest : string) :
  length (tags f) = MAX_TAGS →
  0 ≤ num_tags f < Z.of_nat MAX_TAGS →
  tag ≠ "" → Forall tag_char (list_ascii_of_string tag) →
  filter_allows fnv_hash (debug_filter_add fnv_hash f tag).1 (tag +:+ "|" +:+ rest) = true.
Proof.
  intros Hlen Hroom Hne Hall. rewrite filter_allows_tagged by done.
  apply enabled_iff. unfold debug_filter_add.
  destruct (scan_tags (tags f) (fnv_hash tag) 0 MAX_TAGS) as [k|] eqn:Hk; cbn [fst].
  - apply scan_tags_Some in Hk as [Hk Hh]. exists k. split; [lia|done].
  - destruct (Z.eqb_spec (num_tags f) (Z.of_nat MAX_TAGS)); [lia|].
    destruct (Z.ltb_spec (num_tags f) (Z.of_nat MAX_TAGS)); [|lia].
    cbn [fst tags]. exists (Z.to_nat (num_tags f)). split; [lia|].
    apply list_lookup_total_insert_eq. lia.
Qed.

Lemma added_topic_is_allowed_witness :
  filter_allows fnv1a (debug_filter_add fnv1a filter_init "render").1
                ("render" +:+ "|" +:+ "shader loaded") = true.
Proof.
  apply (added_topic_is_allowed fnv1a filter_init "render" "shader loaded").
  - reflexivity.
  - unfold filter_init, MAX_TAGS. cbn [num_tags]. lia.
  - discriminate.
  - repeat constructor; discriminate.
Defined.

(** With every slot zero (the initial state, and the state after
    [debug_filter_clear]) a tagged text is let through exactly when its
    topic hashes to 0: the empty slots are taken for an entry of that
    topic. *)
Theorem zeroed_filter_allows_only_hash_zero (fnv_hash : string → Z) (f : filter)
    (tag rest : string) :
  tags f = replicate MAX_TAGS 0 →
  tag ≠ "" → Forall tag_char (list_ascii_of_string tag) →
  filter_allows fnv_hash f (tag +:+ "|" +:+ rest) = (fnv_hash tag =? 0).
Proof.
  intros Hz Hne Hall. rewrite filter_allows_tagged by done.
  destruct (Z.eqb_spec (fnv_hash tag) 0) as [H0|Hnz].
  - apply enabled_iff. exists 0%nat. split; [unfold MAX_TAGS; lia|].
    rewrite Hz, H0. reflexivity.
  - unfold enabled. rewrite Hz, scan_tags_zeroes; done.
Qed.

Lemma zeroed_filter_allows_only_hash_zero_witness :
  filter_allows fnv1a filter_init ("audio" +:+ "|" +:+ "mixer started")
  = (fnv1a "audio" =? 0).
Proof.
  apply (zeroed_filter_allows_only_hash_zero fnv1a filter_init "audio" "mixer started").
  - reflexivity.
  - discriminate.
  - repeat constructor; discriminate.
Defined.

(** ** Removing a topic *)

Lemma scan_tags_first (t : list Z) (hash : Z) (n : nat) : ∀ i k : nat,
  (i ≤ k < i + n)%nat → t !!! k = hash →
  (∀ j, (i ≤ j < k)%nat → t !!! j ≠ hash) →
  scan_tags t hash i n = Some k.
Proof.
  induction n as [|n IH]; intros i k Hk Hhash Hbefore; [lia|].
  cbn [scan_tags]. destruct (Z.eqb_spec (t !!! i) hash) as [Heq|Hne].
  - destruct (decide (i = k)) as [->|]; [done|].
    exfalso. apply (Hbefore i); [lia|done].
  - apply IH; [|done|intros j Hj; apply Hbefore; lia].
    destruct (decide (k = i)) as [->|]; [done|lia].
Qed.

(** [debug_filter_remove] of a topic whose hash sits in one slot, and not
    in the last one, disables that topic and no other, and decrements
    [num_tags]. *)
Theorem remove_disables_that_topic_only (fnv_hash : string → Z) (f : filter)
    (tag : string) (i : nat) :
  length (tags f) = MAX_TAGS →
  (i < MAX_TAGS - 1)%nat →
  tags f !!! i = fnv_hash tag →
  (∀ j, (j < MAX_TAGS)%nat → j ≠ i → tags f !!! j ≠ fnv_hash tag) →
  let f' := debug_filter_remove fnv_hash f tag in
  enabled f' (fnv_hash tag) = false
  ∧ (∀ h, h ≠ fnv_hash tag → enabled f' h = enabled f h)
  ∧ num_tags f' = wrap_uint (num_tags f - 1).
Proof.
  intros Hlen Hi Hslot Honly f'.
  assert (scan_tags (tags f) (fnv_hash tag) 0 MAX_TAGS = Some i) as Hscan.
  { apply scan_tags_first; [lia|done|]. intros j Hj. apply Honly; lia. }
  assert (f' = Filter (<[i := tags f !!! (MAX_TAGS - 1)%nat]> (tags f))
                      (wrap_uint (num_tags f - 1))) as Hf'.
  { unfold f', debug_filter_remove. by rewrite Hscan. }
  assert (∀ j, (j < MAX_TAGS)%nat →
            tags f' !!! j = if decide (j = i) then tags f !!! (MAX_TAGS - 1)%nat
                            else tags f !!! j) as Hread.
  { intros j Hj. rewrite Hf'. cbn [tags]. destruct (decide (j = i)) as [->|Hne].
    - apply list_lookup_total_insert_eq. lia.
    - by apply list_lookup_total_insert_ne. }
  split; [|split].
  - destruct (enabled f' (fnv_hash tag)) eqn:He; [|done].
    apply enabled_iff in He as (j & Hj & Hh). rewrite Hread in Hh by done.
    destruct (decide (j = i)) as [->|Hne].
    + exfalso. apply (Honly (MAX_TAGS - 1)%nat); [unfold MAX_TAGS; lia|lia|done].
    + exfalso. by apply (Honly j).
  - intros h Hh. apply eq_true_iff_eq. rewrite !enabled_iff. split.
    + intros (j & Hj & Hj'). rewrite Hread in Hj' by done.
      destruct (decide (j = i)) as [->|Hne].
      * exists (MAX_TAGS - 1)%nat. split; [unfold MAX_TAGS; lia|done].
      * by exists j.
    + intros (j & Hj & Hj'). exists j. split; [done|]. rewrite Hread by done.
      destruct (decide (j = i)) as [->|Hne]; [congruence|done].
  - by rewrite Hf'.
Qed.

Lemma remove_disables_that_topic_only_witness :
  let f := (add_all fnv1a filter_init ["render"; "audio"; "net"]).1 in
  let f' := debug_filter_remove fnv1a f "audio" in
  enabled f' (fnv1a "audio") = false
  ∧ (∀ h, h ≠ fnv1a "audio" → enabled f' h = enabled f h)
  ∧ num_tags f' = wrap_uint (num_tags f - 1).
Proof.
  apply (remove_disables_that_topic_only fnv1a
           (add_all fnv1a filter_init ["render"; "audio"; "net"]).1 "audio" 1).
  - reflexivity.
  - unfold MAX_TAGS. lia.
  - reflexivity.
  - intros j Hj Hne.
    do 20 (destruct j as [|j]; [try (by destruct Hne); vm_compute; discriminate|]).
    unfold MAX_TAGS in Hj. lia.
Defined.

(** A topic held in the last slot cannot be removed: the slot is
    overwritten with itself, so the array stays as it is and the topic
    stays enabled, while [num_tags] is decremented all the same. *)
Theorem remove_from_last_slot_keeps_topic (fnv_hash : string → Z) (f : filter)
    (tag : string) :
  length (tags f) = MAX_TAGS →
  scan_tags (tags f) (fnv_hash tag) 0 MAX_TAGS = Some (MAX_TAGS - 1)%nat →
  let f' := debug_filter_remove fnv_hash f tag in
  tags f' = tags f
  ∧ num_tags f' = wrap_uint (num_tags f - 1)
  ∧ enabled f' (fnv_hash tag) = true.
Proof.
  intros Hlen Hscan f'.
  assert (f' = Filter (tags f) (wrap_uint (num_tags f - 1))) as ->.
  { unfold f', debug_filter_remove. rewrite Hscan. f_equal.
    apply list_insert_id. apply list_lookup_lookup_total_lt.
    rewrite Hlen. unfold MAX_TAGS. lia. }
  split; [done|]. split; [done|].
  unfold enabled. cbn [tags]. by rewrite Hscan.
Qed.

Lemma remove_from_last_slot_keeps_topic_witness :
  let f' := debug_filter_remove fnv1a full_filter "t20" in
  tags f' = tags full_filter
  ∧ num_tags f' = wrap_uint (num_tags full_filter - 1)
  ∧ enabled f' (fnv1a "t20") = true.
Proof.
  apply (remove_from_last_slot_keeps_topic fnv1a full_filter "t20").
  - vm_compute. reflexivity.
  - vm_compute. reflexivity.
Defined.

(** ** Bounds *)

(** The array has its [MAX_TAGS] slots and the counter is within them. *)
Definition filter_ok (f : filter) : Prop :=
  length (tags f) = MAX_TAGS ∧ 0 ≤ num_tags f ≤ Z.of_nat MAX_TAGS.

Lemma debug_filter_add_ok (fnv_hash : string → Z) (f : filter) (tag : string) :
  filter_ok f →
  filter_ok (debug_filter_add fnv_hash f tag).1
  ∧ (debug_filter_add fnv_hash f tag).2 ≠ AddOutOfBounds.
Proof.
  intros [Hlen Hnum]. unfold debug_filter_add.
  destruct (scan_tags (tags f) (fnv_hash tag) 0 MAX_TAGS); [done|].
  destruct (Z.eqb_spec (num_tags f) (Z.of_nat MAX_TAGS)); [done|].
  destruct (Z.ltb_spec (num_tags f) (Z.of_nat MAX_TAGS)); [|lia].
  split; [|done]. split; cbn [fst tags num_tags].
  - by rewrite length_insert.
  - unfold wrap_uint, UINT_MOD, MAX_TAGS in *. rewrite Z.mod_small; lia.
Qed.

(** Adding alone never leaves the array: from a filter in order, a run of
    [debug_filter_add] calls keeps the counter within [0 .. MAX_TAGS], and
    no call stores outside the array. *)
Theorem add_all_stays_in_bounds (fnv_hash : string → Z) (topics : list string) :
  ∀ f : filter,
  filter_ok f →
  filter_ok (add_all fnv_hash f topics).1
  ∧ AddOutOfBounds ∉ (add_all fnv_hash f topics).2.
Proof.
  induction topics as [|tag topics IH]; intros f Hok; cbn [add_all].
  - split; [done|]. apply not_elem_of_nil.
  - destruct (debug_filter_add_ok fnv_hash f tag Hok) as [Hok1 Hres].
    destruct (debug_filter_add fnv_hash f tag) as [f1 r]; cbn [fst snd] in *.
    destruct (IH f1 Hok1) as [Hok2 Hrest].
    destruct (add_all fnv_hash f1 topics) as [f2 rs]; cbn [fst snd] in *.
    split; [done|]. apply not_elem_of_cons. by split.
Qed.

Lemma add_all_stays_in_bounds_witness :
  filter_ok (add_all fnv1a filter_init (twenty_topics ++ ["render"; "audio"])).1
  ∧ AddOutOfBounds ∉ (add_all fnv1a filter_init (twenty_topics ++ ["render"; "audio"])).2.
Proof.
  apply (add_all_stays_in_bounds fnv1a (twenty_topics ++ ["render"; "audio"]) filter_init).
  split; [reflexivity|]. unfold filter_init, MAX_TAGS. cbn [num_tags]. lia.
Defined.

Lemma remove_from_last_slot_iter (fnv_hash : string → Z) (f : filter) (tag : string)
    (k : nat) :
  length (tags f) = MAX_TAGS →
  scan_tags (tags f) (fnv_hash tag) 0 MAX_TAGS = Some (MAX_TAGS - 1)%nat →
  0 ≤ num_tags f < UINT_MOD →
  Nat.iter k (λ g, debug_filter_remove fnv_hash g tag) f
  = Filter (tags f) ((num_tags f - Z.of_nat k) mod UINT_MOD).
Proof.
  intros Hlen Hscan Hnum. induction k as [|k IH].
  - change (Nat.iter 0 _ f) with f. rewrite Z.sub_0_r, Z.mod_small by done.
    by destruct f.
  - rewrite Nat.iter_succ, IH. unfold debug_filter_remove. cbn [tags num_tags].
    rewrite Hscan. f_equal.
    + apply list_insert_id. apply list_lookup_lookup_total_lt.
      rewrite Hlen. unfold MAX_TAGS. lia.
    + unfold wrap_uint. rewrite Zminus_mod_idemp_l. f_equal. lia.
Qed.

(** Removing the topic of the last slot again and again counts [num_tags]
    down past zero, where it wraps to [2^32 - 1]; the next
    [debug_filter_add] of a topic not yet enabled then stores at
    [tags[2^32 - 1]], outside the array. *)
Theorem repeated_remove_then_add_leaves_array (fnv_hash : string → Z) (f : filter)
    (tag other : string) :
  length (tags f) = MAX_TAGS →
  scan_tags (tags f) (fnv_hash tag) 0 MAX_TAGS = Some (MAX_TAGS - 1)%nat →
  0 ≤ num_tags f ≤ Z.of_nat MAX_TAGS →
  enabled f (fnv_hash other) = false →
  let f' := Nat.iter (S (Z.to_nat (num_tags f)))
                     (λ g, debug_filter_remove fnv_hash g tag) f in
  tags f' = tags f
  ∧ num_tags f' = UINT_MOD - 1
  ∧ debug_filter_add fnv_hash f' other = (f', AddOutOfBounds).
Proof.
  intros Hlen Hscan Hnum Hother f'.
  assert (f' = Filter (tags f) (UINT_MOD - 1)) as ->.
  { unfold f'. rewrite remove_from_last_slot_iter by (unfold UINT_MOD, MAX_TAGS in *; lia || done).
    f_equal. replace (num_tags f - Z.of_nat (S (Z.to_nat (num_tags f)))) with (-1) by lia.
    reflexivity. }
  split; [done|]. split; [done|].
  unfold debug_filter_add. cbn [tags num_tags].
  unfold enabled in Hother.
  destruct (scan_tags (tags f) (fnv_hash other) 0 MAX_TAGS); [done|].
  reflexivity.
Qed.

Lemma repeated_remove_then_add_leaves_array_witness :
  let f' := Nat.iter (S (Z.to_nat (num_tags full_filter)))
                     (λ g, debug_filter_remove fnv1a g "t20") full_filter in
  tags f' = tags full_filter
  ∧ num_tags f' = UINT_MOD - 1
  ∧ debug_filter_add fnv1a f' "gui" = (f', AddOutOfBounds).
Proof.
  apply (repeated_remove_then_add_leaves_array fnv1a full_filter "t20" "gui").
  - vm_compute. reflexivity.
  - vm_compute. reflexivity.
  - vm_compute. split; discriminate.
  - vm_compute. reflexivity.
Defined.

End TagFilterFacts.

(* ===================================================================== *)
(** * Properties of the error reporter                                     *)
(* ===================================================================== *)

Module ErrorReporterFacts.
Import ErrorReporter.

Section Reporter.

Variables (DEBUG_SUPPRESS DE_ALLOW_SUPPRESS DE_MANUAL_BREAK : Z).
Variables (ah_translate path_name_only : string → string).

Local Abbreviation report :=
  (debug_display_error DEBUG_SUPPRESS DE_ALLOW_SUPPRESS DE_MANUAL_BREAK
                       ah_translate path_name_only).

(** A suppressed report is the identity on the state and silent. *)
Lemma report_suppressed (c : call) (st : state) :
  should_suppress_error DEBUG_SUPPRESS st (suppress (call_args c)) = true →
  report c st = (Returned ER_CONTINUE, st, []).
Proof.
  intros Hs. destruct c as [a ? ? ? ? ? ? ? ?]; simpl in *.
  unfold bind, get. by rewrite Hs.
Qed.

Lemma emit_bind {B} (e : event) (k : M B) (st : state) :
  (emit e >>> k) st = ((k st).1.1, (k st).1.2, e :: (k st).2).
Proof. unfold bind, emit. by destruct (k st) as [[o st'] t]. Qed.

(** A report that is not suppressed starts by writing its one-line
    summary through [debug_wprintf]. *)
Lemma report_not_suppressed (c : call) (st : state) :
  should_suppress_error DEBUG_SUPPRESS st (suppress (call_args c)) = false →
  ∃ o st' text t, report c st = (o, st', EvDebugWprintf text :: t).
Proof.
  intros Hs. destruct c as [a ? ? ? ? ? ? ? ?]; simpl in *.
  unfold bind at 1. unfold get. rewrite Hs.
  rewrite emit_bind. by eexists _, _, _, _.
Qed.

(** With a suppress cell the sticky exit flag does what its declaration
    says. *)
Lemma exit_requested_with_cell (c : call) (st : state) (l : nat) :
  suppress (call_args c) = Some l →
  exit_requested st = true →
  report c st = (Returned ER_CONTINUE, st, []).
Proof.
  intros Hl He. apply report_suppressed.
  unfold should_suppress_error. rewrite Hl, He.
  by destruct (read_cell st l =? DEBUG_SUPPRESS).
Qed.

Lemma bind_Returned_inv {A B} (m : M A) (k : A → M B) (st st' : state)
    (b : B) (t : list event) :
  bind m k st = (Returned b, st', t) →
  ∃ a st1 t1 t2,
    m st = (Returned a, st1, t1) ∧ k a st1 = (Returned b, st', t2) ∧ t = t1 ++ t2.
Proof.
  unfold bind. destruct (m st) as [[[a| |] st1] t1]; try discriminate.
  destruct (k a st1) as [[o st2] t2] eqn:Hk. intros [= -> -> <-].
  by eexists _, _, _, _.
Qed.

Lemma carry_out_keeps_guard (er : ErrorReaction) (fl : Z) (sup : option nat)
    (st st' : state) (o : outcome ErrorReaction) (t : list event) :
  carry_out_ErrorReaction DEBUG_SUPPRESS DE_MANUAL_BREAK er fl sup st = (o, st', t) →
  already_in_progress st' = already_in_progress st.
Proof.
  unfold carry_out_ErrorReaction.
  destruct er; [| destruct (negb _) | destruct sup | |];
    cbv [bind ret emit stop store_cell set_exit_requested];
    intros [= <- <- <-]; reflexivity.
Qed.

(** Every activation that gets past the suppression test and returns has
    reset [already_in_progress], whether or not it was the one that set
    it. *)
Lemma returning_report_clears_guard (c : call) (st st' : state)
    (er : ErrorReaction) (t : list event) :
  should_suppress_error DEBUG_SUPPRESS st (suppress (call_args c)) = false →
  report c st = (Returned er, st', t) →
  already_in_progress st' = 0.
Proof.
  intros Hs. destruct c as [a ? ? ? ? ? ? ? ?]; simpl in *.
  intros H.
  apply bind_Returned_inv in H as (st0 & ? & ? & ? & [= <- <- <-] & H & _).
  rewrite Hs in H.
  apply bind_Returned_inv in H as (? & ? & ? & ? & _ & H & _).
  apply bind_Returned_inv in H as (? & ? & ? & ? & _ & H & _).
  apply bind_Returned_inv in H as (? & ? & ? & ? & _ & H & _).
  apply bind_Returned_inv in H as (? & ? & ? & ? & _ & H & _).
  apply bind_Returned_inv in H as (? & ? & ? & ? & _ & H & _).
  apply bind_Returned_inv in H as (? & ? & ? & ? & _ & H & _).
  apply bind_Returned_inv in H as (? & ? & ? & ? & [= _ <- _] & H & _).
  by apply carry_out_keeps_guard in H.
Qed.

End Reporter.

(** C8. A call whose [suppress] points to a cell already holding
    [DEBUG_SUPPRESS] returns [ER_CONTINUE], leaves the reporting state as
    it was and causes no event at all: no [debug_wprintf], no crash log,
    no display hook. *)
Theorem suppressed_call_is_silent
    (DEBUG_SUPPRESS DE_ALLOW_SUPPRESS DE_MANUAL_BREAK : Z)
    (ah_translate path_name_only : string → string)
    (c : call) (st : state) (l : nat) :
  suppress (call_args c) = Some l →
  read_cell st l = DEBUG_SUPPRESS →
  debug_display_error DEBUG_SUPPRESS DE_ALLOW_SUPPRESS DE_MANUAL_BREAK
                      ah_translate path_name_only c st
  = (Returned ER_CONTINUE, st, []).
Proof.
  intros Hl Hcell. apply report_suppressed.
  unfold should_suppress_error. rewrite Hl, Hcell. by rewrite Z.eqb_refl.
Qed.

(** An assertion failure at a call site whose cell 7 was set by an earlier
    "Suppress" answer. *)
Definition suppressed_site : call :=
  Call (Args "Assertion failed" DE_MANUAL_BREAK_value 1 0
             (Some "source/lib/res/file.cpp") 120 (Some "file_open") (Some 7%nat))
       [] true "trace" [] true [] ER_NOT_IMPLEMENTED ER_EXIT.
Definition state_with_suppressed_site : state :=
  State false 0 {[ 7%nat := DEBUG_SUPPRESS_value ]}.

Lemma suppressed_call_is_silent_witness :
  debug_display_error DEBUG_SUPPRESS_value DE_ALLOW_SUPPRESS_value DE_MANUAL_BREAK_value
                      id id suppressed_site state_with_suppressed_site
  = (Returned ER_CONTINUE, state_with_suppressed_site, []).
Proof.
  apply (suppressed_call_is_silent _ _ _ _ _ suppressed_site
           state_with_suppressed_site 7%nat); reflexivity.
Defined.

(** C1, at the input where the code departs from it. With [exit_requested]
    set and a null [suppress] argument, [should_suppress_error] returns
    false at its first test and never looks at the flag: the report goes
    ahead, beginning with its [debug_wprintf] line. *)
Theorem exit_requested_ignored_for_null_suppress
    (DEBUG_SUPPRESS DE_ALLOW_SUPPRESS DE_MANUAL_BREAK : Z)
    (ah_translate path_name_only : string → string)
    (c : call) (st : state) :
  suppress (call_args c) = None →
  exit_requested st = true →
  should_suppress_error DEBUG_SUPPRESS st (suppress (call_args c)) = false
  ∧ ∃ o st' text t,
      debug_display_error DEBUG_SUPPRESS DE_ALLOW_SUPPRESS DE_MANUAL_BREAK
                          ah_translate path_name_only c st
      = (o, st', EvDebugWprintf text :: t).
Proof.
  intros Hnull _.
  assert (should_suppress_error DEBUG_SUPPRESS st (suppress (call_args c)) = false)
    as Hs by (by rewrite Hnull).
  split; [done|]. by apply report_not_suppressed.
Qed.

(** A failed call reported from an [atexit] handler, without suppress
    cell, after the user chose "Exit". *)
Definition atexit_report : call :=
  Call (Args "Function call failed" 0 1 0
             (Some "source/lib/res/h_mgr.cpp") 733 (Some "h_mgr_shutdown") None)
       [] true "trace" [] true [] ER_NOT_IMPLEMENTED ER_CONTINUE.
Definition state_after_exit : state := State true 0 ∅.

Lemma exit_requested_ignored_for_null_suppress_witness :
  should_suppress_error DEBUG_SUPPRESS_value state_after_exit
                        (suppress (call_args atexit_report)) = false
  ∧ ∃ o st' text t,
      debug_display_error DEBUG_SUPPRESS_value DE_ALLOW_SUPPRESS_value
                          DE_MANUAL_BREAK_value id id atexit_report state_after_exit
      = (o, st', EvDebugWprintf text :: t).
Proof.
  apply (exit_requested_ignored_for_null_suppress _ _ _ _ _ atexit_report
           state_after_exit); reflexivity.
Defined.

(** What the run of [atexit_report] looks like in full: summary line, full
    stack trace, crash log, both display hooks. *)
Example atexit_report_events :
  map kind (debug_display_error DEBUG_SUPPRESS_value DE_ALLOW_SUPPRESS_value
              DE_MANUAL_BREAK_value id id atexit_report state_after_exit).2
  = [KDebugWprintf; KDumpStackBegin; KDumpStackEnd; KCrashlogBegin;
     KCrashlogWritten; KAhDisplayError; KSysDisplayError].
Proof. vm_compute. reflexivity. Qed.

(** ** Reports raised while a stack trace is being built *)

Definition run : call → M ErrorReaction :=
  debug_display_error DEBUG_SUPPRESS_value DE_ALLOW_SUPPRESS_value
                      DE_MANUAL_BREAK_value id id.

(** A [debug_assert] inside the stack walker, at the call site owning
    suppress cell [site]; the user answers "Continue". *)
Definition assert_in_walker (site : nat) (ln : Z) : call :=
  Call (Args "Assertion failed" DE_MANUAL_BREAK_value 1 0
             (Some "source/lib/sysdep/win/wdbg_sym.cpp") ln (Some "dump_sym")
             (Some site))
       [] true "inner trace" [] true [] ER_CONTINUE ER_CONTINUE.

(** A report whose stack walk trips over [n] assertions, one after the
    other. *)
Definition report_with_faulty_walk (raised : list call) : call :=
  Call (Args "Function call failed" 0 0 0
             (Some "source/ps/Game.cpp") 42 (Some "Update") (Some 0%nat))
       [] true "outer trace" raised true [] ER_CONTINUE ER_CONTINUE.

(** One assertion during the walk: one full trace, one degraded report, and
    the guard is free again afterwards. *)
Example single_nested_report :
  let r := run (report_with_faulty_walk [assert_in_walker 1 100]) state_init in
  r.1.1 = Returned ER_CONTINUE
  ∧ already_in_progress r.1.2 = 0
  ∧ map kind r.2
    = [KDebugWprintf; KDumpStackBegin;
         KDebugWprintf; KAhDisplayError;
       KDumpStackEnd; KCrashlogBegin; KCrashlogWritten; KAhDisplayError]
  ∧ max_dump_depth 0 r.2 = 1%nat.
Proof. vm_compute. repeat split; reflexivity. Qed.

(** C2, at the input where the code departs from it. The stack walk of an
    outer report trips over two assertions in turn. The first is reported
    in degraded mode, but on its way out it executes
    [already_in_progress = 0] like every activation, releasing a guard it
    never took while the outer walk is still running. The second therefore
    wins the compare-and-swap and starts a full stack trace (and writes a
    crash log) inside the outer [debug_dump_stack]: two full traces are in
    progress at once. *)
Theorem second_nested_report_starts_full_trace :
  let r := run (report_with_faulty_walk
                  [assert_in_walker 1 100; assert_in_walker 2 200]) state_init in
  r.1.1 = Returned ER_CONTINUE
  ∧ map kind r.2
    = [KDebugWprintf; KDumpStackBegin;
         KDebugWprintf; KAhDisplayError;
         KDebugWprintf; KDumpStackBegin; KDumpStackEnd;
           KCrashlogBegin; KCrashlogWritten; KAhDisplayError;
       KDumpStackEnd; KCrashlogBegin; KCrashlogWritten; KAhDisplayError]
  ∧ full_traces r.2 = 2%nat
  ∧ max_dump_depth 0 r.2 = 2%nat.
Proof. vm_compute. repeat split; reflexivity. Qed.

(** ** Reactions *)

(** A nested activation releasing the guard: the state in which a stack
    trace is in progress. *)
Definition state_during_trace : state := State false 1 ∅.

Lemma returning_report_clears_guard_witness :
  already_in_progress (run (assert_in_walker 1 100) state_during_trace).1.2 = 0.
Proof.
  apply (returning_report_clears_guard DEBUG_SUPPRESS_value DE_ALLOW_SUPPRESS_value
           DE_MANUAL_BREAK_value id id (assert_in_walker 1 100) state_during_trace
           (run (assert_in_walker 1 100) state_during_trace).1.2 ER_CONTINUE
           (run (assert_in_walker 1 100) state_during_trace).2).
  - reflexivity.
  - vm_compute. reflexivity.
Defined.

(** Events that belong to a stack trace or to the crash log. *)
Definition heavy (e : event) : bool :=
  match kind e with
  | KDumpStackBegin | KDumpStackEnd | KCrashlogBegin | KCrashlogWritten => true
  | _ => false
  end.

Lemma land_lor_same (m a : Z) : Z.land (Z.lor m a) m = m.
Proof.
  apply Z.bits_inj'. intros n Hn. rewrite Z.land_spec, Z.lor_spec.
  by destruct (Z.testbit m n), (Z.testbit a n).
Qed.

Section Reactions.

Variables (DEBUG_SUPPRESS DE_ALLOW_SUPPRESS DE_MANUAL_BREAK : Z).
Variables (ah_translate path_name_only : string → string).
Variable swprintf_overflow : Z → string → string.
Variable error_description_r : Z → string.

Local Abbreviation report :=
  (debug_display_error DEBUG_SUPPRESS DE_ALLOW_SUPPRESS DE_MANUAL_BREAK
                       ah_translate path_name_only).

(** A run of reports that are all suppressed does nothing. *)
Lemma run_all_suppressed (l : list call) (st : state) :
  Forall (λ c, should_suppress_error DEBUG_SUPPRESS st (suppress (call_args c)) = true) l →
  run_all report l st = (Returned tt, st, []).
Proof.
  induction 1 as [|c l Hc _ IH]; [done|].
  cbn [run_all]. unfold bind. by rewrite (report_suppressed _ _ _ _ _ c st Hc), IH.
Qed.

(** A report that finds [already_in_progress] set, whoever set it, and
    whose [debug_wprintf] raises no error that is not suppressed, is a
    degraded one: it starts no stack trace and writes no crash log, and so
    raises none of the errors of its environment. *)
Theorem nested_report_is_degraded (a : args) (wr : list call) (h : bool) (dt : string)
    (dr : list call) (fo : bool) (cr : list call) (ah sy : ErrorReaction) (st : state) :
  already_in_progress st ≠ 0 →
  should_suppress_error DEBUG_SUPPRESS st (suppress a) = false →
  Forall (λ c, should_suppress_error DEBUG_SUPPRESS st (suppress (call_args c)) = true)
         wr →
  Forall (λ e, heavy e = false) (report (Call a wr h dt dr fo cr ah sy) st).2.
Proof.
  intros Hbusy Hs Hwr. simpl.
  unfold bind at 1. unfold get. rewrite Hs.
  rewrite emit_bind. cbn [snd].
  apply Forall_cons. split; [done|].
  unfold bind at 1. rewrite (run_all_suppressed wr st Hwr).
  unfold bind at 1. unfold cas_already_in_progress.
  destruct (Z.eqb_spec (already_in_progress st) 0) as [|_]; [done|].
  unfold build_error_message. cbn [negb].
  remember (match suppress a with Some _ => Z.lor (flags a) DE_ALLOW_SUPPRESS
                                | None => flags a end) as fl eqn:Efl.
  destruct (format_header _ _ _ _ _) as [header|];
    (destruct ah, sy; unfold carry_out_ErrorReaction;
     destruct (negb (Z.land fl DE_MANUAL_BREAK =? 0)), (suppress a);
     cbv [bind ret emit call_display_error clear_already_in_progress
          store_cell set_exit_requested stop decide decide_rel ErrorReaction_eq_dec
          ErrorReaction_rect ErrorReaction_rec negb app snd];
     repeat constructor).
Qed.

Lemma call_display_error_Returned (text : string) (fl : Z) (ah sy : ErrorReaction)
    (st st1 : state) (er : ErrorReaction) (t : list event) :
  call_display_error text fl ah sy st = (Returned er, st1, t) →
  er = settled ah sy ∧ st1 = st.
Proof.
  unfold call_display_error, settled.
  destruct (decide (ah = ER_NOT_IMPLEMENTED)); cbv [bind emit ret];
    intros ?; by simplify_eq.
Qed.

(** Suppress, then report again: once the user has answered "Suppress" to a
    report, the cell of its call site holds [DEBUG_SUPPRESS], the report
    returns [ER_CONTINUE], and every later report from that site is
    silent. *)
Theorem suppress_answer_silences_site (c c2 : call) (st st' : state)
    (er : ErrorReaction) (t : list event) (l : nat) :
  suppress (call_args c) = Some l →
  should_suppress_error DEBUG_SUPPRESS st (suppress (call_args c)) = false →
  answer c = ER_SUPPRESS →
  report c st = (Returned er, st', t) →
  suppress (call_args c2) = Some l →
  er = ER_CONTINUE
  ∧ read_cell st' l = DEBUG_SUPPRESS
  ∧ report c2 st' = (Returned ER_CONTINUE, st', []).
Proof.
  intros Hl Hs Hans H Hl2. destruct c as [a wr h dt dr fo cr ah sy]; simpl in *.
  apply bind_Returned_inv in H as (st0 & ? & ? & ? & [= <- <- <-] & H & _).
  rewrite Hs in H.
  apply bind_Returned_inv in H as (? & ? & ? & ? & _ & H & _).
  apply bind_Returned_inv in H as (? & ? & ? & ? & _ & H & _).
  apply bind_Returned_inv in H as (? & ? & ? & ? & _ & H & _).
  apply bind_Returned_inv in H as (? & ? & ? & ? & _ & H & _).
  apply bind_Returned_inv in H as (? & ? & ? & ? & _ & H & _).
  apply bind_Returned_inv in H as (er0 & ? & ? & ? & Hdisplay & H & _).
  apply call_display_error_Returned in Hdisplay as [-> _]. rewrite Hans in H.
  apply bind_Returned_inv in H as (? & ? & ? & ? & _ & H & _).
  unfold carry_out_ErrorReaction in H. rewrite Hl in H.
  cbv [bind store_cell ret] in H.
  simplify_eq.
  match goal with
  | |- context [read_cell ?s l] =>
      assert (read_cell s l = DEBUG_SUPPRESS) as Hcell
        by (unfold read_cell; cbn [suppress_cells]; by rewrite lookup_insert_eq)
  end.
  split; [done|]. split; [done|].
  apply report_suppressed. rewrite Hl2. unfold should_suppress_error.
  rewrite Hcell. by rewrite Z.eqb_refl.
Qed.

(** Exit: when the user answers "Exit" to a report that raises no further
    errors on its way, the process ends inside the call, with
    [exit(EXIT_FAILURE)] as its last act, [exit_requested] set and the
    guard released; whatever is reported afterwards from a call site with
    a suppress cell (from an [atexit] handler, say) is silent. *)
Theorem exit_answer_ends_process (a : args) (h : bool) (dt : string) (fo : bool)
    (ah sy : ErrorReaction) (st : state) :
  should_suppress_error DEBUG_SUPPRESS st (suppress a) = false →
  settled ah sy = ER_EXIT →
  let r := report (Call a [] h dt [] fo [] ah sy) st in
  r.1 = (ProcessExit, State true 0 (suppress_cells st))
  ∧ last r.2 = Some EvExitFailure
  ∧ ∀ c2 l, suppress (call_args c2) = Some l →
      report c2 r.1.2 = (Returned ER_CONTINUE, r.1.2, []).
Proof.
  intros Hs Hans r.
  assert (∃ t, r = (ProcessExit, State true 0 (suppress_cells st), t)
               ∧ last t = Some EvExitFailure) as (t & Hr & Hlast).
  { unfold r. simpl. unfold bind at 1. unfold get. rewrite Hs.
    destruct st as [ex aip cells].
    destruct ah, sy; try discriminate Hans;
      cbv [bind ret emit call_display_error clear_already_in_progress
           cas_already_in_progress build_error_message carry_out_ErrorReaction
           debug_write_crashlog run_all
           store_cell set_exit_requested stop decide decide_rel ErrorReaction_eq_dec
           ErrorReaction_rect ErrorReaction_rec negb app fst snd
           exit_requested already_in_progress suppress_cells];
      destruct (aip =? 0);
      destruct (format_header _ _ _ _ _) as [header|];
      destruct fo; eexists; split; reflexivity. }
  rewrite Hr. cbn [fst snd]. split; [done|]. split; [done|].
  intros c2 l Hl. by apply exit_requested_with_cell with l.
Qed.

(** Suppress without a cell: [carry_out_ErrorReaction] does not test
    [suppress] before it stores [DEBUG_SUPPRESS] through it. A report made
    with a null [suppress] (for which [DE_ALLOW_SUPPRESS] is not added to
    the flags) and answered "Suppress" all the same stores through the
    null pointer, after the guard has been released. *)
Theorem suppress_answer_without_cell_stores_through_null (a : args) (h : bool)
    (dt : string) (fo : bool) (ah sy : ErrorReaction) (st : state) :
  suppress a = None →
  settled ah sy = ER_SUPPRESS →
  ∃ text t, report (Call a [] h dt [] fo [] ah sy) st
            = (NullStore, State (exit_requested st) 0 (suppress_cells st), t)
            ∧ EvAhDisplayError text (flags a) ∈ t.
Proof.
  intros Hnull Hans. simpl. unfold bind at 1. unfold get.
  unfold should_suppress_error. rewrite Hnull.
  destruct st as [ex aip cells].
  destruct ah, sy; try discriminate Hans;
    cbv [bind ret emit call_display_error clear_already_in_progress
         cas_already_in_progress build_error_message carry_out_ErrorReaction
         debug_write_crashlog run_all
         store_cell set_exit_requested stop decide decide_rel ErrorReaction_eq_dec
         ErrorReaction_rect ErrorReaction_rec negb app fst snd
         exit_requested already_in_progress suppress_cells];
    destruct (aip =? 0);
    destruct (format_header _ _ _ _ _) as [header|];
    destruct fo;
    (eexists _, _; split; [reflexivity|]);
    repeat first [ apply list_elem_of_here | apply list_elem_of_further ].
Qed.

Lemma manual_break_requested (sup : option nat) :
  DE_MANUAL_BREAK ≠ 0 →
  negb (Z.land match sup with
               | Some _ => Z.lor DE_MANUAL_BREAK DE_ALLOW_SUPPRESS
               | None => DE_MANUAL_BREAK
               end DE_MANUAL_BREAK =? 0) = true.
Proof.
  intros Hnz. destruct sup; rewrite ?land_lor_same, ?Z.land_diag;
    by destruct (Z.eqb_spec DE_MANUAL_BREAK 0).
Qed.

Lemma manual_break_report (a : args) (e : surroundings) (st : state) :
  DE_MANUAL_BREAK ≠ 0 →
  flags a = DE_MANUAL_BREAK →
  should_suppress_error DEBUG_SUPPRESS st (suppress a) = false →
  sr_wprintf_raises e = [] → sr_dump_raises e = [] → sr_crashlog_raises e = [] →
  settled (sr_ah_answer e) (sr_sys_answer e) = ER_BREAK →
  ∃ st' t, report (activation a e) st = (Returned ER_BREAK, st', t)
           ∧ EvDebugBreak ∉ t.
Proof.
  intros Hnz Hfl Hs Hwr Hdr Hcr Hans. destruct e as [wr h dt dr fo cr ah sy].
  cbn [sr_wprintf_raises sr_dump_raises sr_crashlog_raises sr_ah_answer sr_sys_answer]
    in *.
  subst wr dr cr.
  unfold activation; cbn [sr_wprintf_raises sr_heap_ok sr_dump_text sr_dump_raises
                          sr_fopen_ok sr_crashlog_raises sr_ah_answer sr_sys_answer].
  simpl. unfold bind at 1. unfold get. rewrite Hs.
  unfold carry_out_ErrorReaction. rewrite Hfl, (manual_break_requested (suppress a) Hnz).
  destruct st as [ex aip cells].
  destruct ah, sy; try discriminate Hans;
    cbv [bind ret emit call_display_error clear_already_in_progress
         cas_already_in_progress build_error_message
         debug_write_crashlog run_all
         store_cell set_exit_requested stop decide decide_rel ErrorReaction_eq_dec
         ErrorReaction_rect ErrorReaction_rec negb app fst snd
         exit_requested already_in_progress suppress_cells];
    destruct (aip =? 0);
    destruct (format_header _ _ _ _ _) as [header|];
    destruct fo;
    (eexists _, _; (split; [reflexivity|]);
     rewrite ?not_elem_of_cons; repeat split; try discriminate; apply not_elem_of_nil).
Qed.

(** Break is left to the macro: [debug_assert_failed] and [debug_warn_err]
    report with [DE_MANUAL_BREAK], so a "Break" answer comes back to the
    caller as [ER_BREAK] and [debug_break] is not called on the way. *)
Theorem break_is_left_to_the_macro (expr : string) (err : Z) (sup : option nat)
    (file : option string) (line : Z) (func : option string)
    (e : surroundings) (st : state) :
  DE_MANUAL_BREAK ≠ 0 →
  should_suppress_error DEBUG_SUPPRESS st sup = false →
  sr_wprintf_raises e = [] → sr_dump_raises e = [] → sr_crashlog_raises e = [] →
  settled (sr_ah_answer e) (sr_sys_answer e) = ER_BREAK →
  (∃ st' t,
     debug_assert_failed DEBUG_SUPPRESS DE_ALLOW_SUPPRESS DE_MANUAL_BREAK ah_translate
       path_name_only swprintf_overflow expr sup file line func e st
     = (Returned ER_BREAK, st', t) ∧ EvDebugBreak ∉ t)
  ∧ (∃ st' t,
       debug_warn_err DEBUG_SUPPRESS DE_ALLOW_SUPPRESS DE_MANUAL_BREAK ah_translate
         path_name_only swprintf_overflow error_description_r err sup file line func e st
       = (Returned ER_BREAK, st', t) ∧ EvDebugBreak ∉ t).
Proof.
  intros Hnz Hs Hwr Hdr Hcr Hans. split.
  - unfold debug_assert_failed. by apply manual_break_report.
  - unfold debug_warn_err. by apply manual_break_report.
Qed.

End Reactions.

(** A stack trace is in progress, and the call site owning cell 7 has been
    suppressed. *)
Definition state_during_trace_site_suppressed : state :=
  State false 1 {[ 7%nat := DEBUG_SUPPRESS_value ]}.

Lemma nested_report_is_degraded_witness :
  Forall (λ e, heavy e = false)
         (run (Call (call_args (assert_in_walker 1 100)) [suppressed_site] true
                    "inner trace" [] true [] ER_CONTINUE ER_CONTINUE)
              state_during_trace_site_suppressed).2.
Proof.
  apply (nested_report_is_degraded DEBUG_SUPPRESS_value DE_ALLOW_SUPPRESS_value
           DE_MANUAL_BREAK_value id id (call_args (assert_in_walker 1 100))
           [suppressed_site] true "inner trace" [] true [] ER_CONTINUE ER_CONTINUE
           state_during_trace_site_suppressed).
  - discriminate.
  - reflexivity.
  - repeat constructor.
Defined.

(** When [debug_wprintf] does raise an error that is not suppressed, the
    report of that error clears [already_in_progress] on its way out, and
    the report that had found it set goes on to a full stack trace and a
    crash log. *)
Example wprintf_error_releases_guard :
  map kind (run (Call (call_args (assert_in_walker 1 100)) [assert_in_walker 2 200] true
                      "inner trace" [] true [] ER_CONTINUE ER_CONTINUE)
                state_during_trace).2
  = [KDebugWprintf;
       KDebugWprintf; KAhDisplayError;
     KDumpStackBegin; KDumpStackEnd; KCrashlogBegin; KCrashlogWritten; KAhDisplayError].
Proof. vm_compute. reflexivity. Qed.

(** A failed call reported from [file_open], at the call site owning
    suppress cell 7; the user answers "Suppress". *)
Definition report_answered_suppress : call :=
  Call (Args "Function call failed" 0 1 0
             (Some "source/lib/res/file.cpp") 120 (Some "file_open") (Some 7%nat))
       [] true "trace" [] true [] ER_NOT_IMPLEMENTED ER_SUPPRESS.

Lemma suppress_answer_silences_site_witness :
  ER_CONTINUE = ER_CONTINUE
  ∧ read_cell (run report_answered_suppress state_init).1.2 7 = DEBUG_SUPPRESS_value
  ∧ run suppressed_site (run report_answered_suppress state_init).1.2
    = (Returned ER_CONTINUE, (run report_answered_suppress state_init).1.2, []).
Proof.
  apply (suppress_answer_silences_site DEBUG_SUPPRESS_value DE_ALLOW_SUPPRESS_value
           DE_MANUAL_BREAK_value id id report_answered_suppress suppressed_site
           state_init (run report_answered_suppress state_init).1.2 ER_CONTINUE
           (run report_answered_suppress state_init).2 7).
  - reflexivity.
  - reflexivity.
  - reflexivity.
  - vm_compute. reflexivity.
  - reflexivity.
Defined.

Lemma exit_answer_ends_process_witness :
  let r := run (Call (call_args atexit_report) [] true "trace" [] true []
                     ER_NOT_IMPLEMENTED ER_EXIT) state_init in
  r.1 = (ProcessExit, State true 0 (suppress_cells state_init))
  ∧ last r.2 = Some EvExitFailure
  ∧ ∀ c2 l, suppress (call_args c2) = Some l →
      run c2 r.1.2 = (Returned ER_CONTINUE, r.1.2, []).
Proof.
  apply (exit_answer_ends_process DEBUG_SUPPRESS_value DE_ALLOW_SUPPRESS_value
           DE_MANUAL_BREAK_value id id (call_args atexit_report) true "trace" true
           ER_NOT_IMPLEMENTED ER_EXIT state_init).
  - reflexivity.
  - reflexivity.
Defined.

Lemma suppress_answer_without_cell_stores_through_null_witness :
  ∃ text t, run (Call (call_args atexit_report) [] true "trace" [] true []
                      ER_NOT_IMPLEMENTED ER_SUPPRESS) state_init
            = (NullStore, State (exit_requested state_init) 0 (suppress_cells state_init), t)
            ∧ EvAhDisplayError text (flags (call_args atexit_report)) ∈ t.
Proof.
  apply (suppress_answer_without_cell_stores_through_null DEBUG_SUPPRESS_value
           DE_ALLOW_SUPPRESS_value DE_MANUAL_BREAK_value id id
           (call_args atexit_report) true "trace" true ER_NOT_IMPLEMENTED ER_SUPPRESS
           state_init).
  - reflexivity.
  - reflexivity.
Defined.

(** The display hooks answer "Break"; nothing goes wrong while the report
    is built. *)
Definition user_breaks : surroundings :=
  Surroundings [] true "trace" [] true [] ER_NOT_IMPLEMENTED ER_BREAK.

Lemma break_is_left_to_the_macro_witness :
  (∃ st' t,
     debug_assert_failed DEBUG_SUPPRESS_value DE_ALLOW_SUPPRESS_value DE_MANUAL_BREAK_value
       id id (λ n s, substring 0 (Z.to_nat (n - 1)) s)
       "p != 0" (Some 3%nat) (Some "source/lib/allocators.cpp") 55 (Some "pool_alloc")
       user_breaks state_init
     = (Returned ER_BREAK, st', t) ∧ EvDebugBreak ∉ t)
  ∧ (∃ st' t,
       debug_warn_err DEBUG_SUPPRESS_value DE_ALLOW_SUPPRESS_value DE_MANUAL_BREAK_value
         id id (λ n s, substring 0 (Z.to_nat (n - 1)) s) (λ _, "Not enough memory")
         (-100) (Some 3%nat) (Some "source/lib/allocators.cpp") 55 (Some "pool_alloc")
         user_breaks state_init
       = (Returned ER_BREAK, st', t) ∧ EvDebugBreak ∉ t).
Proof.
  apply (break_is_left_to_the_macro DEBUG_SUPPRESS_value DE_ALLOW_SUPPRESS_value
           DE_MANUAL_BREAK_value id id (λ n s, substring 0 (Z.to_nat (n - 1)) s)
           (λ _, "Not enough memory") "p != 0" (-100) (Some 3%nat)
           (Some "source/lib/allocators.cpp") 55 (Some "pool_alloc")
           user_breaks state_init).
  - discriminate.
  - reflexivity.
  - reflexivity.
  - reflexivity.
  - reflexivity.
  - reflexivity.
Defined.

End ErrorReporterFacts.

(* ===================================================================== *)
(** * Properties of the activity log                                       *)
(* ===================================================================== *)

Module ActivityLogFacts.
Import ActivityLog.

Lemma log_store_Some (buf : list Z) (pos : Z) (data : list Z) :
  0 ≤ pos → pos + Z.of_nat (length data) ≤ Z.of_nat (length buf) →
  ∃ buf', store buf pos data = Some buf' ∧ length buf' = length buf.
Proof.
  intros H0 H1. unfold store.
  destruct (Z.leb_spec 0 pos); [|lia].
  destruct (Z.leb_spec (pos + Z.of_nat (length data)) (Z.of_nat (length buf))); [|lia].
  eexists; split; [reflexivity|].
  rewrite !length_app, length_take, length_drop. lia.
Qed.

Lemma log_store_length (buf : list Z) (pos : Z) (data buf' : list Z) :
  store buf pos data = Some buf' → length buf' = length buf.
Proof.
  unfold store. destruct (_ && _) eqn:Hb; [|done].
  apply andb_true_iff in Hb as [Hb1 Hb2].
  apply Z.leb_le in Hb1, Hb2. intros [= <-].
  rewrite !length_app, length_take, length_drop. lia.
Qed.

Lemma log_store_None (buf : list Z) (pos : Z) (data : list Z) :
  Z.of_nat (length buf) < pos + Z.of_nat (length data) →
  store buf pos data = None.
Proof.
  intros H. unfold store.
  destruct (Z.leb_spec (pos + Z.of_nat (length data)) (Z.of_nat (length buf))); [lia|].
  by rewrite andb_false_r.
Qed.

(** The array keeps its size and the cursor moves back by half of it. *)
Lemma compact_length (l : log) :
  Z.of_nat (length (debug_log l)) = LOG_CHARS →
  Z.of_nat (length (debug_log (compact l))) = LOG_CHARS.
Proof.
  unfold compact, LOG_CHARS. cbn [debug_log]. intros H.
  change (Z.to_nat (16384 / 2)) with (Z.to_nat 8192).
  rewrite !length_app, !length_take, !length_drop, !length_app, !length_take,
    !length_drop, length_replicate. lia.
Qed.

Lemma compact_pos (l : log) :
  debug_log_pos (compact l) = debug_log_pos l - LOG_CHARS / 2.
Proof. reflexivity. Qed.

(** Compaction moves the second half of the array, as it stands, to the
    start, and zeroes the second half. *)
Lemma compact_contents (l : log) :
  Z.of_nat (length (debug_log l)) = LOG_CHARS →
  take (Z.to_nat (LOG_CHARS / 2)) (debug_log (compact l))
  = drop (Z.to_nat (LOG_CHARS / 2)) (debug_log l)
  ∧ drop (Z.to_nat (LOG_CHARS / 2)) (debug_log (compact l))
    = replicate (Z.to_nat (LOG_CHARS / 2)) 0.
Proof.
  unfold compact, LOG_CHARS. cbn [debug_log]. intros H.
  change (Z.to_nat (16384 / 2)) with (Z.to_nat 8192).
  remember (Z.to_nat 8192) as half eqn:Ehalf.
  remember (debug_log l) as buf eqn:Ebuf.
  assert (half = length (drop half buf)) as Hd by (rewrite length_drop; lia).
  rewrite (take_ge (drop half buf) half) by lia.
  rewrite (take_app_length' _ _ half Hd).
  assert (drop (half + half) (drop half buf ++ drop half buf) = []) as ->
    by (apply drop_ge; rewrite length_app; lia).
  rewrite app_nil_r. split.
  - by apply take_app_length'.
  - by apply drop_app_length'.
Qed.

(** The part of [debug_wprintf_mem] after the compaction branch. *)
Definition write_line (libc : printf_family) (l1 : log) (n : Z) (ln : line) : outcome :=
  match vswprintf libc (debug_log l1) (debug_log_pos l1) n ln with
  | (None, _) => Overrun
  | (Some buf, len) =>
      if len <? 0 then Dropped (Log buf (debug_log_pos l1))
      else
        let pos := debug_log_pos l1 + (len + 2) in
        match store buf (pos - 2) [13; 10; 0] with
        | Some buf' => Appended (Log buf' pos)
        | None => Overrun
        end
  end.

Lemma debug_wprintf_mem_unfold (libc : printf_family) (l : log) (ln : line) :
  debug_wprintf_mem libc l ln
  = write_line libc (if LOG_CHARS - debug_log_pos l <? 512 then compact l else l)
               (wrap_size (LOG_CHARS - debug_log_pos l - 2)) ln.
Proof. reflexivity. Qed.

(** The array is [LOG_CHARS] long and the cursor leaves room for the
    terminator. *)
Definition log_ok (l : log) : Prop :=
  Z.of_nat (length (debug_log l)) = LOG_CHARS
  ∧ 0 ≤ debug_log_pos l ≤ LOG_CHARS - 1.

Lemma log_init_ok : log_ok log_init.
Proof.
  unfold log_ok, log_init, LOG_CHARS. cbn [debug_log debug_log_pos].
  rewrite length_replicate. lia.
Qed.

Lemma exact_fit_true (libc : printf_family) (n : Z) (ln : line) :
  exact_fit libc n ln = true →
  libc = Win32 ∧ format_fails ln = false ∧ Z.of_nat (length (text ln)) = n.
Proof.
  destruct libc; [done|]. cbn [exact_fit].
  intros [Hok Hn]%andb_true_iff. apply negb_true_iff in Hok. apply Z.eqb_eq in Hn. done.
Qed.

(** Writing stays inside the array when the count given to [vswprintf], or
    else the text itself, leaves two characters for the line terminator,
    and three when the Win32 function takes the text as an exact fit. *)
Lemma write_line_fits (libc : printf_family) (l1 : log) (n : Z) (ln : line) :
  Z.of_nat (length (debug_log l1)) = LOG_CHARS →
  0 ≤ debug_log_pos l1 → 0 ≤ n →
  debug_log_pos l1 + Z.min n (Z.of_nat (length (text ln)) + 1) + 2 ≤ LOG_CHARS →
  (exact_fit libc n ln = true → debug_log_pos l1 + n + 3 ≤ LOG_CHARS) →
  ∃ l', (write_line libc l1 n ln = Appended l' ∨ write_line libc l1 n ln = Dropped l')
        ∧ log_ok l'.
Proof.
  intros Hlen Hpos Hn Hfit Hexact. unfold write_line, vswprintf.
  destruct (format_fails ln || (n <=? Z.of_nat (length (text ln)))) eqn:Hfail.
  - destruct (log_store_Some (debug_log l1) (debug_log_pos l1)
                (take (Z.to_nat n) (text ln))) as (buf & -> & Hbuf).
    { lia. } { rewrite length_take. lia. }
    destruct (exact_fit libc n ln) eqn:He.
    + destruct (exact_fit_true libc n ln He) as (_ & _ & Hfill).
      specialize (Hexact eq_refl).
      destruct (Z.ltb_spec (Z.of_nat (length (text ln))) 0); [lia|].
      cbn zeta.
      destruct (log_store_Some buf
                  (debug_log_pos l1 + (Z.of_nat (length (text ln)) + 2) - 2)
                  [13; 10; 0]) as (buf' & -> & Hbuf').
      { lia. } { cbn [length]. lia. }
      eexists. split; [by left|].
      unfold log_ok; cbn [debug_log debug_log_pos]. rewrite Hbuf', Hbuf. lia.
    + change (-1 <? 0) with true. cbn iota.
      exists (Log buf (debug_log_pos l1)). split; [by right|].
      unfold log_ok; cbn [debug_log debug_log_pos]. rewrite Hbuf. lia.
  - apply orb_false_iff in Hfail as [_ Hle]. apply Z.leb_gt in Hle.
    destruct (log_store_Some (debug_log l1) (debug_log_pos l1) (text ln ++ [0]))
      as (buf & -> & Hbuf).
    { lia. } { rewrite length_app. cbn [length]. lia. }
    destruct (Z.ltb_spec (Z.of_nat (length (text ln))) 0); [lia|].
    cbn zeta.
    destruct (log_store_Some buf
                (debug_log_pos l1 + (Z.of_nat (length (text ln)) + 2) - 2)
                [13; 10; 0]) as (buf' & -> & Hbuf').
    { lia. } { cbn [length]. lia. }
    eexists. split; [by left|].
    unfold log_ok; cbn [debug_log debug_log_pos]. rewrite Hbuf', Hbuf. lia.
Qed.

(** A text that fits the count and the array is appended, and the cursor
    moves past it and the two characters of the line terminator. *)
Lemma write_line_appends (libc : printf_family) (l1 : log) (n : Z) (ln : line) :
  format_fails ln = false →
  Z.of_nat (length (text ln)) < n →
  0 ≤ debug_log_pos l1 →
  debug_log_pos l1 + Z.of_nat (length (text ln)) + 3 ≤ LOG_CHARS →
  Z.of_nat (length (debug_log l1)) = LOG_CHARS →
  ∃ buf, write_line libc l1 n ln
         = Appended (Log buf (debug_log_pos l1 + (Z.of_nat (length (text ln)) + 2)))
         ∧ Z.of_nat (length buf) = LOG_CHARS.
Proof.
  intros Hok Hlt Hpos Hfit Hlen. unfold write_line, vswprintf.
  rewrite Hok. cbn [orb].
  destruct (Z.leb_spec n (Z.of_nat (length (text ln)))); [lia|].
  destruct (log_store_Some (debug_log l1) (debug_log_pos l1) (text ln ++ [0]))
    as (buf & -> & Hbuf).
  { lia. } { rewrite length_app. cbn [length]. lia. }
  destruct (Z.ltb_spec (Z.of_nat (length (text ln))) 0); [lia|].
  cbn zeta.
  destruct (log_store_Some buf
              (debug_log_pos l1 + (Z.of_nat (length (text ln)) + 2) - 2)
              [13; 10; 0]) as (buf' & -> & Hbuf').
  { lia. } { cbn [length]. lia. }
  exists buf'. split; [done|]. rewrite Hbuf', Hbuf. done.
Qed.

(** Writing leaves the array when the count does not stop a text that,
    with its line terminator, reaches beyond the end. *)
Lemma write_line_overruns (libc : printf_family) (l1 : log) (n : Z) (ln : line) :
  format_fails ln = false →
  Z.of_nat (length (text ln)) < n →
  LOG_CHARS < debug_log_pos l1 + Z.of_nat (length (text ln)) + 3 →
  Z.of_nat (length (debug_log l1)) = LOG_CHARS →
  write_line libc l1 n ln = Overrun.
Proof.
  intros Hok Hlt Hbig Hlen. unfold write_line, vswprintf.
  rewrite Hok. cbn [orb].
  destruct (Z.leb_spec n (Z.of_nat (length (text ln)))); [lia|].
  destruct (store (debug_log l1) (debug_log_pos l1) (text ln ++ [0]))
    as [buf|] eqn:Hst; [|done].
  pose proof (log_store_length _ _ _ _ Hst) as Hbuf.
  destruct (Z.ltb_spec (Z.of_nat (length (text ln))) 0); [lia|].
  cbn zeta. rewrite log_store_None; [done|].
  rewrite Hbuf. cbn [length]. lia.
Qed.

(** Texts up to this length are safe in every state: half the array less
    the line terminator with C99's [vswprintf]; with the Win32 function,
    which takes an exact fit, what stays below the 512 characters at which
    the log is compacted. *)
Definition short_limit (libc : printf_family) : Z :=
  match libc with
  | C99 => LOG_CHARS / 2 - 2
  | Win32 => 512 - 3
  end.

Lemma short_limit_le (libc : printf_family) : 509 ≤ short_limit libc ≤ LOG_CHARS / 2 - 2.
Proof. destruct libc; vm_compute; split; discriminate. Qed.

(** One call keeps the array and the cursor in order as long as the text
    is at most [short_limit] characters long. *)
Lemma debug_wprintf_mem_ok (libc : printf_family) (l : log) (ln : line) :
  log_ok l →
  Z.of_nat (length (text ln)) ≤ short_limit libc →
  ∃ l', (debug_wprintf_mem libc l ln = Appended l'
         ∨ debug_wprintf_mem libc l ln = Dropped l')
        ∧ log_ok l'.
Proof.
  intros [Hlen Hpos] Htext. rewrite debug_wprintf_mem_unfold.
  pose proof (compact_length l Hlen) as Hclen.
  pose proof (compact_pos l) as Hcpos.
  pose proof (short_limit_le libc) as Hlimit.
  assert (∀ n, exact_fit libc n ln = true →
               Z.of_nat (length (text ln)) = n ∧ n ≤ 509) as Hexact.
  { intros n He. destruct (exact_fit_true libc n ln He) as (-> & _ & Hfill).
    cbn [short_limit] in Htext. lia. }
  unfold LOG_CHARS, wrap_size, SIZE_MOD in *.
  change (16384 / 2) with 8192 in *.
  destruct (Z.ltb_spec (16384 - debug_log_pos l) 512) as [Hlow|Hroom].
  - destruct (decide (debug_log_pos l = 16383)) as [Hlast|Hnot].
    + (* one character left: the count wraps to SIZE_MAX *)
      rewrite Hlast in *. change ((16384 - 16383 - 2) mod 2 ^ 32) with 4294967295.
      apply write_line_fits; unfold LOG_CHARS; try lia.
      intros He. apply Hexact in He. lia.
    + rewrite Z.mod_small by lia.
      apply write_line_fits; unfold LOG_CHARS; try lia.
  - rewrite Z.mod_small by lia.
    apply write_line_fits; unfold LOG_CHARS; try lia.
    intros He. apply Hexact in He. lia.
Qed.

(** Safety for short texts: from a log in order, any run of calls whose
    texts are at most [short_limit] characters long stays inside the
    array, with the cursor at most [LOG_CHARS - 1]. *)
Lemma append_all_short_lines_ok (libc : printf_family) (lns : list line) : ∀ l : log,
  log_ok l →
  Forall (λ ln, Z.of_nat (length (text ln)) ≤ short_limit libc) lns →
  ∃ l', append_all libc l lns = Some l' ∧ log_ok l'.
Proof.
  induction lns as [|ln lns IH]; intros l Hl Hall.
  - by exists l.
  - apply Forall_cons in Hall as [Hln Hall].
    destruct (debug_wprintf_mem_ok libc l ln Hl Hln) as (l1 & [H1|H1] & Hl1);
      cbn [append_all]; rewrite H1; by apply IH.
Qed.

(** C7, at the input where the code departs from it. When the cursor stands
    at [LOG_CHARS - 1], [chars_left] is 1: the log is compacted, the cursor
    moves to [LOG_CHARS/2 - 1], and the count handed to [vswprintf] is
    [chars_left - 2 = -1] converted to [size_t], which bounds nothing.
    A text of [LOG_CHARS/2 - 1] characters or more is then stored, with its
    line terminator, past the end of [debug_log]. *)
Theorem debug_wprintf_mem_overruns (libc : printf_family) (l : log) (ln : line) :
  Z.of_nat (length (debug_log l)) = LOG_CHARS →
  debug_log_pos l = LOG_CHARS - 1 →
  format_fails ln = false →
  LOG_CHARS / 2 - 1 ≤ Z.of_nat (length (text ln)) < SIZE_MOD - 1 →
  debug_wprintf_mem libc l ln = Overrun.
Proof.
  intros Hlen Hpos Hok Htext. rewrite debug_wprintf_mem_unfold.
  pose proof (compact_length l Hlen) as Hclen.
  pose proof (compact_pos l) as Hcpos.
  rewrite Hpos in *.
  unfold LOG_CHARS, wrap_size, SIZE_MOD in *.
  change (16384 - (16384 - 1) <? 512) with true. cbn iota.
  change ((16384 - (16384 - 1) - 2) mod 2 ^ 32) with 4294967295.
  change (16384 / 2) with 8192 in *. change (2 ^ 32) with 4294967296 in *.
  apply write_line_overruns; unfold LOG_CHARS; try done; lia.
Qed.

(** The cursor reaches [LOG_CHARS - 1] from the empty log with one text of
    [LOG_CHARS - 3] characters. *)
Lemma cursor_reaches_last_cell (libc : printf_family) (c : Z) :
  ∃ l, debug_wprintf_mem libc log_init
         (Line (replicate (Z.to_nat (LOG_CHARS - 3)) c) false)
       = Appended l
       ∧ Z.of_nat (length (debug_log l)) = LOG_CHARS
       ∧ debug_log_pos l = LOG_CHARS - 1.
Proof.
  rewrite debug_wprintf_mem_unfold.
  change (LOG_CHARS - debug_log_pos log_init <? 512) with false. cbn iota.
  change (wrap_size (LOG_CHARS - debug_log_pos log_init - 2)) with 16382.
  destruct (write_line_appends libc log_init 16382
              (Line (replicate (Z.to_nat (LOG_CHARS - 3)) c) false))
    as (buf & -> & Hbuf); cbn [text format_fails debug_log_pos log_init debug_log];
    rewrite ?length_replicate; unfold LOG_CHARS; try lia; try done.
  eexists. split; [reflexivity|]. cbn [debug_log debug_log_pos].
  unfold LOG_CHARS in Hbuf. lia.
Qed.

(** Two calls from the empty log: a text of 16381 characters, then one of
    9000. *)
Lemma debug_wprintf_mem_overruns_witness :
  append_all C99 log_init [Line (replicate (Z.to_nat 16381) 65) false;
                           Line (replicate (Z.to_nat 9000) 66) false]
  = None
  ∧ append_all Win32 log_init [Line (replicate (Z.to_nat 16381) 65) false;
                               Line (replicate (Z.to_nat 9000) 66) false]
    = None.
Proof.
  assert (∀ libc, append_all libc log_init
                    [Line (replicate (Z.to_nat 16381) 65) false;
                     Line (replicate (Z.to_nat 9000) 66) false] = None) as Hboth.
  { intros libc. cbn [append_all].
    destruct (cursor_reaches_last_cell libc 65) as (l & Hfirst & Hlen & Hpos).
    change (Z.to_nat (LOG_CHARS - 3)) with (Z.to_nat 16381) in Hfirst.
    rewrite Hfirst.
    rewrite (debug_wprintf_mem_overruns libc l
               (Line (replicate (Z.to_nat 9000) 66) false) Hlen Hpos).
    - reflexivity.
    - reflexivity.
    - cbn [text]. rewrite length_replicate. vm_compute.
      split; [discriminate | reflexivity]. }
  split; apply Hboth.
Defined.

(** ** What a call leaves in the log *)

(** The array after a text has been stored with its line terminator. *)
Lemma write_line_exact (libc : printf_family) (l1 : log) (n : Z) (ln : line) :
  format_fails ln = false →
  Z.of_nat (length (text ln)) < n →
  0 ≤ debug_log_pos l1 →
  debug_log_pos l1 + Z.of_nat (length (text ln)) + 3 ≤ Z.of_nat (length (debug_log l1)) →
  write_line libc l1 n ln
  = Appended
      (Log (take (Z.to_nat (debug_log_pos l1)) (debug_log l1) ++ text ln ++ [13; 10; 0]
            ++ drop (Z.to_nat (debug_log_pos l1) + length (text ln) + 3) (debug_log l1))
           (debug_log_pos l1 + (Z.of_nat (length (text ln)) + 2))).
Proof.
  intros Hok Hlt Hpos Hfit. unfold write_line, vswprintf.
  rewrite Hok. cbn [orb].
  destruct (Z.leb_spec n (Z.of_nat (length (text ln)))); [lia|].
  remember (debug_log l1) as L eqn:EL. remember (debug_log_pos l1) as p eqn:Ep.
  remember (text ln) as T eqn:ET.
  set (A := take (Z.to_nat p) L).
  assert (length A = Z.to_nat p) as HA by (unfold A; rewrite length_take; lia).
  set (R := drop (Z.to_nat p + length (T ++ [0])) L).
  assert (store L p (T ++ [0]) = Some ((A ++ T) ++ 0 :: R)) as ->.
  { unfold store.
    destruct (Z.leb_spec 0 p); [|lia].
    destruct (Z.leb_spec (p + Z.of_nat (length (T ++ [0]))) (Z.of_nat (length L)));
      [|rewrite length_app in *; cbn [length] in *; lia].
    cbn [andb]. f_equal. by rewrite <- !app_assoc. }
  destruct (Z.ltb_spec (Z.of_nat (length T)) 0); [lia|].
  cbn zeta.
  unfold store.
  destruct (Z.leb_spec 0 (p + (Z.of_nat (length T) + 2) - 2)); [|lia].
  destruct (Z.leb_spec (p + (Z.of_nat (length T) + 2) - 2 + Z.of_nat (length [13; 10; 0]))
              (Z.of_nat (length ((A ++ T) ++ 0 :: R)))) as [_|Hbad].
  2:{ exfalso. revert Hbad. unfold R.
      rewrite !length_app. cbn [length]. rewrite length_drop. lia. }
  cbn [andb]. f_equal. f_equal.
  assert (Z.to_nat (p + (Z.of_nat (length T) + 2) - 2) = length (A ++ T)) as ->
    by (rewrite length_app; lia).
  rewrite take_app_length, drop_app_add. cbn [length drop].
  unfold R. rewrite drop_drop, length_app. cbn [length].
  rewrite <- app_assoc. do 3 f_equal. f_equal. lia.
Qed.

Lemma compact_log (l : log) :
  Z.of_nat (length (debug_log l)) = LOG_CHARS →
  debug_log (compact l)
  = drop (Z.to_nat (LOG_CHARS / 2)) (debug_log l)
    ++ replicate (Z.to_nat (LOG_CHARS / 2)) 0.
Proof.
  intros Hlen. destruct (compact_contents l Hlen) as [Ht Hd].
  rewrite <- Ht, <- Hd. by rewrite take_drop.
Qed.

(** Append, then read back: while 512 characters or more are left and the
    text leaves room for its terminator, the call stores the text, CR, LF
    and a terminator at the cursor, touches nothing else, and moves the
    cursor behind the LF. *)
Theorem appended_text_is_stored_at_cursor (libc : printf_family) (l : log) (ln : line) :
  Z.of_nat (length (debug_log l)) = LOG_CHARS →
  0 ≤ debug_log_pos l →
  512 ≤ LOG_CHARS - debug_log_pos l →
  format_fails ln = false →
  Z.of_nat (length (text ln)) < LOG_CHARS - debug_log_pos l - 2 →
  debug_wprintf_mem libc l ln
  = Appended
      (Log (take (Z.to_nat (debug_log_pos l)) (debug_log l) ++ text ln ++ [13; 10; 0]
            ++ drop (Z.to_nat (debug_log_pos l) + length (text ln) + 3) (debug_log l))
           (debug_log_pos l + (Z.of_nat (length (text ln)) + 2))).
Proof.
  intros Hlen Hpos Hroom Hok Hfit. rewrite debug_wprintf_mem_unfold.
  destruct (Z.ltb_spec (LOG_CHARS - debug_log_pos l) 512); [lia|].
  apply write_line_exact; try done.
  - unfold wrap_size, SIZE_MOD, LOG_CHARS in *. rewrite Z.mod_small; lia.
  - lia.
Qed.

Lemma appended_text_is_stored_at_cursor_witness :
  debug_wprintf_mem Win32 log_init (Line [72; 105] false)
  = Appended
      (Log (take (Z.to_nat (debug_log_pos log_init)) (debug_log log_init)
            ++ text (Line [72; 105] false) ++ [13; 10; 0]
            ++ drop (Z.to_nat (debug_log_pos log_init)
                     + length (text (Line [72; 105] false)) + 3) (debug_log log_init))
           (debug_log_pos log_init + (Z.of_nat (length (text (Line [72; 105] false))) + 2))).
Proof.
  apply (appended_text_is_stored_at_cursor Win32 log_init (Line [72; 105] false)).
  - apply log_init_ok.
  - apply log_init_ok.
  - vm_compute. discriminate.
  - reflexivity.
  - vm_compute. reflexivity.
Defined.

(** With fewer than 512 characters left, the older half of the log is
    thrown away first: the newer half moves to the start of the array,
    its place is zeroed, and the text goes to the cursor as moved back by
    [LOG_CHARS/2]. *)
Theorem compaction_keeps_newer_half (libc : printf_family) (l : log) (ln : line) :
  Z.of_nat (length (debug_log l)) = LOG_CHARS →
  LOG_CHARS - 512 < debug_log_pos l ≤ LOG_CHARS - 3 →
  format_fails ln = false →
  Z.of_nat (length (text ln)) < LOG_CHARS - debug_log_pos l - 2 →
  let kept := drop (Z.to_nat (LOG_CHARS / 2)) (debug_log l)
              ++ replicate (Z.to_nat (LOG_CHARS / 2)) 0 in
  let pos := debug_log_pos l - LOG_CHARS / 2 in
  debug_wprintf_mem libc l ln
  = Appended
      (Log (take (Z.to_nat pos) kept ++ text ln ++ [13; 10; 0]
            ++ drop (Z.to_nat pos + length (text ln) + 3) kept)
           (pos + (Z.of_nat (length (text ln)) + 2))).
Proof.
  intros Hlen Hpos Hok Hfit kept pos. rewrite debug_wprintf_mem_unfold.
  destruct (Z.ltb_spec (LOG_CHARS - debug_log_pos l) 512); [|lia].
  pose proof (compact_length l Hlen) as Hclen.
  rewrite (write_line_exact libc (compact l)); try done.
  - rewrite compact_log by done. reflexivity.
  - unfold wrap_size, SIZE_MOD, LOG_CHARS in *. rewrite Z.mod_small; lia.
  - rewrite compact_pos. unfold LOG_CHARS in *. change (16384 / 2) with 8192. lia.
  - rewrite compact_pos, Hclen. unfold LOG_CHARS in *. change (16384 / 2) with 8192. lia.
Qed.

(** The log with the cursor 100 characters before the end. *)
Definition nearly_full_log : log :=
  Log (replicate (Z.to_nat (LOG_CHARS - 100)) 65 ++ replicate 100 0) (LOG_CHARS - 100).

Lemma compaction_keeps_newer_half_witness :
  let kept := drop (Z.to_nat (LOG_CHARS / 2)) (debug_log nearly_full_log)
              ++ replicate (Z.to_nat (LOG_CHARS / 2)) 0 in
  let pos := debug_log_pos nearly_full_log - LOG_CHARS / 2 in
  debug_wprintf_mem Win32 nearly_full_log (Line [72; 105] false)
  = Appended
      (Log (take (Z.to_nat pos) kept ++ text (Line [72; 105] false) ++ [13; 10; 0]
            ++ drop (Z.to_nat pos + length (text (Line [72; 105] false)) + 3) kept)
           (pos + (Z.of_nat (length (text (Line [72; 105] false))) + 2))).
Proof.
  apply (compaction_keeps_newer_half Win32 nearly_full_log (Line [72; 105] false)).
  - unfold nearly_full_log. cbn [debug_log].
    rewrite length_app, !length_replicate. unfold LOG_CHARS. lia.
  - unfold nearly_full_log, LOG_CHARS. cbn [debug_log_pos]. lia.
  - reflexivity.
  - unfold nearly_full_log, LOG_CHARS. cbn [debug_log_pos text length]. lia.
Defined.

(** The count handed to [vswprintf] is the one computed before the
    compaction. So with [chars_left] below 512 a text of [chars_left - 2]
    characters or more is dropped ("vswprintf failed"), unless the Win32
    function takes it as an exact fit, and the cursor stays where the
    compaction put it, although more than half of the array is free by
    then. *)
Theorem text_dropped_after_compaction (libc : printf_family) (l : log) (ln : line) :
  Z.of_nat (length (debug_log l)) = LOG_CHARS →
  LOG_CHARS - 512 < debug_log_pos l ≤ LOG_CHARS - 2 →
  LOG_CHARS - debug_log_pos l - 2 ≤ Z.of_nat (length (text ln)) →
  exact_fit libc (LOG_CHARS - debug_log_pos l - 2) ln = false →
  ∃ buf, debug_wprintf_mem libc l ln
         = Dropped (Log buf (debug_log_pos l - LOG_CHARS / 2))
         ∧ Z.of_nat (length buf) = LOG_CHARS.
Proof.
  intros Hlen Hpos Hlong Hexact. rewrite debug_wprintf_mem_unfold.
  destruct (Z.ltb_spec (LOG_CHARS - debug_log_pos l) 512); [|lia].
  pose proof (compact_length l Hlen) as Hclen.
  unfold write_line, vswprintf.
  assert (wrap_size (LOG_CHARS - debug_log_pos l - 2) = LOG_CHARS - debug_log_pos l - 2)
    as -> by (unfold wrap_size, SIZE_MOD, LOG_CHARS in *; rewrite Z.mod_small; lia).
  destruct (Z.leb_spec (LOG_CHARS - debug_log_pos l - 2) (Z.of_nat (length (text ln))));
    [|lia].
  rewrite orb_true_r, Hexact.
  destruct (log_store_Some (debug_log (compact l)) (debug_log_pos (compact l))
              (take (Z.to_nat (LOG_CHARS - debug_log_pos l - 2)) (text ln)))
    as (buf & -> & Hbuf).
  { rewrite compact_pos. unfold LOG_CHARS in *. change (16384 / 2) with 8192. lia. }
  { rewrite compact_pos, Hclen, length_take. unfold LOG_CHARS in *.
    change (16384 / 2) with 8192. lia. }
  change (-1 <? 0) with true. cbn iota.
  exists buf. split; [by rewrite compact_pos|]. by rewrite Hbuf.
Qed.

Lemma text_dropped_after_compaction_witness :
  ∃ buf, debug_wprintf_mem Win32 nearly_full_log (Line (replicate 99 66) false)
         = Dropped (Log buf (debug_log_pos nearly_full_log - LOG_CHARS / 2))
         ∧ Z.of_nat (length buf) = LOG_CHARS.
Proof.
  apply (text_dropped_after_compaction Win32 nearly_full_log
           (Line (replicate 99 66) false)).
  - unfold nearly_full_log. cbn [debug_log].
    rewrite length_app, !length_replicate. unfold LOG_CHARS. lia.
  - unfold nearly_full_log, LOG_CHARS. cbn [debug_log_pos]. lia.
  - unfold nearly_full_log, LOG_CHARS. cbn [debug_log_pos text].
    rewrite length_replicate. lia.
  - reflexivity.
Defined.

(** ** Bounds *)

(** With the cursor anywhere but on the last cell, a call stays inside the
    array whatever the text and its length, and leaves a cursor inside
    the array; the one exception is a text that the Win32 function takes
    as an exact fit while 512 characters or more are left. *)
Theorem no_overrun_below_last_cell (libc : printf_family) (l : log) (ln : line) :
  Z.of_nat (length (debug_log l)) = LOG_CHARS →
  0 ≤ debug_log_pos l ≤ LOG_CHARS - 2 →
  (512 ≤ LOG_CHARS - debug_log_pos l →
   exact_fit libc (LOG_CHARS - debug_log_pos l - 2) ln = false) →
  ∃ l', (debug_wprintf_mem libc l ln = Appended l'
         ∨ debug_wprintf_mem libc l ln = Dropped l')
        ∧ Z.of_nat (length (debug_log l')) = LOG_CHARS
        ∧ 0 ≤ debug_log_pos l' ≤ LOG_CHARS - 1.
Proof.
  intros Hlen Hpos Hexact. rewrite debug_wprintf_mem_unfold.
  pose proof (compact_length l Hlen) as Hclen.
  pose proof (compact_pos l) as Hcpos.
  assert (wrap_size (LOG_CHARS - debug_log_pos l - 2) = LOG_CHARS - debug_log_pos l - 2)
    as -> by (unfold wrap_size, SIZE_MOD, LOG_CHARS in *; rewrite Z.mod_small; lia).
  unfold LOG_CHARS in *. change (16384 / 2) with 8192 in *.
  destruct (Z.ltb_spec (16384 - debug_log_pos l) 512).
  - apply write_line_fits; unfold LOG_CHARS; lia.
  - apply write_line_fits; unfold LOG_CHARS; try lia.
    intros He. rewrite Hexact in He by lia. discriminate.
Qed.

Lemma no_overrun_below_last_cell_witness :
  ∃ l', (debug_wprintf_mem Win32 nearly_full_log (Line (replicate 98 66) false)
         = Appended l'
         ∨ debug_wprintf_mem Win32 nearly_full_log (Line (replicate 98 66) false)
           = Dropped l')
        ∧ Z.of_nat (length (debug_log l')) = LOG_CHARS
        ∧ 0 ≤ debug_log_pos l' ≤ LOG_CHARS - 1.
Proof.
  apply (no_overrun_below_last_cell Win32 nearly_full_log
           (Line (replicate 98 66) false)).
  - unfold nearly_full_log. cbn [debug_log].
    rewrite length_app, !length_replicate. unfold LOG_CHARS. lia.
  - unfold nearly_full_log, LOG_CHARS. cbn [debug_log_pos]. lia.
  - unfold nearly_full_log, LOG_CHARS. cbn [debug_log_pos]. lia.
Defined.

(** That exception is an overrun: with 512 characters or more left, a text
    of exactly [chars_left - 2] characters is taken by the Win32 function
    without room for a terminator, the cursor moves to [LOG_CHARS], and
    the terminator of the line end is stored at [debug_log[LOG_CHARS]]. *)
Theorem exact_fit_overruns (l : log) (ln : line) :
  Z.of_nat (length (debug_log l)) = LOG_CHARS →
  0 ≤ debug_log_pos l →
  512 ≤ LOG_CHARS - debug_log_pos l →
  format_fails ln = false →
  Z.of_nat (length (text ln)) = LOG_CHARS - debug_log_pos l - 2 →
  debug_wprintf_mem Win32 l ln = Overrun.
Proof.
  intros Hlen Hpos Hroom Hok Hfill. rewrite debug_wprintf_mem_unfold.
  destruct (Z.ltb_spec (LOG_CHARS - debug_log_pos l) 512); [lia|].
  assert (wrap_size (LOG_CHARS - debug_log_pos l - 2) = LOG_CHARS - debug_log_pos l - 2)
    as -> by (unfold wrap_size, SIZE_MOD, LOG_CHARS in *; rewrite Z.mod_small; lia).
  unfold write_line, vswprintf. cbn [exact_fit]. rewrite Hok, Hfill. cbn [orb negb andb].
  rewrite Z.leb_refl, Z.eqb_refl.
  destruct (log_store_Some (debug_log l) (debug_log_pos l)
              (take (Z.to_nat (LOG_CHARS - debug_log_pos l - 2)) (text ln)))
    as (buf & -> & Hbuf).
  { lia. } { rewrite length_take. lia. }
  destruct (Z.ltb_spec (LOG_CHARS - debug_log_pos l - 2) 0); [lia|].
  cbn zeta. rewrite log_store_None; [done|].
  rewrite Hbuf. cbn [length]. lia.
Qed.

(** From the empty log, a text of [LOG_CHARS - 2] characters. *)
Lemma exact_fit_overruns_witness :
  debug_wprintf_mem Win32 log_init (Line (replicate (Z.to_nat 16382) 65) false) = Overrun.
Proof.
  apply (exact_fit_overruns log_init (Line (replicate (Z.to_nat 16382) 65) false)).
  - apply log_init_ok.
  - apply log_init_ok.
  - vm_compute. discriminate.
  - reflexivity.
  - cbn [text]. rewrite length_replicate. vm_compute. reflexivity.
Defined.

(** From the empty log, a run of calls whose texts are at most
    [short_limit] characters long never leaves the array: 8190 characters
    with C99's [vswprintf], 509 with the Win32 one. *)
Theorem short_texts_never_overrun (libc : printf_family) (lns : list line) :
  Forall (λ ln, Z.of_nat (length (text ln)) ≤ short_limit libc) lns →
  ∃ l, append_all libc log_init lns = Some l
       ∧ Z.of_nat (length (debug_log l)) = LOG_CHARS
       ∧ 0 ≤ debug_log_pos l ≤ LOG_CHARS - 1.
Proof.
  intros Hshort.
  destruct (append_all_short_lines_ok libc lns log_init log_init_ok Hshort)
    as (l & Hl & Hok).
  exists l. split; [done|]. exact Hok.
Qed.

Lemma short_texts_never_overrun_witness :
  (∃ l, append_all C99 log_init
          [Line (replicate (Z.to_nat 8190) 65) false;
           Line (replicate (Z.to_nat 8190) 66) false;
           Line (replicate (Z.to_nat 8190) 67) true; Line [] false] = Some l
        ∧ Z.of_nat (length (debug_log l)) = LOG_CHARS
        ∧ 0 ≤ debug_log_pos l ≤ LOG_CHARS - 1)
  ∧ (∃ l, append_all Win32 log_init
            [Line (replicate (Z.to_nat 509) 65) false;
             Line (replicate (Z.to_nat 509) 66) false;
             Line (replicate (Z.to_nat 509) 67) true; Line [] false] = Some l
          ∧ Z.of_nat (length (debug_log l)) = LOG_CHARS
          ∧ 0 ≤ debug_log_pos l ≤ LOG_CHARS - 1).
Proof.
  split.
  - apply (short_texts_never_overrun C99
             [Line (replicate (Z.to_nat 8190) 65) false;
              Line (replicate (Z.to_nat 8190) 66) false;
              Line (replicate (Z.to_nat 8190) 67) true; Line [] false]).
    repeat constructor; cbn [text]; rewrite ?length_replicate; vm_compute; discriminate.
  - apply (short_texts_never_overrun Win32
             [Line (replicate (Z.to_nat 509) 65) false;
              Line (replicate (Z.to_nat 509) 66) false;
              Line (replicate (Z.to_nat 509) 67) true; Line [] false]).
    repeat constructor; cbn [text]; rewrite ?length_replicate; vm_compute; discriminate.
Defined.

End ActivityLogFacts.

(* ===================================================================== *)
(** * Properties of the symbol cache                                       *)
(* ===================================================================== *)

Module SymbolCacheFacts.
Import SymbolCache.

(** ** C strings *)

Lemma until_nul_app_nul (l r : list ascii) :
  until_nul (l ++ NUL :: r) = until_nul l.
Proof.
  induction l as [|c l IH]; simpl; [done|].
  destruct (c =? NUL)%char; [done|]. by rewrite IH.
Qed.

Lemma list_ascii_of_string_length (s : string) :
  length (list_ascii_of_string s) = String.length s.
Proof. induction s as [|c s IH]; simpl; [done|]. by rewrite IH. Qed.

Lemma until_nul_length (l : list ascii) :
  (String.length (until_nul l) ≤ length l)%nat.
Proof.
  induction l as [|c l IH]; simpl; [done|].
  destruct (c =? NUL)%char; simpl; lia.
Qed.

(** If the string read from [a ++ b] ends inside [a], it does not depend on
    [b]. *)
Lemma until_nul_app_short (a b b' : list ascii) :
  (String.length (until_nul (a ++ b)) < length a)%nat →
  until_nul (a ++ b') = until_nul (a ++ b).
Proof.
  induction a as [|c a IH]; simpl; [lia|].
  destruct (c =? NUL)%char; [done|]. simpl. intros H.
  f_equal. apply IH. lia.
Qed.

(** A C string read back is free of NUL: reading it again changes nothing. *)
Lemma until_nul_idem (l r : list ascii) :
  until_nul (list_ascii_of_string (until_nul l) ++ NUL :: r) = until_nul l.
Proof.
  induction l as [|c l IH]; simpl; [done|].
  destruct (c =? NUL)%char eqn:Hc; simpl; [done|].
  by rewrite Hc, IH.
Qed.

Lemma cstring_length (s : string) : (String.length (cstring s) ≤ String.length s)%nat.
Proof.
  unfold cstring. etrans; [apply until_nul_length|].
  by rewrite list_ascii_of_string_length.
Qed.

(** A prefix of a C string is a C string. *)
Lemma until_nul_substring (n : nat) (l r : list ascii) :
  until_nul (list_ascii_of_string (substring 0 n (until_nul l)) ++ NUL :: r)
  = substring 0 n (until_nul l).
Proof.
  revert n. induction l as [|c l IH]; intros n; simpl.
  - by destruct n.
  - destruct (c =? NUL)%char eqn:Hc; simpl.
    + by destruct n.
    + destruct n as [|n]; simpl; [done|]. by rewrite Hc, IH.
Qed.

Lemma substring_length_le (n : nat) (s : string) :
  (String.length (substring 0 n s) ≤ n)%nat.
Proof.
  revert n. induction s as [|c s IH]; intros [|n]; simpl; try lia.
  specialize (IH n). lia.
Qed.

Lemma substring_length_le' (n : nat) (s : string) :
  (String.length (substring 0 n s) ≤ String.length s)%nat.
Proof.
  revert n. induction s as [|c s IH]; intros [|n]; simpl; try lia.
  specialize (IH n). lia.
Qed.

Lemma string_app_length (s1 s2 : string) :
  String.length (s1 +:+ s2) = (String.length s1 + String.length s2)%nat.
Proof. induction s1 as [|c s1 IH]; simpl; [done|]. by rewrite IH. Qed.

Lemma list_ascii_of_string_app (s1 s2 : string) :
  list_ascii_of_string (s1 +:+ s2) = list_ascii_of_string s1 ++ list_ascii_of_string s2.
Proof. induction s1 as [|c s1 IH]; simpl; [done|]. by rewrite IH. Qed.

(** ** The string buffer *)

Lemma store_length (buf : list ascii) (p : Z) (data buf' : list ascii) :
  store buf p data = Some buf' → length buf' = length buf.
Proof.
  unfold store. destruct (_ && _) eqn:Hb; [|done].
  apply andb_true_iff in Hb as [Hb1 Hb2].
  apply Z.leb_le in Hb1, Hb2. intros [= <-].
  rewrite !length_app, length_take, length_drop. lia.
Qed.

Lemma store_Some (buf : list ascii) (p : Z) (data : list ascii) :
  0 ≤ p → p + Z.of_nat (length data) ≤ Z.of_nat (length buf) →
  store buf p data
  = Some (take (Z.to_nat p) buf ++ data ++ drop (Z.to_nat p + length data) buf).
Proof.
  intros H0 H1. unfold store.
  destruct (Z.leb_spec 0 p); [|lia].
  destruct (Z.leb_spec (p + Z.of_nat (length data)) (Z.of_nat (length buf))); [|lia].
  done.
Qed.

Lemma store_inv (buf : list ascii) (p : Z) (data buf' : list ascii) :
  store buf p data = Some buf' →
  0 ≤ p ∧ p + Z.of_nat (length data) ≤ Z.of_nat (length buf)
  ∧ buf' = take (Z.to_nat p) buf ++ data ++ drop (Z.to_nat p + length data) buf.
Proof.
  unfold store. destruct (_ && _) eqn:Hb; [|done].
  apply andb_true_iff in Hb as [Hb1 Hb2].
  apply Z.leb_le in Hb1, Hb2. by intros [= <-].
Qed.

(** A store at or above [pos] leaves everything below [pos] as it was. *)
Lemma store_take (buf : list ascii) (p pos : Z) (data buf' : list ascii) :
  store buf p data = Some buf' → 0 ≤ pos ≤ p →
  take (Z.to_nat pos) buf' = take (Z.to_nat pos) buf.
Proof.
  intros (H0 & H1 & ->)%store_inv Hpos.
  rewrite take_app_le by (rewrite length_take; lia).
  rewrite take_take. f_equal. lia.
Qed.

(** The C string at [q] is determined by the part of the buffer below
    [pos] as soon as it ends, terminator included, below [pos]. *)
Lemma c_str_below (buf buf' : list ascii) (q pos : Z) :
  take (Z.to_nat pos) buf' = take (Z.to_nat pos) buf →
  pos ≤ Z.of_nat (length buf) →
  0 ≤ q → q + Z.of_nat (String.length (c_str buf q)) + 1 ≤ pos →
  c_str buf' q = c_str buf q.
Proof.
  intros Htake Hpos Hq Hend. unfold c_str in *.
  rewrite <- (take_drop (Z.to_nat pos) buf) in Hend |- *.
  rewrite <- (take_drop (Z.to_nat pos) buf'). rewrite Htake.
  pose proof (until_nul_length (drop (Z.to_nat q)
    (take (Z.to_nat pos) buf ++ drop (Z.to_nat pos) buf))) as Hle.
  rewrite length_drop, length_app, length_take, length_drop in Hle.
  assert (Z.to_nat q ≤ length (take (Z.to_nat pos) buf))%nat as Hq'
    by (rewrite length_take; lia).
  rewrite !drop_app_le by done.
  rewrite drop_app_le in Hend by done.
  apply until_nul_app_short.
  rewrite length_drop, length_take. rewrite length_take in Hq'. lia.
Qed.

(** What is stored with a terminator at [p] is what is read at [p]. *)
Lemma c_str_store (buf : list ascii) (p : Z) (l buf' : list ascii) :
  store buf p (l ++ [NUL]) = Some buf' →
  c_str buf' p = until_nul l.
Proof.
  intros (H0 & H1 & ->)%store_inv. unfold c_str.
  rewrite drop_app_length' by (rewrite length_take; rewrite length_app in H1; lia).
  rewrite <- app_assoc. simpl. apply until_nul_app_nul.
Qed.

(** Two stores in a row, the second starting inside the first at its
    terminator: the string read at the start is the concatenation. *)
Lemma c_str_store_append (buf buf' : list ascii) (p : Z) (l1 l2 : list ascii) :
  0 ≤ p →
  take (Z.to_nat p + length l1) buf = take (Z.to_nat p) buf ++ l1 →
  store buf (p + Z.of_nat (length l1)) (l2 ++ [NUL]) = Some buf' →
  c_str buf' p = until_nul (l1 ++ l2).
Proof.
  intros Hp Hpre (H0 & H1 & ->)%store_inv. unfold c_str.
  replace (Z.to_nat (p + Z.of_nat (length l1))) with (Z.to_nat p + length l1)%nat by lia.
  rewrite Hpre.
  assert (length (take (Z.to_nat p) buf) = Z.to_nat p) as Hlen.
  { apply (f_equal length) in Hpre.
    rewrite length_app, !length_take in Hpre. rewrite length_take. lia. }
  rewrite <- !app_assoc.
  rewrite drop_app_length' by done.
  rewrite (app_assoc l1), (app_assoc (l1 ++ l2)). rewrite <- (app_assoc (l1 ++ l2)).
  simpl. apply until_nul_app_nul.
Qed.

(** ** Linear probing *)

(** The [k]-th slot visited when probing starts at [idx]. *)
Definition slot_at (idx k : nat) : nat := ((idx + k) mod MAX_SYMBOLS)%nat.

(** The first [k] slots visited from [idx] are taken, by symbols other
    than [symbol]. *)
Definition path (tbl : list Symbol) (symbol : Z) (idx k : nat) : Prop :=
  ∀ i, (i < k)%nat →
    s_symbol (tbl !!! slot_at idx i) ≠ 0 ∧ s_symbol (tbl !!! slot_at idx i) ≠ symbol.

(** The first [k] slots visited from [idx] are taken. *)
Definition taken (tbl : list Symbol) (idx k : nat) : Prop :=
  ∀ i, (i < k)%nat → s_symbol (tbl !!! slot_at idx i) ≠ 0.

Lemma MAX_SYMBOLS_pos : (0 < MAX_SYMBOLS)%nat.
Proof. unfold MAX_SYMBOLS. lia. Qed.

Lemma slot_at_0 (idx : nat) : (idx < MAX_SYMBOLS)%nat → slot_at idx 0 = idx.
Proof. intros H. unfold slot_at. rewrite Nat.add_0_r. by apply Nat.mod_small. Qed.

Lemma slot_at_S (idx k : nat) :
  slot_at ((idx + 1) mod MAX_SYMBOLS) k = slot_at idx (S k).
Proof.
  unfold slot_at. rewrite Nat.Div0.add_mod_idemp_l. f_equal. lia.
Qed.

Lemma slot_at_lt (idx k : nat) : (slot_at idx k < MAX_SYMBOLS)%nat.
Proof. apply Nat.mod_upper_bound. pose proof MAX_SYMBOLS_pos. lia. Qed.

Lemma hash_lt (symbol : Z) : (hash symbol < MAX_SYMBOLS)%nat.
Proof.
  unfold hash.
  pose proof (Z.mod_pos_bound (Z.shiftr symbol 2) (Z.of_nat MAX_SYMBOLS)) as H.
  pose proof MAX_SYMBOLS_pos. lia.
Qed.

Lemma path_taken (tbl : list Symbol) (symbol : Z) (idx k : nat) :
  path tbl symbol idx k → taken tbl idx k.
Proof. intros H i Hi. by apply H. Qed.

(** What [probe_lookup] returns, read off the slots it visits. *)
Lemma probe_lookup_Done (fuel : nat) : ∀ (tbl : list Symbol) (idx : nat) (symbol : Z)
    (r : option Z),
  (idx < MAX_SYMBOLS)%nat →
  probe_lookup fuel tbl idx symbol = Done r →
  ∃ k, (k < fuel)%nat ∧ path tbl symbol idx k
       ∧ (s_symbol (tbl !!! slot_at idx k) = 0 ∧ r = None
          ∨ s_symbol (tbl !!! slot_at idx k) ≠ 0
            ∧ s_symbol (tbl !!! slot_at idx k) = symbol
            ∧ r = s_string (tbl !!! slot_at idx k)).
Proof.
  induction fuel as [|fuel IH]; intros tbl idx symbol r Hidx; cbn [probe_lookup]; [done|].
  destruct (Z.eqb_spec (s_symbol (tbl !!! idx)) 0) as [H0|H0].
  - intros [= <-]. exists 0%nat. rewrite slot_at_0 by done.
    split; [lia|]. split; [intros i Hi; lia|]. by left.
  - destruct (Z.eqb_spec (s_symbol (tbl !!! idx)) symbol) as [Hs|Hs].
    + intros [= <-]. exists 0%nat. rewrite slot_at_0 by done.
      split; [lia|]. split; [intros i Hi; lia|]. by right.
    + intros H. apply IH in H as (k & Hk & Hpath & Hend).
      2:{ apply Nat.mod_upper_bound. pose proof MAX_SYMBOLS_pos. lia. }
      exists (S k). rewrite <- slot_at_S. split; [lia|]. split; [|done].
      intros [|i] Hi.
      * by rewrite slot_at_0.
      * rewrite <- slot_at_S. apply Hpath. lia.
Qed.

Lemma probe_lookup_found (fuel : nat) : ∀ (tbl : list Symbol) (idx : nat) (symbol : Z)
    (k : nat),
  (idx < MAX_SYMBOLS)%nat → (k < fuel)%nat →
  path tbl symbol idx k →
  s_symbol (tbl !!! slot_at idx k) = symbol → symbol ≠ 0 →
  probe_lookup fuel tbl idx symbol = Done (s_string (tbl !!! slot_at idx k)).
Proof.
  induction fuel as [|fuel IH]; intros tbl idx symbol k Hidx Hk Hpath Hfound Hnz;
    [lia|]. cbn [probe_lookup].
  destruct k as [|k].
  - rewrite slot_at_0 in * by done. rewrite Hfound.
    destruct (Z.eqb_spec symbol 0); [done|]. by rewrite Z.eqb_refl.
  - destruct (Hpath 0%nat) as [H0 Hs]; [lia|]. rewrite slot_at_0 in H0, Hs by done.
    destruct (Z.eqb_spec (s_symbol (tbl !!! idx)) 0); [done|].
    destruct (Z.eqb_spec (s_symbol (tbl !!! idx)) symbol); [done|].
    rewrite <- slot_at_S in *. apply IH; try done.
    + apply Nat.mod_upper_bound. pose proof MAX_SYMBOLS_pos. lia.
    + lia.
    + intros i Hi. rewrite slot_at_S. apply Hpath. lia.
Qed.

Lemma probe_lookup_absent (fuel : nat) : ∀ (tbl : list Symbol) (idx : nat) (symbol : Z)
    (k : nat),
  (idx < MAX_SYMBOLS)%nat → (k < fuel)%nat →
  path tbl symbol idx k →
  s_symbol (tbl !!! slot_at idx k) = 0 →
  probe_lookup fuel tbl idx symbol = Done None.
Proof.
  induction fuel as [|fuel IH]; intros tbl idx symbol k Hidx Hk Hpath Hempty; [lia|].
  cbn [probe_lookup]. destruct k as [|k].
  - rewrite slot_at_0 in * by done. by rewrite Hempty.
  - destruct (Hpath 0%nat) as [H0 Hs]; [lia|]. rewrite slot_at_0 in H0, Hs by done.
    destruct (Z.eqb_spec (s_symbol (tbl !!! idx)) 0); [done|].
    destruct (Z.eqb_spec (s_symbol (tbl !!! idx)) symbol); [done|].
    rewrite <- slot_at_S in *. apply IH with k; try done.
    + apply Nat.mod_upper_bound. pose proof MAX_SYMBOLS_pos. lia.
    + lia.
    + intros i Hi. rewrite slot_at_S. apply Hpath. lia.
Qed.

(** With every slot taken by another symbol, the loop of
    [symbol_string_from_cache] never ends. *)
Lemma probe_lookup_diverges (fuel : nat) : ∀ (tbl : list Symbol) (idx : nat) (symbol : Z),
  (idx < MAX_SYMBOLS)%nat →
  (∀ j, (j < MAX_SYMBOLS)%nat →
        s_symbol (tbl !!! j) ≠ 0 ∧ s_symbol (tbl !!! j) ≠ symbol) →
  probe_lookup fuel tbl idx symbol = OutOfFuel.
Proof.
  induction fuel as [|fuel IH]; intros tbl idx symbol Hidx Hfull;
    cbn [probe_lookup]; [done|].
  destruct (Hfull idx Hidx) as [H0 Hs].
  destruct (Z.eqb_spec (s_symbol (tbl !!! idx)) 0); [done|].
  destruct (Z.eqb_spec (s_symbol (tbl !!! idx)) symbol); [done|].
  apply IH; [|done].
  apply Nat.mod_upper_bound. pose proof MAX_SYMBOLS_pos. lia.
Qed.

Lemma probe_empty_Done (fuel : nat) : ∀ (tbl : list Symbol) (idx : nat) (jumps : Z)
    (k : nat),
  (idx < MAX_SYMBOLS)%nat → (k < fuel)%nat →
  taken tbl idx k →
  s_symbol (tbl !!! slot_at idx k) = 0 →
  probe_empty fuel tbl idx jumps = Done (slot_at idx k, jumps + Z.of_nat k).
Proof.
  induction fuel as [|fuel IH]; intros tbl idx jumps k Hidx Hk Htaken Hempty; [lia|].
  cbn [probe_empty]. destruct k as [|k].
  - rewrite slot_at_0 in * by done. rewrite Hempty. cbn. do 2 f_equal. lia.
  - pose proof (Htaken 0%nat) as H0. rewrite slot_at_0 in H0 by done.
    destruct (Z.eqb_spec (s_symbol (tbl !!! idx)) 0) as [E|_]; [by destruct H0; [lia|]|].
    rewrite <- slot_at_S in *. rewrite (IH _ _ _ k); try done.
    + do 2 f_equal. lia.
    + apply Nat.mod_upper_bound. pose proof MAX_SYMBOLS_pos. lia.
    + lia.
    + intros i Hi. rewrite slot_at_S. apply Htaken. lia.
Qed.

(** ** Building a description *)

Lemma substring_all (n : nat) (s : string) :
  (String.length s ≤ n)%nat → substring 0 n s = s.
Proof.
  revert n. induction s as [|c s IH]; intros [|n] H; simpl in *; try done; try lia.
  rewrite IH; [done|lia].
Qed.

Lemma string_app_nil_r (s : string) : s +:+ "" = s.
Proof.
  induction s as [|c s IH]; [done|].
  change (String c s +:+ "") with (String c (s +:+ "")). by rewrite IH.
Qed.

Lemma until_nul_of_substring (n : nat) (l : list ascii) :
  until_nul (list_ascii_of_string (substring 0 n (until_nul l)))
  = substring 0 n (until_nul l).
Proof.
  rewrite <- (until_nul_app_nul _ []). apply until_nul_substring.
Qed.

(** ** The two printf families *)

Lemma has_c_str_store (buf : list ascii) (p : Z) (l buf' : list ascii) :
  store buf p (l ++ [NUL]) = Some buf' → has_c_str buf' p = true.
Proof.
  intros (H0 & H1 & ->)%store_inv. unfold has_c_str.
  destruct (Z.leb_spec 0 p); [|lia]. cbn [andb].
  rewrite drop_app_length' by (rewrite length_take; rewrite length_app in H1; lia).
  rewrite <- app_assoc. rewrite !existsb_app. cbn [existsb].
  change (NUL =? NUL)%char with true. by rewrite orb_true_r.
Qed.

Lemma existsb_drop {A} (f : A → bool) (n : nat) : ∀ l : list A,
  existsb f (drop n l) = true → existsb f l = true.
Proof.
  induction n as [|n IH]; intros [|x l]; cbn [drop existsb]; try done.
  intros H. rewrite (IH l H). apply orb_true_r.
Qed.

(** A string that ends inside the buffer does so from further down too. *)
Lemma has_c_str_below (buf : list ascii) (p q : Z) :
  0 ≤ p ≤ q → has_c_str buf q = true → has_c_str buf p = true.
Proof.
  intros Hpq. unfold has_c_str.
  destruct (Z.leb_spec 0 q); [|done]. destruct (Z.leb_spec 0 p); [|lia].
  cbn [andb]. replace (Z.to_nat q) with (Z.to_nat p + Z.to_nat (q - p))%nat by lia.
  rewrite <- drop_drop. apply existsb_drop.
Qed.

(** On a text that fits the count with its terminator the two families
    agree. *)
Lemma snprintf_fits (libc : printf_family) (buf : list ascii) (p n : Z) (s : string) :
  Z.of_nat (String.length s) < n →
  snprintf libc buf p n s
  = (store buf p (list_ascii_of_string s ++ [NUL]), Z.of_nat (String.length s)).
Proof.
  intros Hfit. unfold snprintf. destruct libc.
  - destruct (Z.eqb_spec n 0); [lia|]. by rewrite substring_all by lia.
  - by destruct (Z.ltb_spec (Z.of_nat (String.length s)) n); [|lia].
Qed.

(** Whatever the family, [snprintf] stores at [p] and above only. *)
Lemma snprintf_frame (libc : printf_family) (buf : list ascii) (p n : Z) (s : string)
    (buf' : list ascii) (r : Z) :
  snprintf libc buf p n s = (Some buf', r) →
  length buf' = length buf
  ∧ ∀ pos, 0 ≤ pos ≤ p → take (Z.to_nat pos) buf' = take (Z.to_nat pos) buf.
Proof.
  assert (∀ data, (if n =? 0 then Some buf else store buf p data) = Some buf' →
            length buf' = length buf
            ∧ ∀ pos, 0 ≤ pos ≤ p → take (Z.to_nat pos) buf' = take (Z.to_nat pos) buf)
    as Hstore.
  { intros data. destruct (n =? 0); [by intros [= <-]|].
    intros H. split; [by eapply store_length|]. intros pos Hpos. by eapply store_take. }
  unfold snprintf. destruct libc.
  - intros [= H _]. by eapply Hstore.
  - destruct (Z.of_nat (String.length s) <? n).
    + intros [= H _]. split; [by eapply store_length|].
      intros pos Hpos. by eapply store_take.
    + intros [= H _]. by eapply Hstore.
Qed.

(** The result is the length of the text, unless the Win32 function
    is given a text longer than the count. *)
Lemma snprintf_result (libc : printf_family) (buf : list ascii) (p n : Z) (s : string) :
  (libc = Win32 → Z.of_nat (String.length s) ≤ n) →
  (snprintf libc buf p n s).2 = Z.of_nat (String.length s).
Proof.
  intros Hle. unfold snprintf. destruct libc; [done|].
  specialize (Hle eq_refl).
  destruct (Z.ltb_spec (Z.of_nat (String.length s)) n); [done|]. cbn [snd].
  destruct (Z.eqb_spec (Z.of_nat (String.length s)) n); [done|lia].
Qed.

(** What a store leaves at and above its offset. *)
Lemma store_drop (buf : list ascii) (p : Z) (data buf' : list ascii) :
  store buf p data = Some buf' →
  drop (Z.to_nat p) buf' = data ++ drop (Z.to_nat p + length data) buf.
Proof.
  intros (H0 & H1 & ->)%store_inv.
  by rewrite drop_app_length' by (rewrite length_take; lia).
Qed.

Lemma store_drop_above (buf : list ascii) (p q : Z) (data buf' : list ascii) :
  store buf p data = Some buf' → p + Z.of_nat (length data) ≤ q →
  drop (Z.to_nat q) buf' = drop (Z.to_nat q) buf.
Proof.
  intros Hs Hq. pose proof (store_drop _ _ _ _ Hs) as Hd.
  apply store_inv in Hs as (H0 & H1 & _).
  replace (Z.to_nat q)
    with (Z.to_nat p + (length data + (Z.to_nat q - Z.to_nat p - length data)))%nat
    by lia.
  rewrite <- drop_drop, Hd, Nat.add_assoc, <- !drop_drop.
  by rewrite drop_app_length.
Qed.

(** A C string holds no terminator, and neither does a piece of it. *)
Lemma until_nul_no_nul (l : list ascii) :
  existsb (λ c, (c =? NUL)%char) (list_ascii_of_string (until_nul l)) = false.
Proof.
  induction l as [|c l IH]; [done|]. cbn [until_nul].
  destruct (c =? NUL)%char eqn:E; [done|].
  cbn [list_ascii_of_string existsb]. by rewrite E, IH.
Qed.

Lemma substring_no_nul (s : string) : ∀ n : nat,
  existsb (λ c, (c =? NUL)%char) (list_ascii_of_string s) = false →
  existsb (λ c, (c =? NUL)%char) (list_ascii_of_string (substring 0 n s)) = false.
Proof.
  induction s as [|c s IH]; intros [|n]; cbn [substring list_ascii_of_string existsb];
    try done.
  intros [Hc Hs]%orb_false_iff. by rewrite Hc, IH.
Qed.

Lemma substring_length (s : string) : ∀ n : nat,
  (n ≤ String.length s)%nat → String.length (substring 0 n s) = n.
Proof.
  induction s as [|c s IH]; intros [|n]; cbn [substring String.length]; try done;
    try lia.
  intros Hn. rewrite IH; lia.
Qed.

(** The name leaves room for its terminator behind the location text
    within the [STRING_MAX - 1] characters of a description: the case in
    which the two families agree. *)
Definition name_fits (loc : string) (name : option string) : Prop :=
  match name with
  | Some nm =>
      Z.of_nat (String.length loc) + Z.of_nat (String.length (cstring nm))
      ≤ STRING_MAX - 2
  | None => True
  end.

Section Build.

Variable libc : printf_family.
Variable debug_resolve_symbol : Z → string * string * Z.
Variables path_name_only debug_stl_simplify_name : string → string.
Variable format_pointer : Z → string.

Local Abbreviation write :=
  (write_symbol_string libc path_name_only debug_stl_simplify_name format_pointer).
Local Abbreviation write_C99 :=
  (write_symbol_string C99 path_name_only debug_stl_simplify_name format_pointer).
Local Abbreviation location := (format_location path_name_only format_pointer).

(** Formatting touches the buffer at [string] and above only; with the
    Win32 family, as long as the location text does not make the first
    [_snprintf] return [-1]. *)
Lemma write_symbol_string_frame (buf buf' : list ascii) (string symbol : Z)
    (name file : option String.string) (line : Z) :
  (libc = Win32 →
   Z.of_nat (String.length (location symbol file line)) ≤ STRING_MAX - 1) →
  write buf string symbol name file line = Some buf' →
  0 ≤ string ≤ Z.of_nat (length buf)
  ∧ length buf' = length buf
  ∧ take (Z.to_nat string) buf' = take (Z.to_nat string) buf.
Proof.
  intros Hloc. unfold write_symbol_string.
  pose proof (snprintf_result libc buf string (STRING_MAX - 1)
                (location symbol file line) Hloc) as Hres.
  destruct (snprintf libc buf string (STRING_MAX - 1) (location symbol file line))
    as [[buf1|] len] eqn:H1; [|done].
  cbn [snd] in Hres. subst len.
  assert (0 ≤ string ≤ Z.of_nat (length buf)) as Hrange.
  { revert H1. unfold snprintf. change (STRING_MAX - 1 =? 0) with false.
    destruct libc; [|destruct (_ <? _)]; cbn iota;
      intros H%(f_equal fst); cbn [fst] in H; apply store_inv in H; lia. }
  destruct (snprintf_frame _ _ _ _ _ _ _ H1) as [L1 T1].
  destruct name as [nm|].
  2:{ intros [= <-]. split; [done|]. split; [done|]. apply T1. lia. }
  set (len := Z.of_nat (String.length (location symbol file line))).
  assert (0 ≤ len) as Hlen by lia.
  destruct (snprintf libc buf1 (string + len) _ (cstring nm)) as [[buf2|] r] eqn:H2;
    [|done].
  destruct (snprintf_frame _ _ _ _ _ _ _ H2) as [L2 T2].
  destruct (has_c_str buf2 (string + len)); [|done].
  intros H3. pose proof (store_length _ _ _ _ H3) as L3.
  split; [done|]. split; [congruence|].
  rewrite (store_take _ _ string _ _ H3) by lia.
  rewrite T2 by lia. apply T1. lia.
Qed.

(** With C99's [snprintf]: when the location part is shorter than
    [STRING_MAX - 1] and the buffer has [STRING_MAX] characters of room,
    formatting succeeds and the string left at [string] is [render]. *)
Lemma write_symbol_string_render_C99 (buf : list ascii) (string symbol : Z)
    (name file : option String.string) (line : Z) :
  0 ≤ string → string + STRING_MAX ≤ Z.of_nat (length buf) →
  Z.of_nat (String.length (location symbol file line)) ≤ STRING_MAX - 2 →
  ∃ buf', write_C99 buf string symbol name file line = Some buf'
          ∧ has_c_str buf' string = true
          ∧ c_str buf' string
            = render path_name_only debug_stl_simplify_name format_pointer
                     symbol name file line.
Proof.
  intros Hpos Hroom Hloc. unfold write_symbol_string, render, snprintf.
  set (loc := location symbol file line) in *.
  change (STRING_MAX - 1 =? 0) with false. cbn iota.
  change (Z.to_nat (STRING_MAX - 1 - 1)) with (Z.to_nat (STRING_MAX - 2)).
  rewrite (substring_all _ loc) by lia.
  unfold STRING_MAX in *.
  rewrite store_Some
    by (rewrite ?length_app, ?list_ascii_of_string_length; cbn [length]; lia).
  set (buf1 := take (Z.to_nat string) buf ++ _).
  assert (store buf string (list_ascii_of_string loc ++ [NUL]) = Some buf1) as H1.
  { apply store_Some; rewrite ?length_app, ?list_ascii_of_string_length;
      cbn [length]; lia. }
  pose proof (store_length _ _ _ _ H1) as L1.
  destruct name as [nm|]; cbn [name_text].
  - (* append symbol name *)
    set (len := String.length loc) in *.
    assert (wrap_size (1000 - 1 - Z.of_nat len) = 999 - Z.of_nat len) as ->
      by (unfold wrap_size, SIZE_MOD; rewrite Z.mod_small; lia).
    destruct (Z.eqb_spec (999 - Z.of_nat len) 0) as [E|_]; [lia|].
    replace (Z.to_nat (999 - Z.of_nat len - 1)) with (Z.to_nat (1000 - 2) - len)%nat by lia.
    set (nm' := substring 0 (Z.to_nat (1000 - 2) - len) (cstring nm)).
    assert (String.length nm' ≤ Z.to_nat (1000 - 2) - len)%nat as Hnm'
      by apply substring_length_le.
    destruct (store buf1 (string + Z.of_nat len) (list_ascii_of_string nm' ++ [NUL]))
      as [buf2|] eqn:H2.
    2:{ rewrite store_Some in H2; [done|lia|].
        rewrite length_app, list_ascii_of_string_length, L1. cbn [length]. lia. }
    pose proof (store_length _ _ _ _ H2) as L2.
    rewrite (has_c_str_store _ _ _ _ H2).
    rewrite (c_str_store _ _ _ _ H2).
    assert (until_nul (list_ascii_of_string nm') = nm') as ->
      by apply until_nul_of_substring.
    set (simplified := simplify_in_place debug_stl_simplify_name nm').
    assert (String.length simplified ≤ String.length nm')%nat as Hsimp
      by apply substring_length_le.
    destruct (store buf2 (string + Z.of_nat len)
                (list_ascii_of_string simplified ++ [NUL])) as [buf3|] eqn:H3.
    2:{ rewrite store_Some in H3; [done|lia|].
        rewrite length_app, list_ascii_of_string_length, L2, L1. cbn [length]. lia. }
    exists buf3. split; [done|].
    split.
    { apply (has_c_str_below _ string (string + Z.of_nat len)); [lia|].
      by apply (has_c_str_store buf2 _ (list_ascii_of_string simplified)). }
    change (Z.to_nat (STRING_MAX - 2)) with (Z.to_nat (1000 - 2)).
    fold (cstring nm). fold nm'. fold simplified.
    unfold cstring at 1. rewrite list_ascii_of_string_app.
    assert (length (list_ascii_of_string loc) = len) as Ll
      by apply list_ascii_of_string_length.
    rewrite <- Ll in H3 at 1.
    apply (c_str_store_append buf2 buf3 string _ _ Hpos); [|done].
    rewrite Ll.
    replace (Z.to_nat string + len)%nat with (Z.to_nat (string + Z.of_nat len)) by lia.
    rewrite (store_take _ _ _ _ _ H2) by lia.
    assert (take (Z.to_nat string) buf2 = take (Z.to_nat string) buf) as ->.
    { rewrite (store_take buf1 (string + Z.of_nat len) string _ _ H2) by lia.
      apply (store_take _ _ _ _ _ H1). lia. }
    subst buf1.
    assert (length (take (Z.to_nat string) buf) = Z.to_nat string) as Lt
      by (rewrite length_take; lia).
    replace (Z.to_nat (string + Z.of_nat len))
      with (length (take (Z.to_nat string) buf) + len)%nat by lia.
    rewrite take_app_add. f_equal.
    rewrite <- app_assoc.
    apply take_app_length'. by rewrite list_ascii_of_string_length.
  - exists buf1. split; [done|].
    split; [by apply (has_c_str_store buf _ (list_ascii_of_string loc))|].
    rewrite (c_str_store _ _ _ _ H1). by rewrite string_app_nil_r.
Qed.

(** When the location text and the name both fit, the family makes no
    difference to the formatting. *)
Lemma write_symbol_string_family (buf : list ascii) (string symbol : Z)
    (name file : option String.string) (line : Z) :
  Z.of_nat (String.length (location symbol file line)) ≤ STRING_MAX - 2 →
  name_fits (location symbol file line) name →
  write buf string symbol name file line = write_C99 buf string symbol name file line.
Proof.
  intros Hloc Hname. unfold write_symbol_string.
  rewrite !snprintf_fits by (unfold STRING_MAX in *; lia).
  destruct (store buf string _) as [buf1|]; [|done].
  destruct name as [nm|]; [|done]. cbn [name_fits] in Hname.
  assert (wrap_size (STRING_MAX - 1
                     - Z.of_nat (String.length (location symbol file line)))
          = STRING_MAX - 1 - Z.of_nat (String.length (location symbol file line)))
    as -> by (unfold wrap_size, SIZE_MOD, STRING_MAX in *; rewrite Z.mod_small; lia).
  by rewrite !snprintf_fits by lia.
Qed.

(** When the location part is shorter than [STRING_MAX - 1] and the buffer
    has [STRING_MAX] characters of room, formatting succeeds and the string
    left at [string] is [render]; with the Win32 family, provided the
    name fits. *)
Lemma write_symbol_string_render (buf : list ascii) (string symbol : Z)
    (name file : option String.string) (line : Z) :
  0 ≤ string → string + STRING_MAX ≤ Z.of_nat (length buf) →
  Z.of_nat (String.length (location symbol file line)) ≤ STRING_MAX - 2 →
  (libc = Win32 → name_fits (location symbol file line) name) →
  ∃ buf', write buf string symbol name file line = Some buf'
          ∧ has_c_str buf' string = true
          ∧ c_str buf' string
            = render path_name_only debug_stl_simplify_name format_pointer
                     symbol name file line.
Proof.
  intros Hpos Hroom Hloc Hname.
  destruct (write_symbol_string_render_C99 buf string symbol name file line
              Hpos Hroom Hloc) as (buf' & Hw & Hstr).
  exists buf'. split; [|done].
  assert (libc = C99 ∨ libc = Win32) as [E|E] by (destruct libc; auto).
  - by rewrite E.
  - rewrite <- Hw. apply write_symbol_string_family; [done|by apply Hname].
Qed.

End Build.

(** ** The invariant of the cache *)

(** The string at [q] ends, terminator included, below [pos]. *)
Definition stored (buf : list ascii) (pos q : Z) : Prop :=
  0 ≤ q ∧ q + Z.of_nat (String.length (c_str buf q)) + 1 ≤ pos.

(** A valid slot [j] points to a string below the write position and is
    where probing for its symbol ends. *)
Definition entry_ok (buf : list ascii) (pos : Z) (tbl : list Symbol) (j : nat) : Prop :=
  s_symbol (tbl !!! j) ≠ 0 →
  (∃ q, s_string (tbl !!! j) = Some q ∧ stored buf pos q)
  ∧ ∃ k, (k < MAX_SYMBOLS)%nat
         ∧ slot_at (hash (s_symbol (tbl !!! j))) k = j
         ∧ path tbl (s_symbol (tbl !!! j)) (hash (s_symbol (tbl !!! j))) k.

Definition cache_ok (c : cache) : Prop :=
  0 ≤ string_buf_pos c
  ∧ (∀ buf, string_buf c = Some buf → Z.of_nat (length buf) = STRING_BUF_SIZE)
  ∧ (∀ tbl, symbols c = Some tbl →
       length tbl = MAX_SYMBOLS
       ∧ ∃ buf, string_buf c = Some buf
                ∧ ∀ j, (j < MAX_SYMBOLS)%nat → entry_ok buf (string_buf_pos c) tbl j).

(** [symbol] is cached with the string at [q]. *)
Definition cached (c : cache) (symbol q : Z) : Prop :=
  symbol ≠ 0
  ∧ ∃ tbl buf k,
      symbols c = Some tbl ∧ string_buf c = Some buf
      ∧ (k < MAX_SYMBOLS)%nat
      ∧ path tbl symbol (hash symbol) k
      ∧ tbl !!! slot_at (hash symbol) k = mkSymbol symbol (Some q)
      ∧ stored buf (string_buf_pos c) q.

Lemma cache_init_ok : cache_ok cache_init.
Proof. unfold cache_ok, cache_init; cbn. split; [lia|]. split; intros ? [=]. Qed.

Lemma malloc_block_length (garbage : list ascii) :
  Z.of_nat (length (malloc_block garbage)) = STRING_BUF_SIZE.
Proof.
  unfold malloc_block. rewrite length_take, length_app, length_replicate.
  unfold STRING_BUF_SIZE, KiB. lia.
Qed.

(** From every start, probing reaches every slot within [MAX_SYMBOLS]
    steps. *)
Lemma slot_at_surj (idx m : nat) :
  (idx < MAX_SYMBOLS)%nat → (m < MAX_SYMBOLS)%nat →
  ∃ i, (i < MAX_SYMBOLS)%nat ∧ slot_at idx i = m.
Proof.
  intros Hidx Hm. unfold slot_at.
  destruct (decide (idx ≤ m)%nat).
  - exists (m - idx)%nat. split; [lia|].
    replace (idx + (m - idx))%nat with m by lia. by apply Nat.mod_small.
  - exists (MAX_SYMBOLS - idx + m)%nat. split; [lia|].
    replace (idx + (MAX_SYMBOLS - idx + m))%nat with (m + 1 * MAX_SYMBOLS)%nat by lia.
    rewrite Nat.Div0.mod_add. by apply Nat.mod_small.
Qed.

(** A run of taken slots that ends at an empty one is shorter than the
    table. *)
Lemma taken_lt (tbl : list Symbol) (idx k : nat) :
  (idx < MAX_SYMBOLS)%nat →
  taken tbl idx k → s_symbol (tbl !!! slot_at idx k) = 0 → (k < MAX_SYMBOLS)%nat.
Proof.
  intros Hidx Htaken Hempty.
  destruct (slot_at_surj idx (slot_at idx k) Hidx (slot_at_lt idx k)) as (i & Hi & Heq).
  destruct (decide (i < k)%nat) as [Hlt|]; [|lia].
  exfalso. apply (Htaken i Hlt). by rewrite Heq.
Qed.

(** Two runs from the same start that end at an empty slot are one. *)
Lemma taken_unique (tbl : list Symbol) (idx k k' : nat) :
  taken tbl idx k → s_symbol (tbl !!! slot_at idx k) = 0 →
  taken tbl idx k' → s_symbol (tbl !!! slot_at idx k') = 0 →
  k = k'.
Proof.
  intros Hk Hek Hk' Hek'.
  destruct (Nat.lt_trichotomy k k') as [Hlt|[->|Hlt]]; [|done|].
  - destruct (Hk' k Hlt). done.
  - destruct (Hk k' Hlt). done.
Qed.

Lemma probe_empty_inv (fuel : nat) : ∀ (tbl : list Symbol) (idx : nat) (jumps : Z)
    (m : nat) (jumps' : Z),
  (idx < MAX_SYMBOLS)%nat →
  probe_empty fuel tbl idx jumps = Done (m, jumps') →
  ∃ k, (k < fuel)%nat ∧ taken tbl idx k ∧ s_symbol (tbl !!! slot_at idx k) = 0
       ∧ m = slot_at idx k.
Proof.
  induction fuel as [|fuel IH]; intros tbl idx jumps m jumps' Hidx;
    cbn [probe_empty]; [done|].
  destruct (Z.eqb_spec (s_symbol (tbl !!! idx)) 0) as [H0|H0].
  - intros [= <- _]. exists 0%nat. rewrite slot_at_0 by done.
    split; [lia|]. split; [intros i Hi; lia|]. done.
  - intros H. apply IH in H as (k & Hk & Htaken & Hempty & ->).
    2:{ apply Nat.mod_upper_bound. pose proof MAX_SYMBOLS_pos. lia. }
    exists (S k). rewrite <- slot_at_S. split; [lia|]. split; [|done].
    intros [|i] Hi.
    + by rewrite slot_at_0.
    + rewrite <- slot_at_S. apply Htaken. lia.
Qed.

(** Filling an empty slot leaves every probe path as it was. *)
Lemma path_insert (tbl : list Symbol) (symbol : Z) (idx k m : nat) (e : Symbol) :
  s_symbol (tbl !!! m) = 0 →
  path tbl symbol idx k → path (<[m := e]> tbl) symbol idx k.
Proof.
  intros Hempty Hpath i Hi. destruct (Hpath i Hi) as [H0 Hs].
  rewrite list_lookup_total_insert_ne; [done|].
  intros ->. done.
Qed.

(** A cached symbol is found, whatever the fuel above [MAX_SYMBOLS]. *)
Lemma cached_lookup (c : cache) (symbol q : Z) (fuel : nat) :
  cached c symbol q → (MAX_SYMBOLS ≤ fuel)%nat →
  symbol_string_from_cache fuel c symbol = Done (Some q).
Proof.
  intros (Hnz & tbl & buf & k & Htbl & _ & Hk & Hpath & Hslot & _) Hfuel.
  unfold symbol_string_from_cache. rewrite Htbl.
  rewrite (probe_lookup_found fuel tbl (hash symbol) symbol k);
    [by rewrite Hslot|apply hash_lt|lia|done|by rewrite Hslot|done].
Qed.

(** In a good cache, a failed lookup stopped at an empty slot. *)
Lemma lookup_miss (c : cache) (symbol : Z) (fuel : nat) :
  cache_ok c →
  symbol_string_from_cache fuel c symbol = Done None →
  symbols c = None
  ∨ ∃ tbl k, symbols c = Some tbl ∧ (k < fuel)%nat
             ∧ path tbl symbol (hash symbol) k
             ∧ s_symbol (tbl !!! slot_at (hash symbol) k) = 0.
Proof.
  intros (_ & _ & Hok). unfold symbol_string_from_cache.
  destruct (symbols c) as [tbl|] eqn:Htbl; [|by left].
  intros H. right. apply probe_lookup_Done in H as (k & Hk & Hpath & Hend);
    [|apply hash_lt].
  exists tbl, k. split; [done|]. split; [done|]. split; [done|].
  destruct Hend as [[H0 _]|(Hnz & Hs & Hr)]; [done|].
  exfalso. destruct (Hok tbl eq_refl) as (_ & buf & _ & Hent).
  destruct (Hent (slot_at (hash symbol) k) (slot_at_lt _ _) Hnz) as [(q & Hq & _) _].
  congruence.
Qed.

Lemma stored_frame (buf buf' : list ascii) (pos q : Z) :
  take (Z.to_nat pos) buf' = take (Z.to_nat pos) buf →
  pos ≤ Z.of_nat (length buf) →
  stored buf pos q →
  c_str buf' q = c_str buf q ∧ stored buf' pos q.
Proof.
  intros Htake Hpos [Hq Hend].
  assert (c_str buf' q = c_str buf q) as Heq by by apply (c_str_below buf buf' q pos).
  split; [done|]. unfold stored. by rewrite Heq.
Qed.

Lemma stored_mono (buf : list ascii) (pos pos' q : Z) :
  pos ≤ pos' → stored buf pos q → stored buf pos' q.
Proof. unfold stored. lia. Qed.

(** Replacing the buffer by one that agrees with it below the write
    position keeps the cache good and the cached descriptions unchanged. *)
Lemma buffer_frame (c : cache) (buf buf' : list ascii) :
  cache_ok c →
  string_buf c = Some buf →
  take (Z.to_nat (string_buf_pos c)) buf' = take (Z.to_nat (string_buf_pos c)) buf →
  length buf' = length buf →
  string_buf_pos c ≤ Z.of_nat (length buf) →
  let c1 := Cache (Some buf') (string_buf_pos c) (symbols c) (total_symbols c)
                  (hash_jumps c) in
  cache_ok c1
  ∧ ∀ symbol q, cached c symbol q →
                cached c1 symbol q ∧ description c1 q = description c q.
Proof.
  intros (Hpos & Hlen & Htbl) Hbuf Htake Hlen' Hle c1. split.
  - split; [done|]. split.
    + cbn. intros ? [= <-]. rewrite Hlen'. by apply Hlen.
    + cbn. intros tbl Ht. destruct (Htbl tbl Ht) as (Hl & buf0 & Hb0 & Hent).
      split; [done|]. exists buf'. split; [done|].
      assert (buf0 = buf) as -> by congruence.
      intros j Hj Hnz. destruct (Hent j Hj Hnz) as [(q & Hq & Hst) Hp].
      split; [|done]. exists q. split; [done|].
      by apply (stored_frame buf buf').
  - intros symbol q (Hnz & tbl & buf0 & k & Ht & Hb0 & Hk & Hpath & Hslot & Hst).
    assert (buf0 = buf) as -> by congruence.
    destruct (stored_frame buf buf' _ q Htake Hle Hst) as [Heq Hst'].
    split.
    + split; [done|]. by exists tbl, buf', k.
    + unfold description. cbn. by rewrite Hbuf.
Qed.

(** Committing [symbol] with the string at the write position into the
    empty slot its probing ends at, and moving the write position past the
    string: the cache stays good, what was cached stays cached, and
    [symbol] is cached if it is not null. *)
Lemma commit_ok (c : cache) (tbl : list Symbol) (buf : list ascii) (symbol : Z)
    (k : nat) (total jumps : Z) :
  cache_ok c → symbols c = Some tbl → string_buf c = Some buf →
  path tbl symbol (hash symbol) k →
  s_symbol (tbl !!! slot_at (hash symbol) k) = 0 →
  let string := string_buf_pos c in
  let c2 := Cache (Some buf) (string_buf_pos c + (strlen c string + 1))
                  (Some (<[slot_at (hash symbol) k := mkSymbol symbol (Some string)]> tbl))
                  total jumps in
  cache_ok c2
  ∧ (∀ s q, cached c s q → cached c2 s q)
  ∧ (symbol ≠ 0 → cached c2 symbol string).
Proof.
  intros (Hpos & Hlen & Htbl) Ht Hb Hpath Hempty string c2.
  destruct (Htbl tbl Ht) as (Hl & buf0 & Hb0 & Hent).
  assert (buf0 = buf) as -> by congruence.
  set (idx := slot_at (hash symbol) k) in *.
  assert (idx < length tbl)%nat as Hidx by (rewrite Hl; apply slot_at_lt).
  assert (strlen c string = Z.of_nat (String.length (c_str buf string))) as Hstr
    by (unfold strlen; by rewrite Hb).
  assert (string_buf_pos c ≤ string_buf_pos c + (strlen c string + 1)) as Hmono
    by (rewrite Hstr; lia).
  assert (k < MAX_SYMBOLS)%nat as Hk.
  { apply (taken_lt tbl (hash symbol)); [apply hash_lt| |done].
    by apply (path_taken tbl symbol). }
  assert (symbol ≠ 0 → cached c2 symbol string) as Hnew.
  { intros Hnz. split; [done|].
    exists (<[idx := mkSymbol symbol (Some string)]> tbl), buf, k.
    split; [done|]. split; [done|]. split; [done|]. split; [by apply path_insert|].
    split; [by apply list_lookup_total_insert_eq|].
    unfold stored. cbn. subst string. lia. }
  split; [|split; [|done]].
  - split; [cbn; lia|]. split; [cbn; intros ? [= <-]; by apply Hlen|].
    cbn. intros ? [= <-]. split; [by rewrite length_insert|].
    exists buf. split; [done|]. intros j Hj.
    destruct (decide (j = idx)) as [->|Hne].
    + unfold entry_ok. rewrite list_lookup_total_insert_eq by done. cbn.
      intros Hnz. destruct (Hnew Hnz) as (_ & tbl2 & buf2 & k2 & Ht2 & Hb2 & Hk2 & Hp2 & Hs2 & Hst2).
      cbn in Ht2, Hb2, Hst2. simplify_eq. split; [by exists string|].
      exists k. split; [done|]. split; [done|]. by apply path_insert.
    + unfold entry_ok. rewrite list_lookup_total_insert_ne by done.
      intros Hnz. destruct (Hent j Hj Hnz) as [(q & Hq & Hst) (kj & Hkj & Hsl & Hpj)].
      split.
      * exists q. split; [done|]. by apply (stored_mono buf (string_buf_pos c)).
      * exists kj. split; [done|]. split; [done|]. by apply path_insert.
  - intros s q (Hnz & tbl0 & buf0 & ks & Ht0 & Hb0' & Hks & Hps & Hss & Hsts).
    assert (tbl0 = tbl) as -> by congruence.
    assert (buf0 = buf) as -> by congruence.
    split; [done|].
    exists (<[idx := mkSymbol symbol (Some string)]> tbl), buf, ks.
    split; [done|]. split; [done|]. split; [done|]. split; [by apply path_insert|].
    split.
    + rewrite list_lookup_total_insert_ne; [done|].
      intros E. rewrite E, Hss in Hempty. done.
    + by apply (stored_mono buf (string_buf_pos c)).
Qed.

(** A freshly allocated table. *)
Lemma fresh_table_empty (j : nat) :
  s_symbol (replicate MAX_SYMBOLS (mkSymbol 0 None) !!! j) = 0.
Proof.
  rewrite list_lookup_total_alt.
  destruct (decide (j < MAX_SYMBOLS)%nat).
  - by rewrite lookup_replicate_2.
  - rewrite lookup_ge_None_2; [done|]. rewrite length_replicate. lia.
Qed.

(** The location text of a call: formatted from the file and line the
    call ends up with. *)
Definition call_location (debug_resolve_symbol : Z → string * string * Z)
    (path_name_only : string → string) (format_pointer : Z → string)
    (symbol : Z) (name file : option string) (line : Z) : string :=
  format_location path_name_only format_pointer symbol
    (resolve_fields debug_resolve_symbol symbol name file line).1.2
    (resolve_fields debug_resolve_symbol symbol name file line).2.

(** With the Win32 family, the location text of the call leaves the
    first [_snprintf] a result that is not [-1]: it has at most
    [STRING_MAX - 1] characters. (With [-1] the name is written one
    character below the write position, over the terminator of the
    description before.) C99's [snprintf] needs no such proviso. *)
Definition location_ok (libc : printf_family)
    (debug_resolve_symbol : Z → string * string * Z)
    (path_name_only : string → string) (format_pointer : Z → string)
    (symbol : Z) (name file : option string) (line : Z) : Prop :=
  libc = Win32 →
  Z.of_nat (String.length (call_location debug_resolve_symbol path_name_only
                             format_pointer symbol name file line))
  ≤ STRING_MAX - 1.

Definition request_ok (libc : printf_family)
    (debug_resolve_symbol : Z → string * string * Z)
    (path_name_only : string → string) (format_pointer : Z → string)
    (rq : request) : Prop :=
  location_ok libc debug_resolve_symbol path_name_only format_pointer
              (rq_symbol rq) (rq_name rq) (rq_file rq) (rq_line rq).

Section CacheSteps.

Variable libc : printf_family.
Variable debug_resolve_symbol : Z → string * string * Z.
Variables path_name_only debug_stl_simplify_name : string → string.
Variable format_pointer : Z → string.

Local Abbreviation build :=
  (symbol_string_build libc debug_resolve_symbol path_name_only debug_stl_simplify_name
                       format_pointer).
Local Abbreviation get_symbol_string :=
  (debug_get_symbol_string libc debug_resolve_symbol path_name_only
                           debug_stl_simplify_name format_pointer).
Local Abbreviation located :=
  (location_ok libc debug_resolve_symbol path_name_only format_pointer).

Lemma ensure_string_buf_inv (c : cache) (h : heap) (buf : list ascii) (pos : Z) :
  ensure_string_buf c h = Some (buf, pos) →
  string_buf c = Some buf ∧ pos = string_buf_pos c
  ∨ string_buf c = None ∧ pos = 0
    ∧ ∃ garbage, malloc_string_buf h = Some garbage ∧ buf = malloc_block garbage.
Proof.
  unfold ensure_string_buf. destruct (string_buf c) as [b|].
  - intros [= <- <-]. by left.
  - destruct (malloc_string_buf h) as [g|]; [|done].
    intros [= <- <-]. right. split; [done|]. split; [done|]. by exists g.
Qed.

(** The cache once the string buffer is in place. *)
Lemma ensure_string_buf_ok (c : cache) (h : heap) (buf : list ascii) (pos : Z) :
  cache_ok c →
  ensure_string_buf c h = Some (buf, pos) →
  let c0 := Cache (Some buf) pos (symbols c) (total_symbols c) (hash_jumps c) in
  cache_ok c0
  ∧ ∀ symbol q, cached c symbol q →
                cached c0 symbol q ∧ description c0 q = description c q.
Proof.
  intros Hok He c0. apply ensure_string_buf_inv in He as [[Hb ->]|(Hb & -> & g & _ & ->)].
  - assert (c0 = c) as -> by (subst c0; destruct c; cbn in *; by subst). done.
  - destruct Hok as (Hpos & Hlen & Htbl).
    assert (symbols c = None) as Hsym.
    { destruct (symbols c) as [tbl|] eqn:Ht; [|done].
      destruct (Htbl tbl eq_refl) as (_ & b & Hb' & _). congruence. }
    split.
    + split; [cbn; lia|]. split; cbn.
      * intros ? [= <-]. apply malloc_block_length.
      * rewrite Hsym. intros ? [=].
    + intros symbol q (_ & tbl & _ & _ & Ht & _). congruence.
Qed.

(** [symbol_string_build] keeps the cache good, the table and the cached
    descriptions as they are, and returns the write position if anything. *)
Lemma symbol_string_build_ok (c c1 : cache) (h : heap) (symbol : Z)
    (name file : option string) (line : Z) (r : option Z) (w : list warning) :
  cache_ok c →
  located symbol name file line →
  build c h symbol name file line = Done (r, c1, w) →
  cache_ok c1
  ∧ symbols c1 = symbols c ∧ total_symbols c1 = total_symbols c
  ∧ (∀ s q, cached c s q → cached c1 s q ∧ description c1 q = description c q)
  ∧ (∀ p, r = Some p → p = string_buf_pos c1 ∧ ∃ buf1, string_buf c1 = Some buf1).
Proof.
  intros Hok Hloc. unfold location_ok, call_location in Hloc. unfold symbol_string_build.
  destruct (ensure_string_buf c h) as [[buf pos]|] eqn:He.
  2:{ intros ?; simplify_eq. split; [done|]. split; [done|]. split; [done|].
      split; [by intros|]. intros p [=]. }
  destruct (ensure_string_buf_ok c h buf pos Hok He) as [Hok0 Hc0].
  set (c0 := Cache (Some buf) pos (symbols c) (total_symbols c) (hash_jumps c)) in *.
  destruct (STRING_BUF_SIZE <=? pos + STRING_MAX).
  { intros ?; simplify_eq. split; [done|]. split; [done|]. split; [done|].
    split; [done|]. intros p [=]. }
  destruct (resolve_fields _ _ _ _ _) as [[name' file'] line'].
  cbn [fst snd] in Hloc.
  destruct (write_symbol_string _ _ _ _ _ _ _ _ _ _) as [buf'|] eqn:Hw; [|done].
  intros ?; simplify_eq.
  apply write_symbol_string_frame in Hw as (Hrange & Hlen' & Htake); [|done].
  destruct (buffer_frame c0 buf buf' Hok0 eq_refl Htake Hlen') as [Hok1 Hc1];
    [cbn; lia|].
  cbn in Hok1, Hc1.
  split; [done|]. split; [done|]. split; [done|]. split.
  - intros s q Hs. destruct (Hc0 s q Hs) as [Hs0 Hd0].
    destruct (Hc1 s q Hs0) as [Hs1 Hd1]. split; [done|].
    rewrite <- Hd0. apply Hd1.
  - intros p [= <-]. split; [done|]. by exists buf'.
Qed.

(** [symbol_string_add_to_cache], called with the write position after a
    failed lookup of [symbol]. *)
Lemma symbol_string_add_to_cache_ok (fuel : nat) (c1 c2 : cache) (h : heap)
    (symbol : Z) (w : list warning) (buf1 : list ascii) :
  cache_ok c1 → string_buf c1 = Some buf1 →
  (symbols c1 = None
   ∨ ∃ tbl k, symbols c1 = Some tbl ∧ path tbl symbol (hash symbol) k
              ∧ s_symbol (tbl !!! slot_at (hash symbol) k) = 0) →
  symbol_string_add_to_cache fuel c1 h (string_buf_pos c1) symbol = Done (c2, w) →
  cache_ok c2 ∧ string_buf c2 = string_buf c1
  ∧ (∀ s q, cached c1 s q → cached c2 s q)
  ∧ (symbol ≠ 0 → total_symbols c1 < Z.of_nat MAX_SYMBOLS →
     cached c2 symbol (string_buf_pos c1)).
Proof.
  intros Hok Hb Hmiss. unfold symbol_string_add_to_cache.
  destruct (symbols c1) as [tbl|] eqn:Ht.
  - (* the table exists *)
    destruct Hmiss as [|(tbl0 & k & [= <-] & Hpath & Hempty)]; [done|].
    assert (Cache (string_buf c1) (string_buf_pos c1) (Some tbl) (total_symbols c1)
                  (hash_jumps c1) = c1) as Hc1 by (destruct c1; cbn in *; by subst).
    destruct (Z.leb_spec (Z.of_nat MAX_SYMBOLS) (total_symbols c1)) as [Hfull|Hroom].
    { rewrite Hc1. intros ?; simplify_eq.
      split; [done|]. split; [done|]. split; [done|]. lia. }
    destruct (probe_empty fuel tbl (hash symbol) (hash_jumps c1))
      as [[idx jumps]| |] eqn:Hp; try done.
    apply probe_empty_inv in Hp as (k0 & _ & Htaken & Hempty0 & ->); [|apply hash_lt].
    assert (k0 = k) as ->
      by (apply (taken_unique tbl (hash symbol)); try done; by apply (path_taken _ symbol)).
    destruct (terminated c1 (string_buf_pos c1)); [|done].
    intros ?; simplify_eq. rewrite Hb.
    destruct (commit_ok c1 tbl buf1 symbol k (wrap_uint (total_symbols c1 + 1))
                (wrap_uint jumps) Hok Ht Hb Hpath Hempty) as (Hok2 & Hkeep & Hnew).
    split; [done|]. split; [done|]. split; [done|]. intros Hnz _. by apply Hnew.
  - (* the table is allocated now *)
    assert (∀ s q, ¬ cached c1 s q) as Hnone.
    { intros s q (_ & tbl0 & _ & _ & Ht0 & _). congruence. }
    destruct (calloc_ok h).
    + remember (replicate MAX_SYMBOLS (mkSymbol 0 None)) as tbl eqn:Etbl.
      assert (length tbl = MAX_SYMBOLS) as Hltbl by (by rewrite Etbl, length_replicate).
      assert (∀ j, s_symbol (tbl !!! j) = 0) as Hfresh
        by (intros j; rewrite Etbl; apply fresh_table_empty).
      clear Etbl.
      set (c1' := Cache (string_buf c1) (string_buf_pos c1) (Some tbl) (total_symbols c1)
                        (hash_jumps c1)).
      assert (cache_ok c1') as Hok'.
      { destruct Hok as (Hpos & Hlen & _). split; [done|]. split; [done|].
        cbn. intros ? [= <-]. split; [done|].
        exists buf1. split; [done|]. intros j Hj Hnz.
        exfalso. apply Hnz. apply Hfresh. }
      destruct (Z.leb_spec (Z.of_nat MAX_SYMBOLS) (total_symbols c1)) as [Hfull|Hroom].
      { intros ?; simplify_eq. split; [done|]. split; [done|].
        split; [intros s q Hs; by destruct (Hnone s q)|]. lia. }
      destruct (probe_empty fuel tbl (hash symbol) (hash_jumps c1))
        as [[idx jumps]| |] eqn:Hp; try done.
      apply probe_empty_inv in Hp as (k0 & _ & Htaken & Hempty0 & ->); [|apply hash_lt].
      assert (k0 = 0)%nat as ->.
      { destruct k0 as [|k0]; [done|]. exfalso.
        apply (Htaken 0%nat); [lia|]. apply Hfresh. }
      destruct (terminated c1 (string_buf_pos c1)); [|done].
      intros ?; simplify_eq.
      assert (path tbl symbol (hash symbol) 0) as Hpath by (intros i Hi; lia).
      destruct (commit_ok c1' tbl buf1 symbol 0 (wrap_uint (total_symbols c1 + 1))
                  (wrap_uint jumps) Hok' eq_refl Hb Hpath Hempty0)
        as (Hok2 & Hkeep & Hnew).
      change (strlen c1' (string_buf_pos c1')) with (strlen c1 (string_buf_pos c1)) in *.
      change (string_buf_pos c1') with (string_buf_pos c1) in *.
      rewrite Hb.
      split; [done|]. split; [done|].
      split; [intros s q Hs; by destruct (Hnone s q)|]. intros Hnz _. by apply Hnew.
    + destruct (Z.leb_spec (Z.of_nat MAX_SYMBOLS) (total_symbols c1)) as [Hfull|Hroom];
        [|done].
      intros ?; simplify_eq.
      assert (Cache (string_buf c1) (string_buf_pos c1) None (total_symbols c1)
                    (hash_jumps c1) = c1) as -> by (destruct c1; cbn in *; by subst).
      split; [done|]. split; [done|]. split; [done|]. lia.
Qed.

(** Every call of [debug_get_symbol_string] that returns keeps the cache
    good, and keeps every cached symbol cached with the description it
    had. *)
Lemma debug_get_symbol_string_ok (fuel : nat) (c c' : cache) (h : heap) (symbol : Z)
    (name file : option string) (line : Z) (r : option Z) (w : list warning) :
  cache_ok c →
  located symbol name file line →
  get_symbol_string fuel c h symbol name file line = Done (r, c', w) →
  cache_ok c'
  ∧ ∀ s q, cached c s q → cached c' s q ∧ description c' q = description c q.
Proof.
  intros Hok Hloc. unfold debug_get_symbol_string.
  destruct (symbol_string_from_cache fuel c symbol) as [[p|]| |] eqn:Hl; try done.
  { intros ?; simplify_eq. done. }
  pose proof (lookup_miss c symbol fuel Hok Hl) as Hmiss.
  destruct (build c h symbol name file line) as [[[[p|] c1] w1]| |] eqn:Hbuild; try done.
  2:{ intros ?; simplify_eq.
      by destruct (symbol_string_build_ok c c' h symbol name file line None w Hok Hloc
                     Hbuild) as (? & _ & _ & ? & _). }
  destruct (symbol_string_build_ok c c1 h symbol name file line (Some p) w1 Hok Hloc
              Hbuild) as (Hok1 & Hsym & _ & Hkeep1 & Hp).
  destruct (Hp p eq_refl) as (-> & buf1 & Hb1).
  destruct (symbol_string_add_to_cache fuel c1 h (string_buf_pos c1) symbol)
    as [[c2 w2]| |] eqn:Hadd; try done.
  intros ?; simplify_eq.
  apply (symbol_string_add_to_cache_ok fuel c1 c' h symbol w2 buf1 Hok1 Hb1) in Hadd
    as (Hok2 & Hsame & Hkeep2 & _).
  2:{ rewrite Hsym. destruct Hmiss as [|(tbl & k & ? & _ & ? & ?)]; [by left|].
      right. by exists tbl, k. }
  split; [done|]. intros s q Hs. destruct (Hkeep1 s q Hs) as [Hs1 Hd1].
  split; [by apply Hkeep2|]. rewrite <- Hd1. unfold description. by rewrite Hsame.
Qed.

(** The first call for a symbol that is not null, made while the table has
    room, caches the string it returns. *)
Lemma debug_get_symbol_string_caches (fuel : nat) (c c' : cache) (h : heap) (symbol : Z)
    (name file : option string) (line : Z) (p : Z) (w : list warning) :
  cache_ok c →
  located symbol name file line →
  symbol_string_from_cache fuel c symbol = Done None →
  symbol ≠ 0 → total_symbols c < Z.of_nat MAX_SYMBOLS →
  get_symbol_string fuel c h symbol name file line = Done (Some p, c', w) →
  cached c' symbol p.
Proof.
  intros Hok Hloc Hl Hnz Hroom. unfold debug_get_symbol_string. rewrite Hl.
  pose proof (lookup_miss c symbol fuel Hok Hl) as Hmiss.
  destruct (build c h symbol name file line) as [[[[p1|] c1] w1]| |] eqn:Hbuild; try done.
  destruct (symbol_string_build_ok c c1 h symbol name file line (Some p1) w1 Hok Hloc
              Hbuild) as (Hok1 & Hsym & Htot & _ & Hp).
  destruct (Hp p1 eq_refl) as (-> & buf1 & Hb1).
  destruct (symbol_string_add_to_cache fuel c1 h (string_buf_pos c1) symbol)
    as [[c2 w2]| |] eqn:Hadd; try done.
  intros ?; simplify_eq.
  apply (symbol_string_add_to_cache_ok fuel c1 c' h symbol w2 buf1 Hok1 Hb1) in Hadd
    as (_ & _ & _ & Hnew).
  2:{ rewrite Hsym. destruct Hmiss as [|(tbl & k & ? & _ & ? & ?)]; [by left|].
      right. by exists tbl, k. }
  apply Hnew; [done|]. by rewrite Htot.
Qed.

Lemma resolve_all_ok (fuel : nat) (rqs : list request) : ∀ (c c' : cache),
  cache_ok c →
  Forall (request_ok libc debug_resolve_symbol path_name_only format_pointer) rqs →
  resolve_all libc debug_resolve_symbol path_name_only debug_stl_simplify_name
              format_pointer fuel c rqs = Done c' →
  cache_ok c'
  ∧ ∀ s q, cached c s q → cached c' s q ∧ description c' q = description c q.
Proof.
  induction rqs as [|rq rqs IH]; intros c c' Hok Hall; cbn [resolve_all].
  - intros [= <-]. done.
  - apply Forall_cons in Hall as [Hrq Hall].
    destruct (get_symbol_string fuel c (rq_heap rq) (rq_symbol rq) (rq_name rq)
                                (rq_file rq) (rq_line rq))
      as [[[r c1] w]| |] eqn:Hget; try done.
    destruct (debug_get_symbol_string_ok _ _ _ _ _ _ _ _ _ _ Hok Hrq Hget)
      as [Hok1 Hkeep1].
    intros Hrest. destruct (IH c1 c' Hok1 Hall Hrest) as [Hok' Hkeep'].
    split; [done|]. intros s q Hs. destruct (Hkeep1 s q Hs) as [Hs1 Hd1].
    destruct (Hkeep' s q Hs1) as [Hs' Hd']. split; [done|]. congruence.
Qed.

(** The table [symbol_string_add_to_cache] works on: the one in place, or
    a fresh one. *)
Definition table_in_use (c : cache) (h : heap) (tbl : list Symbol) : Prop :=
  symbols c = Some tbl
  ∨ symbols c = None ∧ calloc_ok h = true
    ∧ tbl = replicate MAX_SYMBOLS (mkSymbol 0 None).

(** What a call does on a miss, while both the string buffer and the table
    have room: the description is written at the write position, the
    symbol goes into the first empty slot on its probe path, and the write
    position moves past the description and its terminator. *)
Lemma debug_get_symbol_string_miss (fuel : nat) (c : cache) (h : heap)
    (buf : list ascii) (pos symbol : Z) (name file : option string) (line : Z)
    (tbl : list Symbol) (k : nat) :
  symbol_string_from_cache fuel c symbol = Done None →
  ensure_string_buf c h = Some (buf, pos) →
  Z.of_nat (length buf) = STRING_BUF_SIZE → 0 ≤ pos →
  pos + STRING_MAX < STRING_BUF_SIZE →
  total_symbols c < Z.of_nat MAX_SYMBOLS →
  table_in_use c h tbl →
  (k < fuel)%nat → taken tbl (hash symbol) k →
  s_symbol (tbl !!! slot_at (hash symbol) k) = 0 →
  Z.of_nat (String.length
              (format_location path_name_only format_pointer symbol
                 (resolve_fields debug_resolve_symbol symbol name file line).1.2
                 (resolve_fields debug_resolve_symbol symbol name file line).2))
    ≤ STRING_MAX - 2 →
  (libc = Win32 →
   name_fits (format_location path_name_only format_pointer symbol
                (resolve_fields debug_resolve_symbol symbol name file line).1.2
                (resolve_fields debug_resolve_symbol symbol name file line).2)
             (resolve_fields debug_resolve_symbol symbol name file line).1.1) →
  let text := render path_name_only debug_stl_simplify_name format_pointer symbol
                (resolve_fields debug_resolve_symbol symbol name file line).1.1
                (resolve_fields debug_resolve_symbol symbol name file line).1.2
                (resolve_fields debug_resolve_symbol symbol name file line).2 in
  ∃ buf',
    get_symbol_string fuel c h symbol name file line
    = Done (Some pos,
            Cache (Some buf') (pos + (Z.of_nat (String.length text) + 1))
                  (Some (<[slot_at (hash symbol) k := mkSymbol symbol (Some pos)]> tbl))
                  (wrap_uint (total_symbols c + 1))
                  (wrap_uint (hash_jumps c + Z.of_nat k)),
            [])
    ∧ length buf' = length buf
    ∧ take (Z.to_nat pos) buf' = take (Z.to_nat pos) buf
    ∧ c_str buf' pos = text.
Proof.
  intros Hmiss Hens Hlen Hpos Hroom Htotal Htbl Hk Htaken Hempty Hloc Hname text.
  unfold debug_get_symbol_string, symbol_string_build. rewrite Hmiss, Hens.
  destruct (Z.leb_spec STRING_BUF_SIZE (pos + STRING_MAX)); [lia|].
  subst text.
  destruct (resolve_fields debug_resolve_symbol symbol name file line)
    as [[name' file'] line'].
  cbn [fst snd] in *.
  destruct (write_symbol_string_render libc path_name_only debug_stl_simplify_name
              format_pointer buf pos symbol name' file' line')
    as (buf' & Hw & Hterm & Hstr); [lia|lia|done|done|].
  rewrite Hw.
  apply write_symbol_string_frame in Hw as (_ & Hlen' & Htake); [|intros _; lia].
  exists buf'. split; [|done].
  unfold symbol_string_add_to_cache. cbn [symbols string_buf string_buf_pos
    total_symbols hash_jumps].
  destruct Htbl as [Ht|(Ht & Hcalloc & ->)]; rewrite Ht; [|rewrite Hcalloc].
  - destruct (Z.leb_spec (Z.of_nat MAX_SYMBOLS) (total_symbols c)); [lia|].
    rewrite (probe_empty_Done fuel tbl (hash symbol) (hash_jumps c) k);
      [|apply hash_lt|done|done|done].
    unfold strlen, terminated. cbn [string_buf]. by rewrite Hterm, Hstr.
  - destruct (Z.leb_spec (Z.of_nat MAX_SYMBOLS) (total_symbols c)); [lia|].
    rewrite (probe_empty_Done fuel _ (hash symbol) (hash_jumps c) k);
      [|apply hash_lt|done|done|done].
    unfold strlen, terminated. cbn [string_buf]. by rewrite Hterm, Hstr.
Qed.

End CacheSteps.

(** ** Runs over fresh addresses, with the stand-in collaborators *)

Lemma hex_digit_not_nul (d : Z) : (hex_digit d =? NUL)%char = false.
Proof. unfold hex_digit. repeat case_match; reflexivity. Qed.

Lemma hex8_cstring (z : Z) : cstring (hex8 z) = hex8 z.
Proof.
  unfold cstring, hex8. cbn [map string_of_list_ascii list_ascii_of_string until_nul].
  by rewrite !hex_digit_not_nul.
Qed.

Lemma hex8_length (z : Z) : String.length (hex8 z) = 8%nat.
Proof. reflexivity. Qed.

Lemma cstring_app (a b : string) :
  cstring a = a → cstring b = b → cstring (a +:+ b) = a +:+ b.
Proof.
  unfold cstring. intros Ha Hb. rewrite list_ascii_of_string_app.
  revert Ha. induction a as [|ch a IH]; [done|].
  cbn [list_ascii_of_string app until_nul].
  destruct (ch =? NUL)%char; [done|]. intros [= Ha].
  change (String ch a +:+ b) with (String ch (a +:+ b)). f_equal. by apply IH.
Qed.

Lemma resolve_all_app (libc : printf_family)
    (debug_resolve_symbol : Z → string * string * Z)
    (path_name_only debug_stl_simplify_name : string → string)
    (format_pointer : Z → string) (fuel : nat) (l1 l2 : list request) : ∀ c c1,
  resolve_all libc debug_resolve_symbol path_name_only debug_stl_simplify_name
              format_pointer fuel c l1 = Done c1 →
  resolve_all libc debug_resolve_symbol path_name_only debug_stl_simplify_name
              format_pointer fuel c (l1 ++ l2)
  = resolve_all libc debug_resolve_symbol path_name_only debug_stl_simplify_name
                format_pointer fuel c1 l2.
Proof.
  induction l1 as [|rq l1 IH]; intros c c1; cbn [resolve_all app].
  - by intros [= ->].
  - destruct (debug_get_symbol_string _ _ _ _ _ _ _ _ _ _ _ _) as [[[? c'] ?]| |];
      try done. apply IH.
Qed.

Lemma mod_MAX_SYMBOLS_distinct (a b : nat) :
  (1 ≤ a)%nat → (a < b)%nat → (b ≤ MAX_SYMBOLS)%nat →
  (b mod MAX_SYMBOLS)%nat ≠ (a mod MAX_SYMBOLS)%nat.
Proof.
  intros H1 Hab Hb. rewrite (Nat.mod_small a) by lia.
  destruct (decide (b = MAX_SYMBOLS)) as [->|Hne].
  - rewrite Nat.Div0.mod_same. lia.
  - rewrite Nat.mod_small; lia.
Qed.

Section FreshRun.

Variable libc : printf_family.
(** Every call passes the same [name] and no file or line; [tail] is what
    the name contributes to a description. With the Win32 family the
    name fits. *)
Variable name : option string.
Variable tail : string.
Hypothesis tail_name : name_text id 9 name = tail.
Hypothesis tail_cstring : cstring tail = tail.
Hypothesis name_ok : libc = Win32 → ∀ symbol, name_fits (hex8 symbol +:+ " ") name.

Local Abbreviation get_fresh :=
  (debug_get_symbol_string libc no_info base_name id hex8).

(** Length of a description and its terminator. *)
Definition stride : Z := Z.of_nat (String.length tail) + 10.

Definition fresh_request (k : nat) : request :=
  Request heap_ok (4 * Z.of_nat k) name None 0.

(** The static data after the addresses 4, 8, ..., 4n have been resolved
    from the initial state: one description after the other in the string
    buffer, address 4k in slot k mod MAX_SYMBOLS. *)
Definition fresh_run_state (n : nat) (c : cache) : Prop :=
  match n with
  | O => c = cache_init
  | S _ =>
      ∃ buf tbl,
        string_buf c = Some buf ∧ Z.of_nat (length buf) = STRING_BUF_SIZE
        ∧ string_buf_pos c = stride * Z.of_nat n
        ∧ symbols c = Some tbl ∧ length tbl = MAX_SYMBOLS
        ∧ total_symbols c = Z.of_nat n
        ∧ (∀ k, (1 ≤ k ≤ n)%nat →
             tbl !!! (k mod MAX_SYMBOLS)%nat
             = mkSymbol (4 * Z.of_nat k) (Some (stride * (Z.of_nat k - 1)))
             ∧ c_str buf (stride * (Z.of_nat k - 1))
               = (hex8 (4 * Z.of_nat k) +:+ " ") +:+ tail)
        ∧ (∀ j, (j < MAX_SYMBOLS)%nat →
             (∀ k, (1 ≤ k ≤ n)%nat → j ≠ (k mod MAX_SYMBOLS)%nat) →
             s_symbol (tbl !!! j) = 0)
  end.

Lemma fresh_run_state_pos (n : nat) (c : cache) :
  (0 < n)%nat → fresh_run_state n c →
  ∃ buf tbl,
    string_buf c = Some buf ∧ Z.of_nat (length buf) = STRING_BUF_SIZE
    ∧ string_buf_pos c = stride * Z.of_nat n
    ∧ symbols c = Some tbl ∧ length tbl = MAX_SYMBOLS
    ∧ total_symbols c = Z.of_nat n
    ∧ (∀ k, (1 ≤ k ≤ n)%nat →
         tbl !!! (k mod MAX_SYMBOLS)%nat
         = mkSymbol (4 * Z.of_nat k) (Some (stride * (Z.of_nat k - 1)))
         ∧ c_str buf (stride * (Z.of_nat k - 1))
           = (hex8 (4 * Z.of_nat k) +:+ " ") +:+ tail)
    ∧ (∀ j, (j < MAX_SYMBOLS)%nat →
         (∀ k, (1 ≤ k ≤ n)%nat → j ≠ (k mod MAX_SYMBOLS)%nat) →
         s_symbol (tbl !!! j) = 0).
Proof. destruct n; [lia|]. by intros _ H. Qed.

Lemma fresh_fields (symbol : Z) :
  resolve_fields no_info symbol name None 0 = (name, None, 0).
Proof. unfold resolve_fields. by destruct name. Qed.

Lemma fresh_location (symbol : Z) :
  format_location base_name hex8 symbol None 0 = hex8 symbol +:+ " ".
Proof. unfold format_location. by rewrite hex8_cstring. Qed.

Lemma fresh_render (symbol : Z) :
  render base_name id hex8 symbol name None 0 = (hex8 symbol +:+ " ") +:+ tail.
Proof.
  unfold render. rewrite fresh_location.
  change (String.length (hex8 symbol +:+ " ")) with 9%nat.
  rewrite tail_name. apply cstring_app; [|done].
  apply cstring_app; [apply hex8_cstring|done].
Qed.

Lemma fresh_render_length (symbol : Z) :
  Z.of_nat (String.length (render base_name id hex8 symbol name None 0)) + 1 = stride.
Proof.
  rewrite fresh_render, !string_app_length, hex8_length. unfold stride.
  change (String.length " ") with 1%nat. lia.
Qed.

Lemma fresh_hash (k : nat) : hash (4 * Z.of_nat k) = (k mod MAX_SYMBOLS)%nat.
Proof.
  unfold hash. rewrite Z.shiftr_div_pow2 by lia.
  change (2 ^ 2) with 4. rewrite Z.mul_comm, Z.div_mul by lia.
  by rewrite <- Nat2Z.inj_mod, Nat2Z.id.
Qed.

(** One more address. *)
Lemma fresh_run_step (n : nat) (c : cache) :
  fresh_run_state n c →
  (n < MAX_SYMBOLS)%nat →
  stride * Z.of_nat n + STRING_MAX < STRING_BUF_SIZE →
  Z.of_nat (String.length tail) ≤ STRING_MAX - 11 →
  ∃ c', get_fresh MAX_SYMBOLS c heap_ok (4 * Z.of_nat (S n)) name None 0
        = Done (Some (stride * Z.of_nat n), c', [])
        ∧ fresh_run_state (S n) c'.
Proof.
  intros Hst Hn Hroom Htail.
  set (symbol := 4 * Z.of_nat (S n)).
  assert (hash symbol = (S n mod MAX_SYMBOLS)%nat) as Hhash by apply fresh_hash.
  assert (0 ≤ stride) as Hstride by (unfold stride; lia).
  (* the state before the call, in the shape the call needs *)
  assert (∃ buf tbl,
            ensure_string_buf c heap_ok = Some (buf, stride * Z.of_nat n)
            ∧ Z.of_nat (length buf) = STRING_BUF_SIZE
            ∧ table_in_use c heap_ok tbl ∧ length tbl = MAX_SYMBOLS
            ∧ total_symbols c = Z.of_nat n
            ∧ hash_jumps c = hash_jumps c
            ∧ symbol_string_from_cache MAX_SYMBOLS c symbol = Done None
            ∧ (∀ k, (1 ≤ k ≤ n)%nat →
                 tbl !!! (k mod MAX_SYMBOLS)%nat
                 = mkSymbol (4 * Z.of_nat k) (Some (stride * (Z.of_nat k - 1)))
                 ∧ c_str buf (stride * (Z.of_nat k - 1))
                   = (hex8 (4 * Z.of_nat k) +:+ " ") +:+ tail)
            ∧ (∀ j, (j < MAX_SYMBOLS)%nat →
                 (∀ k, (1 ≤ k ≤ n)%nat → j ≠ (k mod MAX_SYMBOLS)%nat) →
                 s_symbol (tbl !!! j) = 0))
    as (buf & tbl & Hens & Hlen & Htbl & Hltbl & Htotal & _ & Hmiss & Hold & Hfree).
  { destruct n as [|n'].
    - cbn in Hst. subst c.
      exists (malloc_block []), (replicate MAX_SYMBOLS (mkSymbol 0 None)).
      split; [by rewrite Z.mul_0_r|]. split; [apply malloc_block_length|].
      split; [right; done|]. split; [apply length_replicate|].
      split; [done|]. split; [done|]. split; [done|].
      split; [intros k Hk; lia|]. intros j _ _. apply fresh_table_empty.
    - destruct Hst as (buf & tbl & Hb & Hlen & Hpos & Ht & Hltbl & Htotal & Hold & Hfree).
      exists buf, tbl.
      split; [unfold ensure_string_buf; by rewrite Hb, Hpos|].
      split; [done|]. split; [by left|]. split; [done|]. split; [done|].
      split; [done|]. split; [|done].
      unfold symbol_string_from_cache. rewrite Ht.
      apply (probe_lookup_absent MAX_SYMBOLS tbl (hash symbol) symbol 0);
        [apply hash_lt|apply MAX_SYMBOLS_pos|intros i Hi; lia|].
      rewrite slot_at_0 by apply hash_lt. rewrite Hhash.
      apply Hfree; [apply Nat.mod_upper_bound; pose proof MAX_SYMBOLS_pos; lia|].
      intros k Hk. apply mod_MAX_SYMBOLS_distinct; lia. }
  assert (s_symbol (tbl !!! slot_at (hash symbol) 0) = 0) as Hempty.
  { rewrite slot_at_0 by apply hash_lt. rewrite Hhash.
    apply Hfree; [apply Nat.mod_upper_bound; pose proof MAX_SYMBOLS_pos; lia|].
    intros k Hk. apply mod_MAX_SYMBOLS_distinct; lia. }
  destruct (debug_get_symbol_string_miss libc no_info base_name id hex8 MAX_SYMBOLS c
              heap_ok buf (stride * Z.of_nat n) symbol name None 0 tbl 0)
    as (buf' & Hget & Hlen' & Htake & Hstr); try done.
  { lia. } { lia. } { apply MAX_SYMBOLS_pos. } { intros i Hi; lia. }
  { rewrite fresh_fields. cbn [fst snd]. rewrite fresh_location.
    rewrite string_app_length, hex8_length. unfold STRING_MAX. cbn. lia. }
  { rewrite fresh_fields. cbn [fst snd]. rewrite fresh_location.
    intros E. by apply name_ok. }
  rewrite fresh_fields in Hget, Hstr. cbn [fst snd] in Hget, Hstr.
  rewrite fresh_render_length in Hget.
  rewrite slot_at_0 in Hget by apply hash_lt. rewrite Hhash in Hget.
  eexists. split; [exact Hget|].
  cbn [fresh_run_state]. exists buf', (<[(S n mod MAX_SYMBOLS)%nat :=
                                          mkSymbol symbol (Some (stride * Z.of_nat n))]> tbl).
  cbn [string_buf string_buf_pos symbols total_symbols].
  split; [done|]. split; [by rewrite Hlen'|]. split; [lia|]. split; [done|].
  split; [by rewrite length_insert|].
  split; [rewrite Htotal; unfold wrap_uint, UINT_MOD;
          rewrite Z.mod_small; unfold MAX_SYMBOLS in *; lia|].
  split.
  - intros k Hk. destruct (decide (k = S n)) as [->|Hne].
    + rewrite list_lookup_total_insert_eq
        by (rewrite Hltbl; apply Nat.mod_upper_bound; pose proof MAX_SYMBOLS_pos; lia).
      split; [subst symbol; do 2 f_equal; lia|].
      replace (stride * (Z.of_nat (S n) - 1)) with (stride * Z.of_nat n) by lia.
      rewrite Hstr. apply fresh_render.
    + rewrite list_lookup_total_insert_ne by (apply mod_MAX_SYMBOLS_distinct; lia).
      destruct (Hold k) as [Hslot Hdesc]; [lia|]. split; [done|].
      rewrite <- Hdesc.
      apply (c_str_below buf buf' _ (stride * Z.of_nat n) Htake).
      * unfold STRING_BUF_SIZE, STRING_MAX, KiB in *. lia.
      * nia.
      * rewrite Hdesc, !string_app_length, hex8_length.
        change (String.length " ") with 1%nat. unfold stride in *. nia.
  - intros j Hj Hother.
    rewrite list_lookup_total_insert_ne by (apply not_eq_sym, Hother; lia).
    apply Hfree; [done|]. intros k Hk. apply Hother. lia.
Qed.

(** The whole run. *)
Lemma fresh_run (n : nat) :
  (n ≤ MAX_SYMBOLS)%nat →
  stride * (Z.of_nat n - 1) + STRING_MAX < STRING_BUF_SIZE →
  Z.of_nat (String.length tail) ≤ STRING_MAX - 11 →
  ∃ c, resolve_all libc no_info base_name id hex8 MAX_SYMBOLS cache_init
                   (map fresh_request (seq 1 n)) = Done c
       ∧ fresh_run_state n c.
Proof.
  intros Hn Hroom Htail. induction n as [|n IH].
  - by exists cache_init.
  - destruct IH as (c & Hrun & Hst); [lia|unfold stride in *; nia|].
    destruct (fresh_run_step n c Hst) as (c' & Hget & Hst'); [lia| |done|].
    { replace (stride * Z.of_nat n) with (stride * (Z.of_nat (S n) - 1)) by lia. done. }
    exists c'. split; [|done].
    rewrite seq_S, map_app. rewrite (resolve_all_app _ _ _ _ _ _ _ _ _ _ Hrun).
    cbn [map resolve_all fresh_request rq_heap rq_symbol rq_name rq_file rq_line].
    replace (Z.of_nat (1 + n)) with (Z.of_nat (S n)) by lia.
    by rewrite Hget.
Qed.

End FreshRun.

(** ** Results *)

Lemma result_eta (c : cache) (o : outcome (option Z * cache * list warning)) (p : option Z) :
  returned o = Done p → o = Done (p, cache_after c o, warned o).
Proof. destruct o as [[[p' c'] w]| |]; cbn; congruence. Qed.

Definition cache_of (c : cache) (o : outcome cache) : cache :=
  match o with Done c' => c' | _ => c end.
Definition is_done {A} (o : outcome A) : bool :=
  match o with Done _ => true | _ => false end.

Lemma outcome_eta (c : cache) (o : outcome cache) :
  is_done o = true → o = Done (cache_of c o).
Proof. by destruct o. Qed.

Lemma option_eta {A} (d : A) (o : option A) :
  is_some o = true → o = Some (default d o).
Proof. by destruct o. Qed.

(** C9, as the code has it. A symbol that is not null is resolved for the
    first time while the table has room, and a string is returned.
    Whatever calls follow, a later call for the same symbol returns the
    very same pointer, leaves the static data alone, and the description
    behind the pointer is, character for character, the one the first call
    left there, whatever name, file and line the later call is given.
    This holds with C99's [snprintf] and, as long as no call formats a
    location text of more than [STRING_MAX - 1] characters, with the Win32
    [_snprintf]. *)
Theorem second_resolution_returns_stored_string
    (libc : printf_family)
    (debug_resolve_symbol : Z → string * string * Z)
    (path_name_only debug_stl_simplify_name : string → string)
    (format_pointer : Z → string)
    (fuel : nat) (c c1 c2 : cache) (h h' : heap) (symbol : Z)
    (name file name' file' : option string) (line line' : Z)
    (p : Z) (w : list warning) (between : list request) :
  cache_ok c →
  (MAX_SYMBOLS ≤ fuel)%nat →
  symbol ≠ 0 →
  total_symbols c < Z.of_nat MAX_SYMBOLS →
  location_ok libc debug_resolve_symbol path_name_only format_pointer
              symbol name file line →
  Forall (request_ok libc debug_resolve_symbol path_name_only format_pointer) between →
  symbol_string_from_cache fuel c symbol = Done None →
  debug_get_symbol_string libc debug_resolve_symbol path_name_only
    debug_stl_simplify_name format_pointer fuel c h symbol name file line
  = Done (Some p, c1, w) →
  resolve_all libc debug_resolve_symbol path_name_only debug_stl_simplify_name
    format_pointer fuel c1 between = Done c2 →
  debug_get_symbol_string libc debug_resolve_symbol path_name_only
    debug_stl_simplify_name format_pointer fuel c2 h' symbol name' file' line'
  = Done (Some p, c2, [])
  ∧ description c2 p = description c1 p.
Proof.
  intros Hok Hfuel Hnz Hroom Hloc Hlocs Hmiss Hfirst Hbetween.
  pose proof (debug_get_symbol_string_caches _ _ _ _ _ _ _ _ _ _ _ _ _ _ _
                Hok Hloc Hmiss Hnz Hroom Hfirst) as Hcached.
  destruct (debug_get_symbol_string_ok _ _ _ _ _ _ _ _ _ _ _ _ _ _ _ Hok Hloc Hfirst)
    as [Hok1 _].
  destruct (resolve_all_ok _ _ _ _ _ _ _ _ _ Hok1 Hlocs Hbetween) as [_ Hkeep].
  destruct (Hkeep symbol p Hcached) as [Hcached2 Hdesc].
  split; [|done].
  unfold debug_get_symbol_string.
  by rewrite (cached_lookup c2 symbol p fuel Hcached2 Hfuel).
Qed.

(** Runs with the stand-in collaborators. *)
Local Abbreviation run_get libc :=
  (debug_get_symbol_string libc one_symbol_info base_name id hex8).
Local Abbreviation run_all libc := (resolve_all libc one_symbol_info base_name id hex8).

Local Abbreviation first_call libc :=
  (run_get libc MAX_SYMBOLS cache_init heap_ok 4198416
           (Some "main_loop") (Some "source/main.cpp") 77).
Local Abbreviation cache_1 libc := (cache_after cache_init (first_call libc)).
Definition calls_between : list request :=
  [Request heap_ok 4198420 None None 0;
   Request heap_ok 4198416 (Some "elsewhere") None 0;
   Request heap_ok 8388608 (Some "CRenderer::Render") (Some "source/renderer/Renderer.cpp") 310].
Local Abbreviation cache_2 libc :=
  (cache_of (cache_1 libc) (run_all libc MAX_SYMBOLS (cache_1 libc) calls_between)).

Example first_call_description :
  described (first_call C99) = Some "main.cpp:00077 main_loop"
  ∧ described (first_call Win32) = Some "main.cpp:00077 main_loop".
Proof. split; vm_compute; reflexivity. Qed.

Lemma calls_between_ok (libc : printf_family) :
  Forall (request_ok libc one_symbol_info base_name hex8) calls_between.
Proof. repeat constructor; intros _; vm_compute; discriminate. Qed.

Lemma second_resolution_returns_stored_string_witness :
  (run_get C99 MAX_SYMBOLS (cache_2 C99) heap_ok 4198416 (Some "renamed") None 0
   = Done (Some 0, cache_2 C99, [])
   ∧ description (cache_2 C99) 0 = description (cache_1 C99) 0)
  ∧ (run_get Win32 MAX_SYMBOLS (cache_2 Win32) heap_ok 4198416 (Some "renamed") None 0
     = Done (Some 0, cache_2 Win32, [])
     ∧ description (cache_2 Win32) 0 = description (cache_1 Win32) 0).
Proof.
  split.
  - assert (returned (first_call C99) = Done (Some 0)) as Hfirst
      by (vm_compute; reflexivity).
    assert (is_done (run_all C99 MAX_SYMBOLS (cache_1 C99) calls_between) = true)
      as Hbetween by (vm_compute; reflexivity).
    apply (second_resolution_returns_stored_string C99 one_symbol_info base_name id hex8
             MAX_SYMBOLS cache_init (cache_1 C99) (cache_2 C99) heap_ok heap_ok 4198416
             (Some "main_loop") (Some "source/main.cpp") (Some "renamed") None 77 0 0
             (warned (first_call C99)) calls_between).
    + exact cache_init_ok.
    + reflexivity.
    + discriminate.
    + reflexivity.
    + discriminate.
    + exact (calls_between_ok C99).
    + reflexivity.
    + exact (result_eta cache_init (first_call C99) (Some 0) Hfirst).
    + exact (outcome_eta (cache_1 C99)
               (run_all C99 MAX_SYMBOLS (cache_1 C99) calls_between) Hbetween).
  - assert (returned (first_call Win32) = Done (Some 0)) as Hfirst
      by (vm_compute; reflexivity).
    assert (is_done (run_all Win32 MAX_SYMBOLS (cache_1 Win32) calls_between) = true)
      as Hbetween by (vm_compute; reflexivity).
    apply (second_resolution_returns_stored_string Win32 one_symbol_info base_name id
             hex8 MAX_SYMBOLS cache_init (cache_1 Win32) (cache_2 Win32) heap_ok heap_ok
             4198416 (Some "main_loop") (Some "source/main.cpp") (Some "renamed") None
             77 0 0 (warned (first_call Win32)) calls_between).
    + exact cache_init_ok.
    + reflexivity.
    + discriminate.
    + reflexivity.
    + intros _. vm_compute. discriminate.
    + exact (calls_between_ok Win32).
    + reflexivity.
    + exact (result_eta cache_init (first_call Win32) (Some 0) Hfirst).
    + exact (outcome_eta (cache_1 Win32)
               (run_all Win32 MAX_SYMBOLS (cache_1 Win32) calls_between) Hbetween).
Defined.

(** Two calls for the same address, one after the other from the initial
    state, with no file and no line: the pointer and the description each
    returns, and in between the table entry the first one has left where
    probing for the address starts. *)
Definition resolved_twice (libc : printf_family) (symbol : Z)
    (name name' : option string)
    : (outcome (option Z) * option string) * option Symbol
      * (outcome (option Z) * option string) :=
  let first := run_get libc MAX_SYMBOLS cache_init heap_ok symbol name None 0 in
  let c1 := cache_after cache_init first in
  let second := run_get libc MAX_SYMBOLS c1 heap_ok symbol name' None 0 in
  ((returned first, described first),
   match symbols c1 with Some tbl => tbl !! hash symbol | None => None end,
   (returned second, described second)).

(** C9 as stated fails at the null address. The first call stores the
    address and its string in the table, but a slot that holds the null
    address counts as empty: the second call finds nothing, builds a
    description from its own hints behind the first one, and returns
    that. *)
Lemma null_address_is_resolved_anew :
  resolved_twice C99 0 (Some "first_name") (Some "second_name")
  = ((Done (Some 0), Some "00000000 first_name"),
     Some (mkSymbol 0 (Some 0)),
     (Done (Some 20), Some "00000000 second_name"))
  ∧ resolved_twice Win32 0 (Some "first_name") (Some "second_name")
    = ((Done (Some 0), Some "00000000 first_name"),
       Some (mkSymbol 0 (Some 0)),
       (Done (Some 20), Some "00000000 second_name")).
Proof. split; vm_compute; reflexivity. Qed.

(** For any other address the same two calls agree. *)
Example other_address_is_resolved_once :
  resolved_twice C99 4 (Some "first_name") (Some "second_name")
  = ((Done (Some 0), Some "00000004 first_name"),
     Some (mkSymbol 4 (Some 0)),
     (Done (Some 0), Some "00000004 first_name")).
Proof. vm_compute. reflexivity. Qed.

(** ** The full table *)

(** Even with the table full, a cached symbol is found and its stored
    string returned. *)
Lemma full_table_cached_lookup (libc : printf_family)
    (debug_resolve_symbol : Z → string * string * Z)
    (path_name_only debug_stl_simplify_name : string → string)
    (format_pointer : Z → string)
    (fuel : nat) (c : cache) (h : heap) (symbol q : Z)
    (name file : option string) (line : Z) :
  cached c symbol q → (MAX_SYMBOLS ≤ fuel)%nat →
  debug_get_symbol_string libc debug_resolve_symbol path_name_only
    debug_stl_simplify_name format_pointer fuel c h symbol name file line
  = Done (Some q, c, []).
Proof.
  intros Hc Hfuel. unfold debug_get_symbol_string.
  by rewrite (cached_lookup c symbol q fuel Hc Hfuel).
Qed.

(** C6, at the input where the code departs from it. When every slot of
    the table holds some other symbol, the loop of
    [symbol_string_from_cache] has no way out: it meets neither an empty
    slot nor the symbol, and [debug_get_symbol_string] does not return,
    however long it runs. (The guard on [total_symbols] protects the loop
    of [symbol_string_add_to_cache] only, which is never reached.) *)
Theorem full_table_new_symbol_never_returns
    (libc : printf_family)
    (debug_resolve_symbol : Z → string * string * Z)
    (path_name_only debug_stl_simplify_name : string → string)
    (format_pointer : Z → string)
    (fuel : nat) (c : cache) (tbl : list Symbol) (h : heap) (symbol : Z)
    (name file : option string) (line : Z) :
  symbols c = Some tbl →
  length tbl = MAX_SYMBOLS →
  Forall (λ e, s_symbol e ≠ 0 ∧ s_symbol e ≠ symbol) tbl →
  debug_get_symbol_string libc debug_resolve_symbol path_name_only
    debug_stl_simplify_name format_pointer fuel c h symbol name file line
  = OutOfFuel.
Proof.
  intros Ht Hlen Hall. unfold debug_get_symbol_string, symbol_string_from_cache.
  rewrite Ht. rewrite probe_lookup_diverges; [done|apply hash_lt|].
  intros j Hj. rewrite Forall_lookup in Hall.
  destruct (lookup_lt_is_Some_2 tbl j) as [e He]; [lia|].
  rewrite (list_lookup_total_correct _ _ _ He). by apply (Hall j).
Qed.

(** The table after 2048 distinct addresses 4, 8, ..., 8192 have been
    resolved from the initial state. *)
Definition filling_requests : list request :=
  map (λ k, Request heap_ok (4 * Z.of_nat k) None None 0) (seq 1 MAX_SYMBOLS).
Local Abbreviation full_cache libc :=
  (cache_of cache_init
     (resolve_all libc no_info base_name id hex8 MAX_SYMBOLS cache_init
                  filling_requests)).

(** The run that fills the table, step by step. *)
Lemma filling_run (libc : printf_family) :
  ∃ c buf tbl,
    resolve_all libc no_info base_name id hex8 MAX_SYMBOLS cache_init filling_requests
    = Done c
    ∧ string_buf c = Some buf ∧ symbols c = Some tbl ∧ length tbl = MAX_SYMBOLS
    ∧ total_symbols c = Z.of_nat MAX_SYMBOLS
    ∧ (∀ k, (1 ≤ k ≤ MAX_SYMBOLS)%nat →
         tbl !!! (k mod MAX_SYMBOLS)%nat = mkSymbol (4 * Z.of_nat k) (Some (10 * (Z.of_nat k - 1)))
         ∧ c_str buf (10 * (Z.of_nat k - 1)) = (hex8 (4 * Z.of_nat k) +:+ " ") +:+ "").
Proof.
  destruct (fresh_run libc None "" eq_refl eq_refl (λ _ _, I) MAX_SYMBOLS)
    as (c & Hrun & Hst); [done|by vm_compute|by vm_compute|].
  apply fresh_run_state_pos in Hst
    as (buf & tbl & Hb & _ & _ & Ht & Hl & Htot & Hold & _); [|apply MAX_SYMBOLS_pos].
  change (stride "") with 10 in Hold.
  exists c, buf, tbl. split; [exact Hrun|]. split; [exact Hb|]. split; [exact Ht|].
  split; [exact Hl|]. split; [exact Htot|]. exact Hold.
Qed.

Lemma filled_table_holds_others (libc : printf_family) :
  ∃ c tbl,
    resolve_all libc no_info base_name id hex8 MAX_SYMBOLS cache_init filling_requests
    = Done c
    ∧ symbols c = Some tbl ∧ length tbl = MAX_SYMBOLS
    ∧ Forall (λ e, s_symbol e ≠ 0 ∧ s_symbol e ≠ 8196) tbl.
Proof.
  destruct (filling_run libc) as (c & buf & tbl & Hrun & _ & Ht & Hlen & _ & Hold).
  exists c, tbl. split; [exact Hrun|]. split; [exact Ht|]. split; [exact Hlen|].
  apply Forall_lookup. intros j e He.
  pose proof (lookup_lt_Some _ _ _ He) as Hj. rewrite Hlen in Hj.
  apply list_lookup_total_correct in He. subst e.
  destruct (decide (j = 0)%nat) as [->|Hnz].
  - destruct (Hold MAX_SYMBOLS) as [Hslot _]; [pose proof MAX_SYMBOLS_pos; lia|].
    rewrite Nat.Div0.mod_same in Hslot. rewrite Hslot. cbn. unfold MAX_SYMBOLS. lia.
  - destruct (Hold j) as [Hslot _]; [lia|].
    rewrite Nat.mod_small in Hslot by done. rewrite Hslot. cbn.
    unfold MAX_SYMBOLS in *. lia.
Qed.

Lemma full_table_new_symbol_never_returns_witness :
  debug_get_symbol_string C99 no_info base_name id hex8 (4 * MAX_SYMBOLS)
                          (full_cache C99) heap_ok 8196 None None 0
  = OutOfFuel
  ∧ debug_get_symbol_string Win32 no_info base_name id hex8 (4 * MAX_SYMBOLS)
                            (full_cache Win32) heap_ok 8196 None None 0
    = OutOfFuel.
Proof.
  split.
  - destruct (filled_table_holds_others C99) as (c & tbl & Hrun & Ht & Hlen & Hall).
    rewrite Hrun. cbn [cache_of].
    exact (full_table_new_symbol_never_returns C99 no_info base_name id hex8
             (4 * MAX_SYMBOLS) c tbl heap_ok 8196 None None 0 Ht Hlen Hall).
  - destruct (filled_table_holds_others Win32) as (c & tbl & Hrun & Ht & Hlen & Hall).
    rewrite Hrun. cbn [cache_of].
    exact (full_table_new_symbol_never_returns Win32 no_info base_name id hex8
             (4 * MAX_SYMBOLS) c tbl heap_ok 8196 None None 0 Ht Hlen Hall).
Defined.

(** In that state the table has reached its capacity, and an address
    resolved earlier is still answered from the cache. *)
Definition capacity_and_old_entry (libc : printf_family) (c : cache)
    : Z * option string :=
  (total_symbols c,
   described (debug_get_symbol_string libc no_info base_name id hex8 MAX_SYMBOLS c
                heap_ok 40 (Some "ignored") None 0)).

Example full_cache_state (libc : printf_family) :
  capacity_and_old_entry libc (full_cache libc)
  = (Z.of_nat MAX_SYMBOLS, Some "00000028 ").
Proof.
  destruct (filling_run libc) as (c & buf & tbl & Hrun & Hb & Ht & Hlen & Htot & Hold).
  rewrite Hrun. cbn [cache_of]. unfold capacity_and_old_entry. rewrite Htot. f_equal.
  destruct (Hold 10%nat) as [Hslot Hdesc]; [unfold MAX_SYMBOLS; lia|].
  unfold debug_get_symbol_string, symbol_string_from_cache. rewrite Ht.
  rewrite (probe_lookup_found MAX_SYMBOLS tbl (hash 40) 40 0);
    [|apply hash_lt|apply MAX_SYMBOLS_pos|intros i Hi; lia| |done].
  - rewrite slot_at_0 by apply hash_lt.
    change (hash 40) with (10 mod MAX_SYMBOLS)%nat. rewrite Hslot.
    cbn [s_string described]. unfold description. rewrite Hb.
    rewrite Hdesc. reflexivity.
  - rewrite slot_at_0 by apply hash_lt.
    change (hash 40) with (10 mod MAX_SYMBOLS)%nat. by rewrite Hslot.
Qed.

(** ** The full string buffer *)

(** C5, as the code has it. When the write position is within
    [STRING_MAX] characters of the end of the string buffer, a call for a
    symbol that is not cached raises the [ERR_LIMIT] warning and returns
    the null pointer: no description is built, nothing is cached, and the
    static data stay as they are. *)
Theorem exhausted_buffer_returns_null
    (libc : printf_family)
    (debug_resolve_symbol : Z → string * string * Z)
    (path_name_only debug_stl_simplify_name : string → string)
    (format_pointer : Z → string)
    (fuel : nat) (c : cache) (buf : list ascii) (h : heap) (symbol : Z)
    (name file : option string) (line : Z) :
  symbol_string_from_cache fuel c symbol = Done None →
  string_buf c = Some buf →
  STRING_BUF_SIZE ≤ string_buf_pos c + STRING_MAX →
  debug_get_symbol_string libc debug_resolve_symbol path_name_only
    debug_stl_simplify_name format_pointer fuel c h symbol name file line
  = Done (None, c, [Warn_ERR_LIMIT_string_buf]).
Proof.
  intros Hmiss Hbuf Hfull.
  unfold debug_get_symbol_string, symbol_string_build, ensure_string_buf.
  rewrite Hmiss, Hbuf.
  destruct (Z.leb_spec STRING_BUF_SIZE (string_buf_pos c + STRING_MAX)); [|lia].
  destruct c; cbn in *. by subst.
Qed.

(** The string buffer after 65 addresses have been resolved with a name of
    989 characters each: every description takes 999 characters, and
    the write position stands at 64935. *)
Definition long_name : string :=
  string_of_list_ascii (replicate (Z.to_nat 989) "x"%char).
Definition exhausting_requests : list request :=
  map (λ k, Request heap_ok (4 * Z.of_nat k) (Some long_name) None 0) (seq 1 65).
Local Abbreviation exhausted_cache libc :=
  (cache_of cache_init
     (resolve_all libc no_info base_name id hex8 MAX_SYMBOLS cache_init
                  exhausting_requests)).

Definition buffer_exhausted (c : cache) (symbol : Z) : bool :=
  is_some (string_buf c)
  && (STRING_BUF_SIZE <=? string_buf_pos c + STRING_MAX)
  && match symbol_string_from_cache MAX_SYMBOLS c symbol with
     | Done None => true
     | _ => false
     end.

Lemma buffer_exhausted_spec (c : cache) (symbol : Z) :
  buffer_exhausted c symbol = true →
  symbol_string_from_cache MAX_SYMBOLS c symbol = Done None
  ∧ (∃ buf, string_buf c = Some buf)
  ∧ STRING_BUF_SIZE ≤ string_buf_pos c + STRING_MAX.
Proof.
  unfold buffer_exhausted.
  intros [[Hb Hp]%andb_true_iff Hm]%andb_true_iff.
  split; [|split].
  - by destruct (symbol_string_from_cache MAX_SYMBOLS c symbol) as [[?|]| |].
  - destruct (string_buf c) as [buf|]; [by exists buf|done].
  - by apply Z.leb_le.
Qed.

(** The run that exhausts the buffer, step by step. *)
Lemma exhausting_run (libc : printf_family) :
  ∃ c, resolve_all libc no_info base_name id hex8 MAX_SYMBOLS cache_init
                   exhausting_requests
       = Done c
       ∧ buffer_exhausted c 9000 = true.
Proof.
  assert (cstring (name_text id 9 (Some long_name)) = name_text id 9 (Some long_name))
    as Htail by (vm_compute; reflexivity).
  assert (stride (name_text id 9 (Some long_name)) = 999) as Hstride
    by (vm_compute; reflexivity).
  assert (∀ symbol, name_fits (hex8 symbol +:+ " ") (Some long_name)) as Hfits.
  { intros symbol. unfold name_fits.
    change (String.length (hex8 symbol +:+ " ")) with 9%nat.
    by vm_compute. }
  destruct (fresh_run libc (Some long_name) _ eq_refl Htail (λ _, Hfits) 65)
    as (c & Hrun & Hst).
  { unfold MAX_SYMBOLS. lia. }
  { rewrite Hstride. by vm_compute. }
  { apply Z.add_le_mono_r with (p := 10). fold (stride (name_text id 9 (Some long_name))).
    rewrite Hstride. by vm_compute. }
  apply fresh_run_state_pos in Hst
    as (buf & tbl & Hb & _ & Hpos & Ht & Hl & _ & _ & Hfree); [|lia].
  exists c. split; [exact Hrun|].
  unfold buffer_exhausted, symbol_string_from_cache.
  rewrite Hb, Hpos, Hstride, Ht.
  rewrite (probe_lookup_absent MAX_SYMBOLS tbl (hash 9000) 9000 0); [done|..].
  - apply hash_lt.
  - apply MAX_SYMBOLS_pos.
  - intros i Hi. lia.
  - rewrite slot_at_0 by apply hash_lt. change (hash 9000) with 202%nat.
    apply Hfree; [unfold MAX_SYMBOLS; lia|].
    intros k Hk. rewrite Nat.mod_small by (unfold MAX_SYMBOLS; lia). lia.
Qed.

Lemma exhausted_buffer_returns_null_witness :
  debug_get_symbol_string C99 no_info base_name id hex8 MAX_SYMBOLS
                          (exhausted_cache C99) heap_ok 9000 (Some "CGame::Update") None 0
  = Done (None, exhausted_cache C99, [Warn_ERR_LIMIT_string_buf])
  ∧ debug_get_symbol_string Win32 no_info base_name id hex8 MAX_SYMBOLS
                            (exhausted_cache Win32) heap_ok 9000 (Some "CGame::Update")
                            None 0
    = Done (None, exhausted_cache Win32, [Warn_ERR_LIMIT_string_buf]).
Proof.
  split.
  - destruct (exhausting_run C99) as (c & Hrun & Hex).
    rewrite Hrun. cbn [cache_of].
    destruct (buffer_exhausted_spec _ _ Hex) as (Hmiss & (buf & Hbuf) & Hfull).
    exact (exhausted_buffer_returns_null C99 no_info base_name id hex8 MAX_SYMBOLS
             c buf heap_ok 9000 (Some "CGame::Update") None 0
             Hmiss Hbuf Hfull).
  - destruct (exhausting_run Win32) as (c & Hrun & Hex).
    rewrite Hrun. cbn [cache_of].
    destruct (buffer_exhausted_spec _ _ Hex) as (Hmiss & (buf & Hbuf) & Hfull).
    exact (exhausted_buffer_returns_null Win32 no_info base_name id hex8 MAX_SYMBOLS
             c buf heap_ok 9000 (Some "CGame::Update") None 0
             Hmiss Hbuf Hfull).
Defined.

(** The call after that run does not return a description. *)
Lemma exhausted_run_no_description (libc : printf_family) :
  ¬ ∃ p, returned (debug_get_symbol_string libc no_info base_name id hex8 MAX_SYMBOLS
                     (exhausted_cache libc) heap_ok 9000 (Some "CGame::Update") None 0)
         = Done (Some p).
Proof.
  destruct (exhausting_run libc) as (c & Hrun & Hex).
  rewrite Hrun. cbn [cache_of].
  destruct (buffer_exhausted_spec _ _ Hex) as (Hmiss & (buf & Hbuf) & Hfull).
  unfold debug_get_symbol_string, symbol_string_build, ensure_string_buf.
  rewrite Hmiss, Hbuf.
  destruct (Z.leb_spec STRING_BUF_SIZE (string_buf_pos c + STRING_MAX)); [|lia].
  cbn. intros [p Hp]. discriminate.
Qed.

(** C5 as stated fails there: the call does not return a description. *)
Lemma exhausted_buffer_no_description :
  (¬ ∃ p, returned (debug_get_symbol_string C99 no_info base_name id hex8 MAX_SYMBOLS
                      (exhausted_cache C99) heap_ok 9000 (Some "CGame::Update") None 0)
          = Done (Some p))
  ∧ (¬ ∃ p, returned (debug_get_symbol_string Win32 no_info base_name id hex8
                        MAX_SYMBOLS (exhausted_cache Win32) heap_ok 9000
                        (Some "CGame::Update") None 0)
            = Done (Some p)).
Proof.
  split; [exact (exhausted_run_no_description C99)
         |exact (exhausted_run_no_description Win32)].
Qed.

(** ** Which name, file and line a description is built from *)

Section Fields.

Variable libc : printf_family.
Variable debug_resolve_symbol : Z → string * string * Z.
Variables path_name_only debug_stl_simplify_name : string → string.
Variable format_pointer : Z → string.






End Fields.



(** With name, file and line all supplied, the resolver is left alone. *)
Example all_hints_supplied :
  described (debug_get_symbol_string C99 one_symbol_info base_name id hex8 MAX_SYMBOLS
               cache_init heap_ok 4198416
               (Some "main_loop") (Some "source/main.cpp") 77)
  = Some "main.cpp:00077 main_loop".
Proof. vm_compute. reflexivity. Qed.

(** ** Termination while the table has room *)

(** The number of slots in use. *)
Fixpoint occupied (tbl : list Symbol) : nat :=
  match tbl with
  | [] => 0
  | e :: tbl' => (if s_symbol e =? 0 then 0 else 1) + occupied tbl'
  end.

Lemma occupied_replicate (n : nat) : occupied (replicate n (mkSymbol 0 None)) = 0%nat.
Proof. induction n as [|n IH]; [done|]. cbn [replicate occupied s_symbol]. by rewrite IH. Qed.

Lemma occupied_insert (tbl : list Symbol) : ∀ (j : nat) (e : Symbol),
  (occupied (<[j := e]> tbl) ≤ S (occupied tbl))%nat.
Proof.
  induction tbl as [|x tbl IH]; intros j e; [destruct j; simpl; lia|].
  destruct j as [|j]; simpl.
  - destruct (s_symbol e =? 0), (s_symbol x =? 0); lia.
  - specialize (IH j e). simpl in IH. lia.
Qed.

(** A table with fewer slots in use than it has slots has an empty one. *)
Lemma occupied_room (tbl : list Symbol) :
  (occupied tbl < length tbl)%nat →
  ∃ j, (j < length tbl)%nat ∧ s_symbol (tbl !!! j) = 0.
Proof.
  induction tbl as [|x tbl IH]; cbn [occupied length]; [lia|].
  destruct (Z.eqb_spec (s_symbol x) 0) as [H0|Hnz].
  - intros _. exists 0%nat. split; [lia|done].
  - intros Hlt. destruct IH as (j & Hj & Hempty); [lia|].
    exists (S j). split; [lia|done].
Qed.

(** [total_symbols] counts at least the slots in use. *)
Definition counted (c : cache) : Prop :=
  0 ≤ total_symbols c
  ∧ ∀ tbl, symbols c = Some tbl →
      length tbl = MAX_SYMBOLS ∧ Z.of_nat (occupied tbl) ≤ total_symbols c.

Lemma cache_init_counted : counted cache_init.
Proof. split; [done|]. intros tbl [=]. Qed.

(** Probing ends once it has an empty slot ahead. *)
Lemma probe_lookup_returns (tbl : list Symbol) (symbol : Z) : ∀ (k fuel idx : nat),
  (k < fuel)%nat →
  s_symbol (tbl !!! slot_at idx k) = 0 →
  (idx < MAX_SYMBOLS)%nat →
  ∃ r, probe_lookup fuel tbl idx symbol = Done r.
Proof.
  induction k as [|k IH]; intros fuel idx Hk Hempty Hidx;
    (destruct fuel as [|fuel]; [lia|]); cbn [probe_lookup].
  - rewrite slot_at_0 in Hempty by done. rewrite Hempty. by eexists.
  - destruct (s_symbol (tbl !!! idx) =? 0); [by eexists|].
    destruct (s_symbol (tbl !!! idx) =? symbol); [by eexists|].
    apply IH; [lia|by rewrite slot_at_S|].
    apply Nat.mod_upper_bound. pose proof MAX_SYMBOLS_pos. lia.
Qed.

Lemma probe_empty_returns (tbl : list Symbol) : ∀ (k fuel idx : nat) (jumps : Z),
  (k < fuel)%nat →
  s_symbol (tbl !!! slot_at idx k) = 0 →
  (idx < MAX_SYMBOLS)%nat →
  ∃ r, probe_empty fuel tbl idx jumps = Done r.
Proof.
  induction k as [|k IH]; intros fuel idx jumps Hk Hempty Hidx;
    (destruct fuel as [|fuel]; [lia|]); cbn [probe_empty].
  - rewrite slot_at_0 in Hempty by done. rewrite Hempty. by eexists.
  - destruct (s_symbol (tbl !!! idx) =? 0); [by eexists|].
    apply IH; [lia|by rewrite slot_at_S|].
    apply Nat.mod_upper_bound. pose proof MAX_SYMBOLS_pos. lia.
Qed.

(** With room in a counted table, every probe start has an empty slot
    within [MAX_SYMBOLS] steps. *)
Lemma room_ahead (tbl : list Symbol) (total : Z) (idx : nat) :
  length tbl = MAX_SYMBOLS →
  Z.of_nat (occupied tbl) ≤ total → total < Z.of_nat MAX_SYMBOLS →
  (idx < MAX_SYMBOLS)%nat →
  ∃ k, (k < MAX_SYMBOLS)%nat ∧ s_symbol (tbl !!! slot_at idx k) = 0.
Proof.
  intros Hlen Hocc Hroom Hidx.
  destruct (occupied_room tbl) as (j & Hj & Hempty); [lia|].
  destruct (slot_at_surj idx j Hidx) as (k & Hk & Hslot); [lia|].
  exists k. split; [done|]. by rewrite Hslot.
Qed.

Section Termination.

Variable libc : printf_family.
Variable debug_resolve_symbol : Z → string * string * Z.
Variables path_name_only debug_stl_simplify_name : string → string.
Variable format_pointer : Z → string.

Local Abbreviation get_symbol_string :=
  (debug_get_symbol_string libc debug_resolve_symbol path_name_only
                           debug_stl_simplify_name format_pointer).
Local Abbreviation resolve :=
  (resolve_all libc debug_resolve_symbol path_name_only debug_stl_simplify_name
               format_pointer).

Lemma debug_get_symbol_string_counted (fuel : nat) (c c' : cache) (h : heap)
    (symbol : Z) (name file : option string) (line : Z) (r : option Z)
    (w : list warning) :
  counted c →
  get_symbol_string fuel c h symbol name file line = Done (r, c', w) →
  counted c'.
Proof.
  intros [Htot Htbl]. unfold debug_get_symbol_string.
  destruct (symbol_string_from_cache fuel c symbol) as [[p|]| |]; try done.
  { intros ?; by simplify_eq. }
  unfold symbol_string_build.
  destruct (ensure_string_buf c h) as [[buf pos]|]; [|intros ?; by simplify_eq].
  destruct (STRING_BUF_SIZE <=? pos + STRING_MAX); [intros ?; by simplify_eq|].
  destruct (resolve_fields _ _ _ _ _) as [[nm fl] ln].
  destruct (write_symbol_string _ _ _ _ _ _ _ _ _ _) as [buf'|]; [|done].
  unfold symbol_string_add_to_cache. cbn [symbols total_symbols hash_jumps string_buf
                                           string_buf_pos].
  remember (replicate MAX_SYMBOLS (mkSymbol 0 None)) as fresh eqn:Efresh.
  assert (length fresh = MAX_SYMBOLS) as Hflen by (by rewrite Efresh, length_replicate).
  assert (occupied fresh = 0%nat) as Hfocc by (by rewrite Efresh, occupied_replicate).
  clear Efresh.
  destruct (Z.leb_spec (Z.of_nat MAX_SYMBOLS) (total_symbols c)) as [Hfull|Hroom].
  - destruct (symbols c) as [tbl|] eqn:Es.
    + intros ?; simplify_eq. split; [done|]. intros ? [= <-]. by apply Htbl.
    + destruct (calloc_ok h); intros ?; simplify_eq; (split; [done|]).
      * intros ? [= <-]. rewrite Hfocc. split; [done|]. cbn [total_symbols]. lia.
      * intros ? [=].
  - assert (wrap_uint (total_symbols c + 1) = total_symbols c + 1) as Hwrap.
    { unfold wrap_uint, UINT_MOD. rewrite Z.mod_small; [done|].
      unfold MAX_SYMBOLS in Hroom. lia. }
    destruct (symbols c) as [tbl|] eqn:Es.
    + destruct (Htbl tbl eq_refl) as [Hlen Hocc].
      destruct (probe_empty _ _ _ _) as [[idx jumps]| |]; try done.
      destruct (terminated _ _); [|done].
      intros ?; simplify_eq. unfold counted. cbn [total_symbols symbols]. rewrite Hwrap.
      split; [lia|]. intros ? [= <-]. rewrite length_insert. split; [done|].
      pose proof (occupied_insert tbl idx (mkSymbol symbol (Some pos))). lia.
    + destruct (calloc_ok h); [|done].
      destruct (probe_empty _ _ _ _) as [[idx jumps]| |]; try done.
      destruct (terminated _ _); [|done].
      intros ?; simplify_eq. unfold counted. cbn [total_symbols symbols]. rewrite Hwrap.
      split; [lia|]. intros ? [= <-]. rewrite length_insert.
      split; [done|].
      pose proof (occupied_insert fresh idx (mkSymbol symbol (Some pos))) as Hins.
      rewrite Hfocc in Hins. lia.
Qed.

Lemma resolve_all_counted (fuel : nat) (rqs : list request) : ∀ c c' : cache,
  counted c → resolve fuel c rqs = Done c' → counted c'.
Proof.
  induction rqs as [|rq rqs IH]; intros c c' Hc; cbn [resolve_all].
  - by intros [= <-].
  - destruct (get_symbol_string fuel c (rq_heap rq) (rq_symbol rq) (rq_name rq)
                                (rq_file rq) (rq_line rq))
      as [[[r c1] w]| |] eqn:Hget; try done.
    apply IH. by eapply debug_get_symbol_string_counted.
Qed.

(** The counterpart of the full table: as long as [total_symbols] is
    below [MAX_SYMBOLS], in whatever state a run of calls has left the
    cache, a call comes back: both probing loops find their empty slot
    within one round of the table. *)
Theorem call_returns_while_table_has_room (fuel : nat) (rqs : list request)
    (c : cache) (h : heap) (symbol : Z) (name file : option string) (line : Z) :
  (MAX_SYMBOLS ≤ fuel)%nat →
  resolve fuel cache_init rqs = Done c →
  total_symbols c < Z.of_nat MAX_SYMBOLS →
  get_symbol_string fuel c h symbol name file line ≠ OutOfFuel.
Proof.
  intros Hfuel Hrun Hroom.
  destruct (resolve_all_counted fuel rqs cache_init c cache_init_counted Hrun)
    as [Htot Htbl].
  unfold debug_get_symbol_string, symbol_string_from_cache.
  assert (∀ tbl, symbols c = Some tbl →
            ∃ k, (k < fuel)%nat ∧ s_symbol (tbl !!! slot_at (hash symbol) k) = 0)
    as Hahead.
  { intros tbl Es. destruct (Htbl tbl Es) as [Hlen Hocc].
    destruct (room_ahead tbl (total_symbols c) (hash symbol) Hlen Hocc Hroom
                (hash_lt symbol)) as (k & Hk & Hempty).
    exists k. split; [lia|done]. }
  assert (match symbols c with
          | Some tbl => probe_lookup fuel tbl (hash symbol) symbol
          | None => Done None
          end ≠ OutOfFuel) as Hlookup.
  { destruct (symbols c) as [tbl|]; [|done].
    destruct (Hahead tbl eq_refl) as (k & Hk & Hempty).
    destruct (probe_lookup_returns tbl symbol k fuel (hash symbol) Hk Hempty
                (hash_lt symbol)) as [r ->]. done. }
  destruct (match symbols c with
            | Some tbl => probe_lookup fuel tbl (hash symbol) symbol
            | None => Done None
            end) as [[p|]| |]; try done.
  unfold symbol_string_build.
  destruct (ensure_string_buf c h) as [[buf pos]|]; [|done].
  destruct (STRING_BUF_SIZE <=? pos + STRING_MAX); [done|].
  destruct (resolve_fields _ _ _ _ _) as [[nm fl] ln].
  destruct (write_symbol_string _ _ _ _ _ _ _ _ _ _) as [buf'|]; [|done].
  unfold symbol_string_add_to_cache. cbn [symbols total_symbols hash_jumps string_buf
                                           string_buf_pos].
  destruct (Z.leb_spec (Z.of_nat MAX_SYMBOLS) (total_symbols c)); [lia|].
  destruct (symbols c) as [tbl|] eqn:Es.
  - destruct (Hahead tbl eq_refl) as (k & Hk & Hempty).
    destruct (probe_empty_returns tbl k fuel (hash symbol) (hash_jumps c) Hk Hempty
                (hash_lt symbol)) as [[idx jumps] ->].
    by destruct (terminated _ _).
  - destruct (calloc_ok h); [|done].
    destruct (probe_empty_returns (replicate MAX_SYMBOLS (mkSymbol 0 None)) 0 fuel
                (hash symbol) (hash_jumps c)) as [[idx jumps] ->];
      [pose proof MAX_SYMBOLS_pos; lia|apply fresh_table_empty|apply hash_lt|].
    by destruct (terminated _ _).
Qed.

End Termination.

Lemma call_returns_while_table_has_room_witness :
  run_get C99 MAX_SYMBOLS
          (cache_of cache_init (run_all C99 MAX_SYMBOLS cache_init calls_between))
          heap_ok 4198432 None None 0
  ≠ OutOfFuel
  ∧ run_get Win32 MAX_SYMBOLS
            (cache_of cache_init (run_all Win32 MAX_SYMBOLS cache_init calls_between))
            heap_ok 4198432 None None 0
    ≠ OutOfFuel.
Proof.
  split.
  - assert (is_done (run_all C99 MAX_SYMBOLS cache_init calls_between) = true) as Hrun
      by (vm_compute; reflexivity).
    apply (call_returns_while_table_has_room C99 one_symbol_info base_name id hex8
             MAX_SYMBOLS calls_between
             (cache_of cache_init (run_all C99 MAX_SYMBOLS cache_init calls_between))
             heap_ok 4198432 None None 0).
    + reflexivity.
    + exact (outcome_eta cache_init (run_all C99 MAX_SYMBOLS cache_init calls_between)
               Hrun).
    + vm_compute. reflexivity.
  - assert (is_done (run_all Win32 MAX_SYMBOLS cache_init calls_between) = true) as Hrun
      by (vm_compute; reflexivity).
    apply (call_returns_while_table_has_room Win32 one_symbol_info base_name id hex8
             MAX_SYMBOLS calls_between
             (cache_of cache_init (run_all Win32 MAX_SYMBOLS cache_init calls_between))
             heap_ok 4198432 None None 0).
    + reflexivity.
    + exact (outcome_eta cache_init (run_all Win32 MAX_SYMBOLS cache_init calls_between)
               Hrun).
    + vm_compute. reflexivity.
Defined.

(** ** Misses *)

(** Probing for the null address never finds an entry: a slot holding it
    counts as empty. *)
Lemma probe_lookup_null (fuel : nat) : ∀ (tbl : list Symbol) (idx : nat) (q : Z),
  probe_lookup fuel tbl idx 0 ≠ Done (Some q).
Proof.
  induction fuel as [|fuel IH]; intros tbl idx q; cbn [probe_lookup]; [done|].
  destruct (Z.eqb_spec (s_symbol (tbl !!! idx)) 0) as [H0|Hnz]; [done|].
  apply IH.
Qed.

Section Misses.

Variable libc : printf_family.
Variable debug_resolve_symbol : Z → string * string * Z.
Variables path_name_only debug_stl_simplify_name : string → string.
Variable format_pointer : Z → string.

Local Abbreviation get_symbol_string :=
  (debug_get_symbol_string libc debug_resolve_symbol path_name_only
                           debug_stl_simplify_name format_pointer).
Local Abbreviation fields := (resolve_fields debug_resolve_symbol).
Local Abbreviation location := (format_location path_name_only format_pointer).

(** What the first call for a symbol does while the buffer and the table
    have room, when the location text and the name fit the
    [STRING_MAX - 2] characters of a description together: it returns the
    old write position, the text left there is the location followed by
    the simplified name, the write position moves past the text and its
    terminator, and [total_symbols] goes up by one. With C99's [snprintf]
    the same holds for a longer name, of which [render] keeps what fits;
    the Win32 [_snprintf] leaves such a name without terminator (see
    [unterminated_name_runs_off_buffer]). *)
Theorem miss_builds_the_description (fuel : nat) (c : cache) (h : heap)
    (buf : list ascii) (pos symbol : Z) (name file : option string) (line : Z) :
  cache_ok c → (MAX_SYMBOLS ≤ fuel)%nat →
  symbol_string_from_cache fuel c symbol = Done None →
  ensure_string_buf c h = Some (buf, pos) →
  (symbols c = None → calloc_ok h = true) →
  pos + STRING_MAX < STRING_BUF_SIZE →
  total_symbols c < Z.of_nat MAX_SYMBOLS →
  Z.of_nat (String.length (location symbol (fields symbol name file line).1.2
                                           (fields symbol name file line).2))
    ≤ STRING_MAX - 2 →
  (libc = Win32 →
   name_fits (location symbol (fields symbol name file line).1.2
                              (fields symbol name file line).2)
             (fields symbol name file line).1.1) →
  let text := render path_name_only debug_stl_simplify_name format_pointer symbol
                     (fields symbol name file line).1.1
                     (fields symbol name file line).1.2
                     (fields symbol name file line).2 in
  ∃ c', get_symbol_string fuel c h symbol name file line = Done (Some pos, c', [])
        ∧ description c' pos = text
        ∧ string_buf_pos c' = pos + (Z.of_nat (String.length text) + 1)
        ∧ total_symbols c' = wrap_uint (total_symbols c + 1).
Proof.
  intros Hok Hfuel Hmiss Hens Hcalloc Hroom Htotal Hloc Hname text.
  destruct (ensure_string_buf_ok c h buf pos Hok Hens) as [(Hpos & Hlen & _) _].
  cbn [string_buf string_buf_pos] in Hpos, Hlen. specialize (Hlen buf eq_refl).
  assert (∃ tbl k, table_in_use c h tbl ∧ (k < fuel)%nat
                   ∧ taken tbl (hash symbol) k
                   ∧ s_symbol (tbl !!! slot_at (hash symbol) k) = 0)
    as (tbl & k & Huse & Hk & Htaken & Hempty).
  { destruct (lookup_miss c symbol fuel Hok Hmiss)
      as [Hnone|(tbl & k & Hs & Hk & Hpath & Hempty)].
    - exists (replicate MAX_SYMBOLS (mkSymbol 0 None)), 0%nat.
      split; [right; by auto|]. split.
      + pose proof MAX_SYMBOLS_pos. lia.
      + split; [intros i Hi; lia|apply fresh_table_empty].
    - exists tbl, k. split; [by left|]. split; [done|].
      split; [by eapply path_taken|done]. }
  destruct (debug_get_symbol_string_miss libc debug_resolve_symbol path_name_only
              debug_stl_simplify_name format_pointer fuel c h buf pos symbol name file
              line tbl k Hmiss Hens Hlen Hpos Hroom Htotal Huse Hk Htaken Hempty Hloc
              Hname)
    as (buf' & Hget & _ & _ & Htext).
  eexists. split; [exact Hget|].
  unfold description. cbn [string_buf string_buf_pos total_symbols].
  split; [exact Htext|]. split; reflexivity.
Qed.

(** With the Win32 [_snprintf] a name that does not fit is stored
    without terminator, and [debug_stl_simplify_name] reads on into
    whatever the buffer held behind it: off the end of the buffer when
    no terminator is left there, as in a block fresh from [malloc] that
    holds none. *)
Theorem unterminated_name_runs_off_buffer (fuel : nat) (c : cache) (h : heap)
    (buf : list ascii) (pos symbol : Z) (name file : option string) (line : Z)
    (nm : string) :
  symbol_string_from_cache fuel c symbol = Done None →
  ensure_string_buf c h = Some (buf, pos) →
  0 ≤ pos →
  pos + STRING_MAX < STRING_BUF_SIZE →
  (fields symbol name file line).1.1 = Some nm →
  Z.of_nat (String.length (location symbol (fields symbol name file line).1.2
                                           (fields symbol name file line).2))
    ≤ STRING_MAX - 2 →
  STRING_MAX - 1
    ≤ Z.of_nat (String.length (location symbol (fields symbol name file line).1.2
                                               (fields symbol name file line).2))
      + Z.of_nat (String.length (cstring nm)) →
  has_c_str buf (pos + (STRING_MAX - 1)) = false →
  debug_get_symbol_string Win32 debug_resolve_symbol path_name_only
    debug_stl_simplify_name format_pointer fuel c h symbol name file line
  = Fault.
Proof.
  intros Hmiss Hens Hpos Hroom Hnm Hloc Hlong Hrest.
  unfold debug_get_symbol_string, symbol_string_build. rewrite Hmiss, Hens.
  destruct (Z.leb_spec STRING_BUF_SIZE (pos + STRING_MAX)); [lia|].
  destruct (resolve_fields debug_resolve_symbol symbol name file line)
    as [[name' file'] line'].
  cbn [fst snd] in Hnm, Hloc, Hlong. subst name'.
  set (loc := location symbol file' line') in *.
  unfold write_symbol_string. fold loc.
  rewrite snprintf_fits by lia.
  destruct (store buf pos (list_ascii_of_string loc ++ [NUL])) as [buf1|] eqn:H1;
    [|done].
  set (len := Z.of_nat (String.length loc)) in *.
  assert (wrap_size (STRING_MAX - 1 - len) = STRING_MAX - 1 - len) as ->
    by (unfold wrap_size, SIZE_MOD, STRING_MAX in *; rewrite Z.mod_small; lia).
  unfold snprintf.
  destruct (Z.ltb_spec (Z.of_nat (String.length (cstring nm))) (STRING_MAX - 1 - len));
    [lia|].
  destruct (Z.eqb_spec (STRING_MAX - 1 - len) 0); [lia|].
  set (data := list_ascii_of_string
                 (substring 0 (Z.to_nat (STRING_MAX - 1 - len)) (cstring nm))).
  assert (Z.of_nat (length data) = STRING_MAX - 1 - len) as Hdata.
  { subst data. rewrite list_ascii_of_string_length, substring_length; lia. }
  destruct (store buf1 (pos + len) data) as [buf2|] eqn:H2; [|done].
  assert (has_c_str buf2 (pos + len) = false) as ->; [|done].
  unfold has_c_str in *.
  destruct (Z.leb_spec 0 (pos + (STRING_MAX - 1))); [|lia].
  destruct (Z.leb_spec 0 (pos + len)); [|lia]. cbn [andb] in *.
  rewrite (store_drop _ _ _ _ H2), existsb_app.
  subst data. rewrite substring_no_nul by apply until_nul_no_nul. cbn [orb].
  replace (Z.to_nat (pos + len) + _)%nat with (Z.to_nat (pos + (STRING_MAX - 1)))
    by (rewrite list_ascii_of_string_length in *; lia).
  rewrite (store_drop_above _ _ _ _ _ H1); [done|].
  rewrite length_app, list_ascii_of_string_length. cbn [length]. lia.
Qed.

(** The null address is never answered from the cache: whenever a call
    for it returns a string, the string has just been built at the write
    position, and, while the table has room, the call has used up one
    more of its [MAX_SYMBOLS] entries. *)
Theorem null_address_is_built_anew (fuel : nat) (c c' : cache) (h : heap)
    (name file : option string) (line : Z) (p : Z) (w : list warning) :
  get_symbol_string fuel c h 0 name file line = Done (Some p, c', w) →
  (∃ buf, ensure_string_buf c h = Some (buf, p))
  ∧ (total_symbols c < Z.of_nat MAX_SYMBOLS →
     total_symbols c' = wrap_uint (total_symbols c + 1)).
Proof.
  unfold debug_get_symbol_string.
  destruct (symbol_string_from_cache fuel c 0) as [[q|]| |] eqn:Hlook; try done.
  { exfalso. unfold symbol_string_from_cache in Hlook.
    destruct (symbols c) as [tbl|]; [|done]. by apply probe_lookup_null in Hlook. }
  unfold symbol_string_build.
  destruct (ensure_string_buf c h) as [[buf pos]|]; [|done].
  destruct (STRING_BUF_SIZE <=? pos + STRING_MAX); [done|].
  destruct (resolve_fields _ _ _ _ _) as [[nm fl] ln].
  destruct (write_symbol_string _ _ _ _ _ _ _ _ _ _) as [buf'|]; [|done].
  unfold symbol_string_add_to_cache. cbn [symbols total_symbols hash_jumps string_buf
                                           string_buf_pos].
  remember (replicate MAX_SYMBOLS (mkSymbol 0 None)) as fresh eqn:Efresh. clear Efresh.
  destruct (Z.leb_spec (Z.of_nat MAX_SYMBOLS) (total_symbols c)) as [Hfull|Hroom].
  - destruct (symbols c) as [tbl|]; [|destruct (calloc_ok h)];
      intros ?; simplify_eq; (split; [by eexists|lia]).
  - destruct (symbols c) as [tbl|]; [|destruct (calloc_ok h); [|done]];
      (destruct (probe_empty _ _ _ _) as [[idx jumps]| |]; try done;
       destruct (terminated _ _); [|done];
       intros ?; simplify_eq; (split; [by eexists|done])).
Qed.

(** When [malloc] fails on the first call that needs the string buffer,
    the call raises [ERR_NO_MEM], returns the null pointer and leaves the
    static data as they are. *)
Theorem failed_malloc_returns_null (fuel : nat) (c : cache) (h : heap) (symbol : Z)
    (name file : option string) (line : Z) :
  cache_ok c → string_buf c = None → malloc_string_buf h = None →
  get_symbol_string fuel c h symbol name file line = Done (None, c, [Warn_ERR_NO_MEM]).
Proof.
  intros (_ & _ & Htbl) Hbuf Hmalloc.
  assert (symbols c = None) as Hsym.
  { destruct (symbols c) as [tbl|] eqn:Es; [|done].
    destruct (Htbl tbl eq_refl) as (_ & buf & Hb & _). congruence. }
  unfold debug_get_symbol_string, symbol_string_from_cache, symbol_string_build,
    ensure_string_buf.
  by rewrite Hsym, Hbuf, Hmalloc.
Qed.

(** When [calloc] fails on the first call that needs the table, the
    failure is warned about and then ignored: with room left according to
    [total_symbols], the probing loop reads through the null [symbols]
    pointer. *)
Theorem failed_calloc_reads_null_table (fuel : nat) (c : cache) (h : heap)
    (buf : list ascii) (pos symbol : Z) (name file : option string) (line : Z) :
  cache_ok c →
  symbols c = None → calloc_ok h = false →
  ensure_string_buf c h = Some (buf, pos) →
  pos + STRING_MAX < STRING_BUF_SIZE →
  total_symbols c < Z.of_nat MAX_SYMBOLS →
  Z.of_nat (String.length (location symbol (fields symbol name file line).1.2
                                           (fields symbol name file line).2))
    ≤ STRING_MAX - 2 →
  get_symbol_string fuel c h symbol name file line = Fault.
Proof.
  intros Hok Hsym Hcalloc Hens Hroom Htotal Hloc.
  unfold debug_get_symbol_string, symbol_string_from_cache, symbol_string_build.
  rewrite Hsym, Hens.
  destruct (Z.leb_spec STRING_BUF_SIZE (pos + STRING_MAX)); [lia|].
  destruct (resolve_fields debug_resolve_symbol symbol name file line)
    as [[name' file'] line'].
  (* the description is formatted first; a fault there comes first *)
  destruct (write_symbol_string _ _ _ _ _ _ _ _ _ _) as [buf'|]; [|done].
  unfold symbol_string_add_to_cache. cbn [symbols total_symbols]. rewrite Hcalloc.
  by destruct (Z.leb_spec (Z.of_nat MAX_SYMBOLS) (total_symbols c)); [lia|].
Qed.

End Misses.

Lemma miss_builds_the_description_witness :
  let text := render base_name id hex8 4198416
                (resolve_fields one_symbol_info 4198416
                   (Some "main_loop") (Some "source/main.cpp") 77).1.1
                (resolve_fields one_symbol_info 4198416
                   (Some "main_loop") (Some "source/main.cpp") 77).1.2
                (resolve_fields one_symbol_info 4198416
                   (Some "main_loop") (Some "source/main.cpp") 77).2 in
  (∃ c', run_get C99 MAX_SYMBOLS cache_init heap_ok 4198416
                 (Some "main_loop") (Some "source/main.cpp") 77
         = Done (Some 0, c', [])
         ∧ description c' 0 = text
         ∧ string_buf_pos c' = 0 + (Z.of_nat (String.length text) + 1)
         ∧ total_symbols c' = wrap_uint (total_symbols cache_init + 1))
  ∧ (∃ c', run_get Win32 MAX_SYMBOLS cache_init heap_ok 4198416
                   (Some "main_loop") (Some "source/main.cpp") 77
           = Done (Some 0, c', [])
           ∧ description c' 0 = text
           ∧ string_buf_pos c' = 0 + (Z.of_nat (String.length text) + 1)
           ∧ total_symbols c' = wrap_uint (total_symbols cache_init + 1)).
Proof.
  split.
  - apply (miss_builds_the_description C99 one_symbol_info base_name id hex8 MAX_SYMBOLS
             cache_init heap_ok (malloc_block []) 0 4198416
             (Some "main_loop") (Some "source/main.cpp") 77).
    + exact cache_init_ok.
    + reflexivity.
    + reflexivity.
    + reflexivity.
    + reflexivity.
    + vm_compute. reflexivity.
    + vm_compute. reflexivity.
    + vm_compute. discriminate.
    + discriminate.
  - apply (miss_builds_the_description Win32 one_symbol_info base_name id hex8
             MAX_SYMBOLS cache_init heap_ok (malloc_block []) 0 4198416
             (Some "main_loop") (Some "source/main.cpp") 77).
    + exact cache_init_ok.
    + reflexivity.
    + reflexivity.
    + reflexivity.
    + reflexivity.
    + vm_compute. reflexivity.
    + vm_compute. reflexivity.
    + vm_compute. discriminate.
    + intros _. vm_compute. discriminate.
Defined.

(** A name of 990 characters, too long by one behind a location text
    of nine, and a block from [malloc] without a single terminator. *)
Definition overlong_name : string :=
  string_of_list_ascii (replicate (Z.to_nat 990) "x"%char).
Definition heap_of_garbage : heap :=
  Heap (Some (replicate (Z.to_nat STRING_BUF_SIZE) "g"%char)) true.

Lemma unterminated_name_runs_off_buffer_witness :
  run_get Win32 MAX_SYMBOLS cache_init heap_of_garbage 4198420 (Some overlong_name)
          None 0
  = Fault.
Proof.
  apply (unterminated_name_runs_off_buffer one_symbol_info base_name id hex8
           MAX_SYMBOLS cache_init heap_of_garbage
           (malloc_block (replicate (Z.to_nat STRING_BUF_SIZE) "g"%char)) 0 4198420
           (Some overlong_name) None 0 overlong_name).
  - reflexivity.
  - reflexivity.
  - lia.
  - vm_compute. reflexivity.
  - reflexivity.
  - vm_compute. discriminate.
  - vm_compute. discriminate.
  - vm_compute. reflexivity.
Defined.

(** C99's [snprintf] cuts the same name and terminates it. *)
Example overlong_name_is_cut :
  option_map String.length
    (described (run_get C99 MAX_SYMBOLS cache_init heap_of_garbage 4198420
                        (Some overlong_name) None 0))
  = Some 998%nat.
Proof. vm_compute. reflexivity. Qed.

Lemma null_address_is_built_anew_witness :
  (∃ buf, ensure_string_buf cache_init heap_ok = Some (buf, 0))
  ∧ (total_symbols cache_init < Z.of_nat MAX_SYMBOLS →
     total_symbols (cache_after cache_init
                      (run_get Win32 MAX_SYMBOLS cache_init heap_ok 0 None None 0))
     = wrap_uint (total_symbols cache_init + 1)).
Proof.
  assert (returned (run_get Win32 MAX_SYMBOLS cache_init heap_ok 0 None None 0)
          = Done (Some 0)) as Hret by (vm_compute; reflexivity).
  exact (null_address_is_built_anew Win32 one_symbol_info base_name id hex8 MAX_SYMBOLS
           cache_init _ heap_ok None None 0 0 _
           (result_eta cache_init _ (Some 0) Hret)).
Defined.

(** The allocator out of memory. *)
Definition heap_exhausted : heap := Heap None false.

Lemma failed_malloc_returns_null_witness :
  run_get Win32 MAX_SYMBOLS cache_init heap_exhausted 4198416 None None 0
  = Done (None, cache_init, [Warn_ERR_NO_MEM]).
Proof.
  apply (failed_malloc_returns_null Win32 one_symbol_info base_name id hex8 MAX_SYMBOLS
           cache_init heap_exhausted 4198416 None None 0).
  - exact cache_init_ok.
  - reflexivity.
  - reflexivity.
Defined.

Lemma failed_calloc_reads_null_table_witness :
  run_get Win32 MAX_SYMBOLS cache_init (Heap (Some []) false) 4198416 None None 0 = Fault.
Proof.
  apply (failed_calloc_reads_null_table Win32 one_symbol_info base_name id hex8
           MAX_SYMBOLS cache_init (Heap (Some []) false) (malloc_block []) 0 4198416
           None None 0).
  - exact cache_init_ok.
  - reflexivity.
  - reflexivity.
  - reflexivity.
  - vm_compute. reflexivity.
  - vm_compute. reflexivity.
  - vm_compute. discriminate.
Defined.

End SymbolCacheFacts.
